(** * river_adgen: the ad-generation pipeline of [app.py] and its
    interactive front end [streamlit_app.py], embedded in Rocq.

    Python [str] values are modelled as [string]; one [ascii] stands for one
    code point of the Latin-1 range.  Python [int] is [Z].  Library calls the
    program makes ([re], [json], [str.format], [pathlib]) are modelled on the
    fragment the program can reach; an input outside the modelled fragment of
    a library yields [Beyond], which is neither a value nor an exception.

    The batch is embedded twice: run after run ([main]), for what does not
    depend on the order of the runs, and as coroutines under a model of the
    [asyncio] event loop ([Aio]), for what does. *)

From Stdlib Require Import ZArith List String Ascii Bool Arith Lia Permutation.
Import ListNotations.
Set Warnings "-register-all".
Local Open Scope list_scope.
Local Open Scope string_scope.

(* ================================================================== *)
(** ** Python values, exceptions and [str] methods *)

Module Py.

Inductive exn : Type :=
| ReError                 (* re.error: the pattern does not compile *)
| TypeError
| AttributeError
| KeyError (key : string)
| IndexError
| ValueError
| JSONDecodeError
| ApiError.               (* whatever the model client raises *)

Inductive result (A : Type) : Type :=
| Ok (a : A)
| Raise (e : exn)
| Beyond.
Arguments Ok {A} a.
Arguments Raise {A} e.
Arguments Beyond {A}.

Definition bind {A B : Type} (x : result A) (f : A -> result B) : result B :=
  match x with
  | Ok a => f a
  | Raise e => Raise e
  | Beyond => Beyond
  end.

Definition chr (n : nat) : ascii := ascii_of_nat n.
Definition ord (c : ascii) : nat := nat_of_ascii c.

(** [str.isspace] on one code point below 256; [\s] of [re] is the same
    set on [str] patterns. *)
Definition isspace (c : ascii) : bool :=
  let n := ord c in
  (Nat.leb 9 n && Nat.leb n 13) || (Nat.leb 28 n && Nat.leb n 32)
  || Nat.eqb n 133 || Nat.eqb n 160.

Fixpoint lstrip (s : string) : string :=
  match s with
  | EmptyString => EmptyString
  | String c s' => if isspace c then lstrip s' else s
  end.

Fixpoint rstrip (s : string) : string :=
  match s with
  | EmptyString => EmptyString
  | String c s' =>
      match rstrip s' with
      | EmptyString => if isspace c then EmptyString else String c EmptyString
      | r => String c r
      end
  end.

(** [s.strip()] *)
Definition strip (s : string) : string := rstrip (lstrip s).

(** [s.lower()] on the Latin-1 range. *)
Definition lower_char (c : ascii) : ascii :=
  let n := ord c in
  if (Nat.leb 65 n && Nat.leb n 90)
     || (Nat.leb 192 n && Nat.leb n 222 && negb (Nat.eqb n 215))
  then chr (n + 32) else c.

Fixpoint lower (s : string) : string :=
  match s with
  | EmptyString => EmptyString
  | String c s' => String (lower_char c) (lower s')
  end.

(** [s.startswith(p)], returning what follows the prefix. *)
Fixpoint strip_prefix (p s : string) : option string :=
  match p with
  | EmptyString => Some s
  | String a p' =>
      match s with
      | EmptyString => None
      | String b s' => if Ascii.eqb a b then strip_prefix p' s' else None
      end
  end.

(** [s[:len(s) - len(rest)]] for a suffix [rest] of [s]. *)
Fixpoint upto (s rest : string) : string :=
  if Nat.leb (String.length s) (String.length rest) then EmptyString
  else match s with
       | EmptyString => EmptyString
       | String c s' => String c (upto s' rest)
       end.

End Py.
Export Py.

Declare Scope py_scope.
Delimit Scope py_scope with py.
Notation "x <- e ;; k" := (Py.bind e (fun x => k))
  (at level 61, e at next level, right associativity) : py_scope.
Notation "' p <- e ;; k" := (Py.bind e (fun p => k))
  (at level 61, p pattern, e at next level, right associativity) : py_scope.
Local Open Scope py_scope.

(* ================================================================== *)
(** ** The [re] module: compiling and searching

    The modelled fragment: literals, [.], [\s], escaped metacharacters,
    the quantifiers [*], [+], [?] (greedy and lazy) on one-character atoms,
    capturing groups and alternation.  Every flag is the one the program
    passes: [re.DOTALL]. *)

Module Re.

Inductive cset : Type :=
| CLit (c : ascii)
| CAny                 (* [.] under DOTALL *)
| CSpace.              (* [\s] *)

Inductive quant : Type := QStar | QPlus | QOpt.

Inductive regex : Type :=
| Eps
| One (cs : cset)
| Rep (q : quant) (greedy : bool) (cs : cset)
| Seq (r1 r2 : regex)
| Alt (r1 r2 : regex)
| Group (n : nat) (r : regex).

Inductive kind : Type :=
| KPlain | KDot | KStar | KPlus | KQuest | KOpen | KClose | KBar
| KBackslash | KOther.

(** The special characters of a pattern: [.\[{()*+?^$|]. *)
Definition classify (c : ascii) : kind :=
  if Ascii.eqb c "." then KDot
  else if Ascii.eqb c "*" then KStar
  else if Ascii.eqb c "+" then KPlus
  else if Ascii.eqb c "?" then KQuest
  else if Ascii.eqb c "(" then KOpen
  else if Ascii.eqb c ")" then KClose
  else if Ascii.eqb c "|" then KBar
  else if Ascii.eqb c "\" then KBackslash
  else if Ascii.eqb c "[" then KOther
  else if Ascii.eqb c "{" then KOther
  else if Ascii.eqb c "^" then KOther
  else if Ascii.eqb c "$" then KOther
  else KPlain.

(** The quantifier, if any, that follows a one-character atom. *)
Definition quantified (cs : cset) (s : string) : result (regex * string) :=
  let lazy (q : quant) (rest : string) : result (regex * string) :=
    match rest with
    | String c rest' =>
        match classify c with
        | KQuest => Ok (Rep q false cs, rest')
        | KPlus => Beyond                      (* possessive *)
        | _ => Ok (Rep q true cs, rest)
        end
    | EmptyString => Ok (Rep q true cs, rest)
    end in
  match s with
  | String c rest =>
      match classify c with
      | KStar => lazy QStar rest
      | KPlus => lazy QPlus rest
      | KQuest => lazy QOpt rest
      | KOther => Beyond
      | _ => Ok (One cs, s)
      end
  | EmptyString => Ok (One cs, s)
  end.

(** [parse_alt] reads branches separated by [|]; [parse_seq] reads the
    items of one branch up to [|], [)] or the end.  [g] counts the groups
    opened so far. *)
Fixpoint parse_alt (fuel : nat) (s : string) (g : nat)
  : result (regex * string * nat) :=
  match fuel with
  | O => Beyond
  | S fuel' =>
      '(r1, rest, g1) <- parse_seq fuel' s g ;;
      match rest with
      | String c rest' =>
          match classify c with
          | KBar =>
              '(r2, rest2, g2) <- parse_alt fuel' rest' g1 ;;
              Ok (Alt r1 r2, rest2, g2)
          | _ => Ok (r1, rest, g1)
          end
      | EmptyString => Ok (r1, rest, g1)
      end
  end
with parse_seq (fuel : nat) (s : string) (g : nat)
  : result (regex * string * nat) :=
  match fuel with
  | O => Beyond
  | S fuel' =>
      match s with
      | EmptyString => Ok (Eps, s, g)
      | String c s' =>
          match classify c with
          | KBar | KClose => Ok (Eps, s, g)
          | KStar | KPlus | KQuest => Raise ReError   (* nothing to repeat, multiple repeat *)
          | KOther => Beyond
          | KOpen =>
              match s' with
              | String "?" _ => Beyond
              | _ =>
                  '(r, rest, g1) <- parse_alt fuel' s' (S g) ;;
                  match rest with
                  | String ")" rest' =>
                      match rest' with
                      | String q _ =>
                          match classify q with
                          | KStar | KPlus | KQuest | KOther => Beyond
                          | _ =>
                              '(tl, rest2, g2) <- parse_seq fuel' rest' g1 ;;
                              Ok (Seq (Group (S g) r) tl, rest2, g2)
                          end
                      | EmptyString => Ok (Seq (Group (S g) r) Eps, rest', g1)
                      end
                  | _ => Raise ReError                 (* missing ), unterminated subpattern *)
                  end
              end
          | KBackslash =>
              match s' with
              | EmptyString => Raise ReError           (* bad escape (end of pattern) *)
              | String e s'' =>
                  '(cs) <- (if Ascii.eqb e "s" then Ok CSpace
                            else match classify e with
                                 | KPlain => Beyond
                                 | _ => Ok (CLit e)
                                 end) ;;
                  '(it, rest) <- quantified cs s'' ;;
                  '(tl, rest2, g2) <- parse_seq fuel' rest g ;;
                  Ok (Seq it tl, rest2, g2)
              end
          | KDot =>
              '(it, rest) <- quantified CAny s' ;;
              '(tl, rest2, g2) <- parse_seq fuel' rest g ;;
              Ok (Seq it tl, rest2, g2)
          | KPlain =>
              '(it, rest) <- quantified (CLit c) s' ;;
              '(tl, rest2, g2) <- parse_seq fuel' rest g ;;
              Ok (Seq it tl, rest2, g2)
          end
      end
  end.

(** [re.compile(pattern)] *)
Definition compile (pattern : string) : result regex :=
  '(r, rest, _) <- parse_alt (2 * String.length pattern + 2) pattern 0 ;;
  match rest with
  | EmptyString => Ok r
  | _ => Raise ReError                                 (* unbalanced parenthesis *)
  end.

Definition cset_mem (cs : cset) (c : ascii) : bool :=
  match cs with
  | CLit a => Ascii.eqb a c
  | CAny => true
  | CSpace => isspace c
  end.

(** The spans captured so far, latest first. *)
Definition groups : Type := list (nat * string).

Definition orelse {A : Type} (x y : option A) : option A :=
  match x with
  | Some a => Some a
  | None => y
  end.

(** [cs*] against [s], then the continuation: the longest run first when
    greedy, the shortest first when lazy. *)
Fixpoint star (greedy : bool) (cs : cset) (s : string)
         (k : string -> option groups) : option groups :=
  if greedy then
    match (match s with
           | String c s' => if cset_mem cs c then star greedy cs s' k else None
           | EmptyString => None
           end) with
    | Some m => Some m
    | None => k s
    end
  else
    match k s with
    | Some m => Some m
    | None =>
        match s with
        | String c s' => if cset_mem cs c then star greedy cs s' k else None
        | EmptyString => None
        end
    end.

(** The backtracking matcher, in continuation-passing style. *)
Fixpoint rmatch (r : regex) (s : string) (gs : groups)
         (k : string -> groups -> option groups) : option groups :=
  match r with
  | Eps => k s gs
  | One cs =>
      match s with
      | String c s' => if cset_mem cs c then k s' gs else None
      | EmptyString => None
      end
  | Rep QStar greedy cs => star greedy cs s (fun s' => k s' gs)
  | Rep QPlus greedy cs =>
      match s with
      | String c s' =>
          if cset_mem cs c then star greedy cs s' (fun s'' => k s'' gs) else None
      | EmptyString => None
      end
  | Rep QOpt greedy cs =>
      let one := match s with
                 | String c s' => if cset_mem cs c then k s' gs else None
                 | EmptyString => None
                 end in
      if greedy then orelse one (k s gs) else orelse (k s gs) one
  | Seq r1 r2 => rmatch r1 s gs (fun s' gs' => rmatch r2 s' gs' k)
  | Alt r1 r2 => orelse (rmatch r1 s gs k) (rmatch r2 s gs k)
  | Group n r' => rmatch r' s gs (fun s' gs' => k s' ((n, upto s s') :: gs'))
  end.

(** A match object, as far as the program reads it: its groups. *)
Definition match_at (r : regex) (s : string) : option groups :=
  rmatch r s [] (fun _ gs => Some gs).

(** The leftmost start at which the pattern matches. *)
Fixpoint search_from (r : regex) (s : string) : option groups :=
  match match_at r s with
  | Some m => Some m
  | None =>
      match s with
      | String _ s' => search_from r s'
      | EmptyString => None
      end
  end.

(** [re.search(pattern, string, re.DOTALL)] *)
Definition search (pattern text : string) : result (option groups) :=
  r <- compile pattern ;; Ok (search_from r text).

(** [m.group(n)]: [None] for a group that took no part in the match. *)
Fixpoint group (m : groups) (n : nat) : option string :=
  match m with
  | [] => None
  | (i, s) :: m' => if Nat.eqb i n then Some s else group m' n
  end.

End Re.

(* ================================================================== *)
(** ** app.py: the response extractor *)

(** [extract_x(response, code_type)] *)
Definition extract_x (response code_type : string) : result string :=
  let pattern := "```" ++ code_type ++ "\s*(.*?)```" in
  m <- Re.search pattern response ;;
  match m with
  | Some mt =>
      match Re.group mt 1 with
      | Some g => Ok (strip g)
      | None => Raise AttributeError          (* None has no strip *)
      end
  | None => Ok response
  end.

(* ================================================================== *)
(** ** The [json] module: [json.loads]

    A scanner that turns the text into tokens (white space is allowed
    between tokens and nowhere else) and a parser of the token list.  A
    number keeps its lexeme; a [\u] escape above the Latin-1 range is
    [Beyond]. *)

Module Json.

Inductive value : Type :=
| JNull
| JBool (b : bool)
| JNum (lexeme : string)
| JStr (s : string)
| JArr (items : list value)
| JObj (members : list (string * value)).   (* a dict: keys are unique *)

Inductive token : Type :=
| TLBrace | TRBrace | TLBracket | TRBracket | TColon | TComma
| TStr (s : string)
| TNum (lexeme : string)
| TTrue | TFalse | TNull.

Definition dquote : ascii := chr 34.

(** The white space of JSON: space, tab, line feed, carriage return. *)
Definition is_ws (c : ascii) : bool :=
  let n := ord c in
  Nat.eqb n 32 || Nat.eqb n 9 || Nat.eqb n 10 || Nat.eqb n 13.

Definition is_digit (c : ascii) : bool :=
  let n := ord c in Nat.leb 48 n && Nat.leb n 57.

Fixpoint span (p : ascii -> bool) (s : string) : string * string :=
  match s with
  | EmptyString => (EmptyString, EmptyString)
  | String c s' =>
      if p c then let (a, b) := span p s' in (String c a, b)
      else (EmptyString, s)
  end.

Definition hexval (c : ascii) : option nat :=
  let n := ord c in
  if Nat.leb 48 n && Nat.leb n 57 then Some (n - 48)
  else if Nat.leb 65 n && Nat.leb n 70 then Some (n - 55)
  else if Nat.leb 97 n && Nat.leb n 102 then Some (n - 87)
  else None.

Definition hex4 (a b c d : ascii) : option nat :=
  match hexval a, hexval b, hexval c, hexval d with
  | Some x, Some y, Some z, Some w => Some (((x * 16 + y) * 16 + z) * 16 + w)
  | _, _, _, _ => None
  end.

Definition unescape (e : ascii) : option ascii :=
  if Ascii.eqb e dquote then Some dquote
  else if Ascii.eqb e "\" then Some "\"%char
  else if Ascii.eqb e "/" then Some "/"%char
  else if Ascii.eqb e "b" then Some (chr 8)
  else if Ascii.eqb e "f" then Some (chr 12)
  else if Ascii.eqb e "n" then Some (chr 10)
  else if Ascii.eqb e "r" then Some (chr 13)
  else if Ascii.eqb e "t" then Some (chr 9)
  else None.

(** The raw text of a string literal after its opening quote, up to the
    closing quote; a backslash takes the next character with it. *)
Fixpoint raw_string (s : string) : option (string * string) :=
  match s with
  | EmptyString => None
  | String c s1 =>
      if Ascii.eqb c dquote then Some (EmptyString, s1)
      else if Ascii.eqb c "\" then
        match s1 with
        | EmptyString => None
        | String e s2 =>
            match raw_string s2 with
            | Some (raw, rest) => Some (String c (String e raw), rest)
            | None => None
            end
        end
      else
        match raw_string s1 with
        | Some (raw, rest) => Some (String c raw, rest)
        | None => None
        end
  end.

(** The text a raw literal stands for (strict mode: no raw control
    character). *)
Fixpoint decode (raw : string) : result string :=
  match raw with
  | EmptyString => Ok EmptyString
  | String c r1 =>
      if Ascii.eqb c "\" then
        match r1 with
        | EmptyString => Raise JSONDecodeError
        | String e r2 =>
            if Ascii.eqb e "u" then
              match r2 with
              | String h1 (String h2 (String h3 (String h4 r3))) =>
                  match hex4 h1 h2 h3 h4 with
                  | Some n =>
                      if Nat.ltb n 256 then
                        str <- decode r3 ;; Ok (String (chr n) str)
                      else Beyond
                  | None => Raise JSONDecodeError
                  end
              | _ => Raise JSONDecodeError
              end
            else
              match unescape e with
              | Some d => str <- decode r2 ;; Ok (String d str)
              | None => Raise JSONDecodeError
              end
        end
      else if Nat.ltb (ord c) 32 then Raise JSONDecodeError
      else str <- decode r1 ;; Ok (String c str)
  end.

Definition scan_string (s : string) : result (string * string) :=
  match raw_string s with
  | Some (raw, rest) => str <- decode raw ;; Ok (str, rest)
  | None => Raise JSONDecodeError
  end.

(** The optional fraction and exponent of a number. *)
Definition scan_frac (s : string) : string * string :=
  match s with
  | String c (String d _ as t) =>
      if Ascii.eqb c "." && is_digit d then
        let (ds, rest) := span is_digit t in (String c ds, rest)
      else (EmptyString, s)
  | _ => (EmptyString, s)
  end.

Definition scan_exp (s : string) : string * string :=
  match s with
  | String e t =>
      if Ascii.eqb e "e" || Ascii.eqb e "E" then
        let (sg, t') :=
          match t with
          | String g t1 =>
              if Ascii.eqb g "+" || Ascii.eqb g "-" then (String g EmptyString, t1)
              else (EmptyString, t)
          | EmptyString => (EmptyString, t)
          end in
        match span is_digit t' with
        | (EmptyString, _) => (EmptyString, s)
        | (ds, rest) => (String e (sg ++ ds), rest)
        end
      else (EmptyString, s)
  | EmptyString => (EmptyString, s)
  end.

(** A number without sign at the head of [s]: [0] or a digit run that
    does not start with [0], then an optional fraction and an optional
    exponent; the longest such prefix. *)
Definition scan_unsigned (s : string) : option (string * string) :=
  match s with
  | String d r =>
      if is_digit d then
        let (ds, r1) := if Ascii.eqb d "0" then (EmptyString, r) else span is_digit r in
        let (frac, r2) := scan_frac r1 in
        let (ex, r3) := scan_exp r2 in
        Some (String d ds ++ frac ++ ex, r3)
      else None
  | EmptyString => None
  end.

Definition scan_number (s : string) : option (string * string) :=
  match s with
  | String c r =>
      if Ascii.eqb c "-" then
        match scan_unsigned r with
        | Some (lexeme, rest) => Some (String c lexeme, rest)
        | None => None
        end
      else scan_unsigned s
  | EmptyString => None
  end.

Definition keyword (kw : string) (t : token) (s : string) : result (token * string) :=
  match strip_prefix kw s with
  | Some rest => Ok (t, rest)
  | None => Raise JSONDecodeError
  end.

(** The token at the head of [s]; [s] does not start with white space. *)
Definition scan_token (s : string) : result (token * string) :=
  match s with
  | EmptyString => Raise JSONDecodeError
  | String c s' =>
      if Ascii.eqb c "{" then Ok (TLBrace, s')
      else if Ascii.eqb c "}" then Ok (TRBrace, s')
      else if Ascii.eqb c "[" then Ok (TLBracket, s')
      else if Ascii.eqb c "]" then Ok (TRBracket, s')
      else if Ascii.eqb c ":" then Ok (TColon, s')
      else if Ascii.eqb c "," then Ok (TComma, s')
      else if Ascii.eqb c dquote then
        '(str, rest) <- scan_string s' ;; Ok (TStr str, rest)
      else if Ascii.eqb c "t" then keyword "true" TTrue s
      else if Ascii.eqb c "f" then keyword "false" TFalse s
      else if Ascii.eqb c "n" then keyword "null" TNull s
      else if Ascii.eqb c "N" then keyword "NaN" (TNum "NaN") s
      else if Ascii.eqb c "I" then keyword "Infinity" (TNum "Infinity") s
      else
        match scan_number s with
        | Some (lexeme, rest) => Ok (TNum lexeme, rest)
        | None => keyword "-Infinity" (TNum "-Infinity") s
        end
  end.

Fixpoint lex (fuel : nat) (s : string) : result (list token) :=
  match fuel with
  | O => Beyond
  | S fuel' =>
      match s with
      | EmptyString => Ok []
      | String c s' =>
          if is_ws c then lex fuel' s'
          else
            '(t, rest) <- scan_token s ;;
            ts <- lex fuel' rest ;;
            Ok (t :: ts)
      end
  end.

(** [d[k] = v] on a dict held as a list of members in insertion order. *)
Fixpoint dict_set (k : string) (v : value) (d : list (string * value))
  : list (string * value) :=
  match d with
  | [] => [(k, v)]
  | (k', v') :: d' =>
      if String.eqb k' k then (k, v) :: d' else (k', v') :: dict_set k v d'
  end.

Fixpoint dict_get (k : string) (d : list (string * value)) : option value :=
  match d with
  | [] => None
  | (k', v) :: d' => if String.eqb k' k then Some v else dict_get k d'
  end.

Definition keys (d : list (string * value)) : list string := map fst d.

Fixpoint parse_value (fuel : nat) (ts : list token) : option (value * list token) :=
  match fuel with
  | O => None
  | S fuel' =>
      match ts with
      | TStr s :: r => Some (JStr s, r)
      | TNum x :: r => Some (JNum x, r)
      | TTrue :: r => Some (JBool true, r)
      | TFalse :: r => Some (JBool false, r)
      | TNull :: r => Some (JNull, r)
      | TLBracket :: TRBracket :: r => Some (JArr [], r)
      | TLBracket :: r => parse_items fuel' r []
      | TLBrace :: TRBrace :: r => Some (JObj [], r)
      | TLBrace :: r => parse_members fuel' r []
      | _ => None
      end
  end
with parse_items (fuel : nat) (ts : list token) (acc : list value)
  : option (value * list token) :=
  match fuel with
  | O => None
  | S fuel' =>
      match parse_value fuel' ts with
      | Some (v, TComma :: r) => parse_items fuel' r (acc ++ [v])%list
      | Some (v, TRBracket :: r) => Some (JArr (acc ++ [v])%list, r)
      | _ => None
      end
  end
with parse_members (fuel : nat) (ts : list token) (d : list (string * value))
  : option (value * list token) :=
  match fuel with
  | O => None
  | S fuel' =>
      match ts with
      | TStr k :: TColon :: r =>
          match parse_value fuel' r with
          | Some (v, TComma :: r') => parse_members fuel' r' (dict_set k v d)
          | Some (v, TRBrace :: r') => Some (JObj (dict_set k v d), r')
          | _ => None
          end
      | _ => None
      end
  end.

(** [json.loads(s)] *)
Definition loads (s : string) : result value :=
  ts <- lex (S (String.length s)) s ;;
  match parse_value (S (List.length ts)) ts with
  | Some (v, []) => Ok v
  | _ => Raise JSONDecodeError
  end.

(** [job[key]] for a string key. *)
Definition getitem (job : value) (key : string) : result value :=
  match job with
  | JObj d =>
      match dict_get key d with
      | Some v => Ok v
      | None => Raise (KeyError key)
      end
  | _ => Raise TypeError
  end.

(** [job.get(key, default)] *)
Definition get (job : value) (key : string) (default : value) : result value :=
  match job with
  | JObj d =>
      match dict_get key d with
      | Some v => Ok v
      | None => Ok default
      end
  | _ => Raise AttributeError
  end.

End Json.
Export Json.

(** [json.loads(extract_x(text, "json"))]: the extractor, then the parser. *)
Definition parse_plan (text : string) : result value :=
  json_str <- extract_x text "json" ;;
  Json.loads json_str.

(* ================================================================== *)
(** ** [str.format] with auto-numbered [{}] fields *)

Module Fmt.

(** [template.format( *args )]: [{{] and [}}] are escapes, [{}] takes the
    next argument; named, numbered or formatted fields are [Beyond]. *)
Fixpoint format (template : string) (args : list string) : result string :=
  match template with
  | EmptyString => Ok EmptyString
  | String c t =>
      if Ascii.eqb c "{" then
        match t with
        | String d t' =>
            if Ascii.eqb d "{" then r <- format t' args ;; Ok (String "{" r)
            else if Ascii.eqb d "}" then
              match args with
              | a :: args' => r <- format t' args' ;; Ok (a ++ r)
              | [] => Raise IndexError
              end
            else Beyond
        | EmptyString => Raise ValueError
        end
      else if Ascii.eqb c "}" then
        match t with
        | String d t' =>
            if Ascii.eqb d "}" then r <- format t' args ;; Ok (String "}" r)
            else Raise ValueError
        | EmptyString => Raise ValueError
        end
      else r <- format t args ;; Ok (String c r)
  end.

End Fmt.

(* ================================================================== *)
(** ** [pathlib]: the parts of a file name the program reads *)

Module Path.

(** [name.rfind('.')] *)
Fixpoint rfind_dot (name : string) : option nat :=
  match name with
  | EmptyString => None
  | String c name' =>
      match rfind_dot name' with
      | Some i => Some (S i)
      | None => if Ascii.eqb c "." then Some O else None
      end
  end.

Definition splits (name : string) : option nat :=
  match rfind_dot name with
  | Some i =>
      if Nat.ltb 0 i && Nat.ltb i (String.length name - 1) then Some i else None
  | None => None
  end.

(** [path.suffix] *)
Definition suffix (name : string) : string :=
  match splits name with
  | Some i => substring i (String.length name - i) name
  | None => EmptyString
  end.

(** [path.stem] *)
Definition stem (name : string) : string :=
  match splits name with
  | Some i => substring 0 i name
  | None => name
  end.

End Path.

Definition nl : string := String (chr 10) EmptyString.

(* ================================================================== *)
(** ** app.py: the model client adapter, the orchestrator, the batch runner *)

Definition bytes : Type := string.

(** A decoded bitmap; the program only passes it around. *)
Definition image : Type := string.

(** An attribute of an SDK object: absent ([hasattr] is false), or present
    with a value that may be [None]. *)
Inductive attr (A : Type) : Type :=
| NoAttr
| Attr (v : option A).
Arguments NoAttr {A}.
Arguments Attr {A} v.

Record usage_counts : Type := {
  prompt_token_count : attr Z;
  candidates_token_count : attr Z
}.

Record blob : Type := { data : option bytes }.
Record part : Type := { inline_data : option blob }.

(** The response object, as far as the program reads it. *)
Record response : Type := {
  usage_metadata : attr usage_counts;
  usage_field : attr usage_counts;          (* response.usage *)
  text : option string;                     (* response.text *)
  parts : result (list part)                (* response.candidates[0].content.parts *)
}.

(** The usage dict: [{"input_tokens": ..., "output_tokens": ...}]. *)
Record usage : Type := {
  input_tokens : Z;
  output_tokens : Z
}.

Record api_call : Type := {
  model : string;
  prompt : string;
  attachments : list image;
  image_mode : bool                         (* the IMAGE modality with aspect ratio 4:5 *)
}.

Inductive line : Type :=
| Processing (name : string)
| CorruptImage (path : string)
| Saved (path : string)
| Statistics (count : nat) (total_input total_output : Z)
| AllDone.

(** What the program acts on: the calls sent to the model, the files
    written, the lines printed. *)
Record world : Type := {
  calls : list api_call;
  files : list (string * bytes);
  stdout : list line
}.

Definition empty_world : world := {| calls := []; files := []; stdout := [] |}.

(** What the program is given: the model behind the client (the answer to
    the n-th call), the image decoder, the directory listing, [str] on a
    value that is not a [str]. *)
Record env : Type := {
  generate_content : nat -> api_call -> result response;
  image_open : bytes -> result image;
  load : string -> option image;
  iterdir : list string;
  py_str : value -> string
}.

Definition M (A : Type) : Type := world -> result A * world.

Definition ret {A : Type} (a : A) : M A := fun w => (Ok a, w).

Definition lift {A : Type} (r : result A) : M A := fun w => (r, w).

Definition mbind {A B : Type} (m : M A) (f : A -> M B) : M B :=
  fun w =>
    match m w with
    | (Ok a, w') => f a w'
    | (Raise e, w') => (Raise e, w')
    | (Beyond, w') => (Beyond, w')
    end.

Notation "x <~ e ;; k" := (mbind e (fun x => k))
  (at level 61, e at next level, right associativity) : py_scope.
Notation "' p <~ e ;; k" := (mbind e (fun p => k))
  (at level 61, p pattern, e at next level, right associativity) : py_scope.

Definition print (l : line) : M unit :=
  fun w => (Ok tt, {| calls := calls w; files := files w; stdout := stdout w ++ [l] |}).

Definition call (E : env) (c : api_call) : M response :=
  fun w => (generate_content E (List.length (calls w)) c,
            {| calls := calls w ++ [c]; files := files w; stdout := stdout w |}).

Fixpoint set_file (path : string) (content : bytes) (fs : list (string * bytes))
  : list (string * bytes) :=
  match fs with
  | [] => [(path, content)]
  | (p, c) :: fs' =>
      if String.eqb p path then (path, content) :: fs' else (p, c) :: set_file path content fs'
  end.

(** [open(path, "wb")]: the file exists and is empty from then on. *)
Definition open_wb (path : string) : M unit :=
  fun w => (Ok tt, {| calls := calls w; files := set_file path EmptyString (files w);
                      stdout := stdout w |}).

(** [f.write(b)] on the file just opened. *)
Definition write (path : string) (b : option bytes) : M unit :=
  fun w =>
    match b with
    | Some content =>
        (Ok tt, {| calls := calls w; files := set_file path content (files w);
                   stdout := stdout w |})
    | None => (Raise TypeError, w)
    end.

Fixpoint mapM {A B : Type} (f : A -> M B) (l : list A) : M (list B) :=
  match l with
  | [] => ret []
  | a :: l' => b <~ f a ;; bs <~ mapM f l' ;; ret (b :: bs)
  end.

(** [load_safe_image(path)] *)
Definition load_safe_image (E : env) (path : string) : M image :=
  match load E path with
  | Some img => ret img
  | None => _ <~ print (CorruptImage path) ;; lift (Raise ValueError)
  end.

(** [getattr(obj, name, 0) or 0] *)
Definition count_or_zero (obj : option usage_counts) (field : usage_counts -> attr Z) : Z :=
  match obj with
  | None => 0%Z
  | Some u =>
      match field u with
      | NoAttr => 0%Z
      | Attr None => 0%Z
      | Attr (Some n) => n
      end
  end.

(** The usage dict both adapter operations build from the response. *)
Definition usage_of (r : response) : usage :=
  match usage_metadata r with
  | Attr um =>
      {| input_tokens := count_or_zero um prompt_token_count;
         output_tokens := count_or_zero um candidates_token_count |}
  | NoAttr =>
      match usage_field r with
      | Attr u =>
          {| input_tokens := count_or_zero u prompt_token_count;
             output_tokens := count_or_zero u candidates_token_count |}
      | NoAttr => {| input_tokens := 0; output_tokens := 0 |}
      end
  end.

(** An element of the [images] argument: raw bytes or a decoded image. *)
Inductive image_arg : Type :=
| Raw (b : bytes)
| Pil (img : image).

Definition to_pil (E : env) (a : image_arg) : M image :=
  match a with
  | Raw b => lift (image_open E b)
  | Pil img => ret img
  end.

(** [gemini_response(prompt, images, model)] *)
Definition gemini_response (E : env) (prompt : string) (images : list image_arg)
           (model : string) : M (option string * usage) :=
  pil_images <~ mapM (to_pil E) images ;;
  r <~ call E {| model := model; prompt := prompt; attachments := pil_images;
                 image_mode := false |} ;;
  ret (text r, usage_of r).

(** The loop over the parts: the data of the first part that has
    [inline_data], [None] when there is none. *)
Fixpoint first_inline (ps : list part) : option bytes :=
  match ps with
  | [] => None
  | p :: ps' =>
      match inline_data p with
      | Some b => data b
      | None => first_inline ps'
      end
  end.

(** [gemini_image_response(prompt, images, model)] *)
Definition gemini_image_response (E : env) (prompt : string) (images : list image_arg)
           (model : string) : M (option bytes * usage) :=
  pil_images <~ mapM (to_pil E) images ;;
  r <~ call E {| model := model; prompt := prompt; attachments := pil_images;
                 image_mode := true |} ;;
  let u := usage_of r in
  ps <~ lift (parts r) ;;
  ret (first_inline ps, u).

(** The three replacement fields that end [job_unified]. *)
Definition unified_slots : string :=
  "[CAMPAIGN DATA]:" ++ nl ++ "{}" ++ nl ++ nl ++
  "[GUIDELINES]:" ++ nl ++ "{}" ++ nl ++ nl ++
  "[EDIT INSTRUCTIONS]:" ++ nl ++ "{}" ++ nl.

(** The value of a plan field as [format] renders it. *)
Definition to_str (E : env) (v : value) : string :=
  match v with
  | JStr s => s
  | _ => py_str E v
  end.

Definition text_model : string := "gemini-3-pro-preview".
Definition image_model : string := "gemini-3-pro-image-preview".

Section Pipeline.

(** The prompt templates: [job_json_planner] as a whole, and the
    instruction text of [job_unified] that precedes its three fields. *)
Variable job_json_planner : string.
Variable unified_instructions : string.

Definition job_unified : string := unified_instructions ++ unified_slots.

Variable E : env.

(** [flow(ad_reference_image, brand_info, brand_logo, product_image)] *)
Definition flow (ad_reference_image : image) (brand_info : string)
           (brand_logo product_image : image) : M (option bytes * usage) :=
  let total_input_tokens := 0%Z in
  let total_output_tokens := 0%Z in
  let images := [Pil ad_reference_image; Pil brand_logo; Pil product_image] in
  planner_prompt <~ lift (Fmt.format job_json_planner [brand_info]) ;;
  '(output_0, usage_0) <~ gemini_response E planner_prompt images text_model ;;
  let total_input_tokens := (total_input_tokens + input_tokens usage_0)%Z in
  let total_output_tokens := (total_output_tokens + output_tokens usage_0)%Z in
  job <~ lift (match output_0 with
               | Some t => parse_plan t
               | None => Raise TypeError             (* re.search on None *)
               end) ;;
  text_swap <~ lift (getitem job "text_swap") ;;
  product_swap <~ lift (getitem job "product_swap") ;;
  edits <~ lift (getitem job "edits") ;;
  render_prompt <~ lift (Fmt.format job_unified
                           [to_str E text_swap; to_str E product_swap; to_str E edits]) ;;
  '(output, usage_1) <~ gemini_image_response E render_prompt images image_model ;;
  let total_input_tokens := (total_input_tokens + input_tokens usage_1)%Z in
  let total_output_tokens := (total_output_tokens + output_tokens usage_1)%Z in
  ret (output, {| input_tokens := total_input_tokens;
                  output_tokens := total_output_tokens |}).

(** [process_single_image], once past the admission gate. *)
Definition process_single_image (ref_image_name : string) (brand_info : string)
           (brand_logo product_image : image) (output_dir : string) : M usage :=
  _ <~ print (Processing ref_image_name) ;;
  ad_reference_image <~ load_safe_image E ("references/" ++ ref_image_name) ;;
  '(output_image_bytes, u) <~ flow ad_reference_image brand_info brand_logo product_image ;;
  let output_filename := Path.stem ref_image_name ++ "_new_1_gen.png" in
  let output_path := output_dir ++ "/" ++ output_filename in
  _ <~ open_wb output_path ;;
  _ <~ write output_path output_image_bytes ;;
  _ <~ print (Saved output_path) ;;
  ret u.

Definition image_extensions : list string :=
  [".jpg"; ".jpeg"; ".png"; ".bmp"; ".gif"; ".webp"].

Definition is_reference_image (name : string) : bool :=
  existsb (String.eqb (lower (Path.suffix name))) image_extensions.

(** [sum(u.get(key, 0) for u in usage_results)] *)
Definition total (field : usage -> Z) (usage_results : list usage) : Z :=
  fold_left (fun acc u => (acc + field u)%Z) usage_results 0%Z.

Variable brand_info : string.

(** [main()].  [Path("./data/logo.png")] reads and prints as
    data/logo.png.  The tasks are taken to completion one after the other,
    in the order [gather] lists them; the first failure is the one raised.
    [Aio] below has them under the event loop. *)
Definition main : M unit :=
  brand_logo <~ load_safe_image E "data/logo.png" ;;
  product_image <~ load_safe_image E "data/image.png" ;;
  let output_dir := "output_new_1" in
  let ref_image_paths := filter is_reference_image (iterdir E) in
  usage_results <~ mapM (fun ref_image_path =>
                           process_single_image ref_image_path brand_info
                             brand_logo product_image output_dir)
                        (skipn 3 ref_image_paths) ;;
  _ <~ match usage_results with
       | [] => ret tt
       | _ => print (Statistics (List.length usage_results)
                       (total input_tokens usage_results)
                       (total output_tokens usage_results))
       end ;;
  print AllDone.

End Pipeline.

(* ================================================================== *)
(** ** streamlit_app.py: the interactive variant *)

Module Streamlit.

(** [st.session_state]; [JNull] is Python's [None]. *)
Record session : Type := {
  job_json : value;
  generated_image : option bytes;
  usage_stats : option usage
}.

Definition initial : session :=
  {| job_json := JNull; generated_image := None; usage_stats := None |}.

(** [st.text_area(label, value=...)]: what the operator typed into the
    widget, or else its initial value (cast to [str] unless [None]). *)
Definition text_area (E : env) (typed : string -> option string)
           (label : string) (v : value) : value :=
  match typed label with
  | Some s => JStr s
  | None =>
      match v with
      | JNull => JNull
      | _ => JStr (to_str E v)
      end
  end.

(** Step 1, the body of the [try] under the button "Generate JSON Plan",
    from the model's answer on. *)
Definition store_plan (response_text : option string) (u : usage) (s : session)
  : result session :=
  match (match response_text with
         | Some t => parse_plan t
         | None => Raise TypeError
         end) with
  | Ok job => Ok {| job_json := job; generated_image := generated_image s;
                    usage_stats := Some u |}
  | Raise _ => Ok s                                  (* st.error, st.exception *)
  | Beyond => Beyond
  end.

(** Step 2, "Edit JSON Plan": the block under
    [if st.session_state.job_json is not None]. *)
Definition edit_plan (E : env) (typed : string -> option string) (s : session)
  : result session :=
  match job_json s with
  | JNull => Ok s
  | job =>
      v1 <- Json.get job "text_swap" (JStr EmptyString) ;;
      let text_swap := text_area E typed "Text Swap Instructions" v1 in
      v2 <- Json.get job "product_swap" (JStr EmptyString) ;;
      let product_swap := text_area E typed "Product Swap Instructions" v2 in
      v3 <- Json.get job "edits" (JStr EmptyString) ;;
      let edits := text_area E typed "Edit Instructions" v3 in
      Ok {| job_json := JObj [("text_swap", text_swap);
                              ("product_swap", product_swap);
                              ("edits", edits)];
            generated_image := generated_image s;
            usage_stats := usage_stats s |}
  end.

(** The script runs again on every interaction; each run passes through
    step 2 with what the widgets hold then. *)
Fixpoint reruns (E : env) (typed : list (string -> option string)) (s : session)
  : result session :=
  match typed with
  | [] => Ok s
  | t :: typed' => s' <- edit_plan E t s ;; reruns E typed' s'
  end.

(** Step 3, "Generate Ad Image": the prompt sent to the image model. *)
Definition render_prompt (E : env) (unified_instructions campaign_info : string)
           (s : session) : result string :=
  let current_job := job_json s in
  product_swap <- getitem current_job "product_swap" ;;
  edits <- getitem current_job "edits" ;;
  Fmt.format (job_unified unified_instructions)
             [campaign_info; to_str E product_swap; to_str E edits].

End Streamlit.

(* ================================================================== *)
(** ** streamlit_app.py: the two button handlers and the display *)

Module Handlers.

(** What the page shows after a click. *)
Inductive notice : Type :=
| NeedUploads              (* "Please upload both Ad Reference Image and Product Image" *)
| NeedCampaign             (* "Please enter campaign information" *)
| PlanReady                (* "JSON plan generated successfully!" *)
| PlanFailed (e : exn)     (* "Error generating JSON: ..." *)
| ImageReady               (* "Ad image generated successfully!" *)
| ImageFailed (e : exn).   (* "Error generating image: ..." *)

(** [upload_to_pil(uploaded_file)] *)
Definition upload_to_pil (E : env) (uploaded_file : option bytes) : result (option image) :=
  match uploaded_file with
  | None => Ok None
  | Some b => img <- image_open E b ;; Ok (Some img)
  end.

(** The uploads decoded, in the order the handlers decode them, and the
    list they build: reference, logo when there is one, product. *)
Definition images_list (E : env) (ad product : bytes) (logo_image : option bytes)
  : result (list image_arg) :=
  ad_ref_pil <- image_open E ad ;;
  product_pil <- image_open E product ;;
  logo_pil <- upload_to_pil E logo_image ;;
  Ok ([Pil ad_ref_pil]
        ++ match logo_pil with
           | Some l => [Pil l]
           | None => []
           end
        ++ [Pil product_pil])%list.

(** [try: body except Exception as e: st.error(...)] *)
Definition guarded (s : Streamlit.session) (done : notice) (failed : exn -> notice)
           (body : M Streamlit.session) : M (Streamlit.session * notice) :=
  fun w =>
    match body w with
    | (Ok s', w') => (Ok (s', done), w')
    | (Raise e, w') => (Ok (s, failed e), w')
    | (Beyond, w') => (Beyond, w')
    end.

(** The click on "Generate JSON Plan". *)
Definition generate_plan_clicked (E : env) (job_json_planner : string)
           (ad_reference product_image logo_image : option bytes)
           (campaign_info : string) (s : Streamlit.session)
  : M (Streamlit.session * notice) :=
  match ad_reference, product_image with
  | Some ad, Some product =>
      if String.eqb (strip campaign_info) EmptyString then ret (s, NeedCampaign)
      else
        guarded s PlanReady PlanFailed
          (images <~ lift (images_list E ad product logo_image) ;;
           prompt <~ lift (Fmt.format job_json_planner [campaign_info]) ;;
           '(response_text, u) <~ gemini_response E prompt images text_model ;;
           job_json <~ lift (match response_text with
                             | Some t => parse_plan t
                             | None => Raise TypeError
                             end) ;;
           ret {| Streamlit.job_json := job_json;
                  Streamlit.generated_image := Streamlit.generated_image s;
                  Streamlit.usage_stats := Some u |})
  | _, _ => ret (s, NeedUploads)
  end.

(** The click on "Generate Ad Image"; the button is on the page only when
    a plan is stored. *)
Definition generate_image_clicked (E : env) (unified_instructions : string)
           (ad_reference product_image logo_image : option bytes)
           (campaign_info : string) (s : Streamlit.session)
  : M (Streamlit.session * notice) :=
  match ad_reference, product_image with
  | Some ad, Some product =>
      guarded s ImageReady ImageFailed
        (images <~ lift (images_list E ad product logo_image) ;;
         prompt <~ lift (Streamlit.render_prompt E unified_instructions campaign_info s) ;;
         '(image_bytes, u) <~ gemini_image_response E prompt images image_model ;;
         ret {| Streamlit.job_json := Streamlit.job_json s;
                Streamlit.generated_image := image_bytes;
                Streamlit.usage_stats := Some u |})
  | _, _ => ret (s, NeedUploads)
  end.

(** [if st.session_state.generated_image:] the image and the download
    button are shown; otherwise the hint to generate one. *)
Definition shows_image (s : Streamlit.session) : bool :=
  match Streamlit.generated_image s with
  | Some b => negb (String.eqb b EmptyString)
  | None => false
  end.

End Handlers.

(* ================================================================== *)
(** ** Vocabulary of the statements *)

Module Spec.

(** A tag none of whose characters is special in a pattern. *)
Fixpoint plain (tag : string) : bool :=
  match tag with
  | EmptyString => true
  | String c tag' =>
      match Re.classify c with
      | Re.KPlain => plain tag'
      | _ => false
      end
  end.

(** The text before the first closing fence. *)
Fixpoint until_fence (s : string) : option string :=
  match strip_prefix "```" s with
  | Some _ => Some EmptyString
  | None =>
      match s with
      | EmptyString => None
      | String c s' =>
          match until_fence s' with
          | Some b => Some (String c b)
          | None => None
          end
      end
  end.

(** What [extract_x] takes for a block at the head of [s]: three
    backticks, the characters of the tag (whatever follows them: the tag
    need not be the whole of what the fence is tagged with), white space,
    then the content up to the next three backticks. *)
Definition block_at (tag s : string) : option string :=
  match strip_prefix ("```" ++ tag) s with
  | Some s' => until_fence (lstrip s')
  | None => None
  end.

(** The content of the first such block of [s]: the one that starts
    earliest. *)
Fixpoint first_block (tag s : string) : option string :=
  match block_at tag s with
  | Some b => Some b
  | None =>
      match s with
      | EmptyString => None
      | String _ s' => first_block tag s'
      end
  end.

(** Field-wise sum of two usage records. *)
Definition usage_add (a b : usage) : usage :=
  {| input_tokens := input_tokens a + input_tokens b;
     output_tokens := output_tokens a + output_tokens b |}.

Definition usage_zero : usage := {| input_tokens := 0; output_tokens := 0 |}.

(** A count that is present is not negative. *)
Definition count_ok (a : attr Z) : Prop :=
  match a with
  | Attr (Some n) => (0 <= n)%Z
  | _ => True
  end.

Definition counts_ok (a : attr usage_counts) : Prop :=
  match a with
  | Attr (Some u) => count_ok (prompt_token_count u) /\ count_ok (candidates_token_count u)
  | _ => True
  end.

Definition response_counts_ok (r : response) : Prop :=
  counts_ok (usage_metadata r) /\ counts_ok (usage_field r).

Fixpoint last_char (s : string) : option ascii :=
  match s with
  | EmptyString => None
  | String c s' =>
      match last_char s' with
      | Some d => Some d
      | None => Some c
      end
  end.

Definition ends_with_tick (s : string) : bool :=
  match last_char s with
  | Some c => Ascii.eqb c "`"
  | None => false
  end.

(** A text of white space only. *)
Fixpoint blank (s : string) : bool :=
  match s with
  | EmptyString => true
  | String c s' => isspace c && blank s'
  end.

(** Text without braces goes through [format] unchanged. *)
Fixpoint brace_free (s : string) : bool :=
  match s with
  | EmptyString => true
  | String c s' => negb (Ascii.eqb c "{") && negb (Ascii.eqb c "}") && brace_free s'
  end.

(** The three fields that end [job_unified], filled in. *)
Definition filled_slots (x y z : string) : string :=
  "[CAMPAIGN DATA]:" ++ nl ++ x ++ nl ++ nl ++
  "[GUIDELINES]:" ++ nl ++ y ++ nl ++ nl ++
  "[EDIT INSTRUCTIONS]:" ++ nl ++ z ++ nl.

(** The unified template with its three fields filled in. *)
Definition unified_prompt (unified_instructions x y z : string) : string :=
  unified_instructions ++ filled_slots x y z.

Definition three_keys : list string := ["text_swap"; "product_swap"; "edits"].

Definition has_plan_shape (s : Streamlit.session) : Prop :=
  exists d, Streamlit.job_json s = JObj d /\ keys d = three_keys.

End Spec.
Import Spec.

(* ================================================================== *)
(** ** Vocabulary of the proofs *)

(** The pattern that reads the characters of [p] one by one, then [k]. *)
Fixpoint lits (p : string) (k : Re.regex) : Re.regex :=
  match p with
  | EmptyString => k
  | String c p' => Re.Seq (Re.One (Re.CLit c)) (lits p' k)
  end.

(** What [extract_x] appends to the tag: white space, the captured content,
    the closing fence. *)
Definition tail_regex : Re.regex :=
  Re.Seq (Re.Rep Re.QStar true Re.CSpace)
    (Re.Seq (Re.Group 1 (Re.Seq (Re.Rep Re.QStar false Re.CAny) Re.Eps))
       (lits "```" Re.Eps)).

(** The compiled pattern of [extract_x] for a tag of ordinary characters. *)
Definition fence_regex (tag : string) : Re.regex := lits ("```" ++ tag) tail_regex.

(** Case analysis over the 256 characters. *)
Ltac each_char c := destruct c as [[|] [|] [|] [|] [|] [|] [|] [|]].

(** A character no token can contain outside a string literal and none can
    start with: white space of [str.strip], or a backtick. *)
Definition inert_char (c : ascii) : bool := isspace c || Ascii.eqb c "`".

(** A text of such characters only. *)
Fixpoint inert (w : string) : bool :=
  match w with
  | EmptyString => true
  | String c w' => inert_char c && inert w'
  end.

(** The result of a scanner run on [u], seen from [u ++ w]. *)
Definition with_rest {A : Type} (w : string) (x : option (A * string)) : option (A * string) :=
  match x with
  | Some (a, r) => Some (a, r ++ w)
  | None => None
  end.

Definition pair_rest (w : string) (p : string * string) : string * string :=
  (fst p, snd p ++ w).

(** A keyword without any such character. *)
Fixpoint solid (kw : string) : bool :=
  match kw with
  | EmptyString => true
  | String c kw' => negb (inert_char c) && solid kw'
  end.

Definition token_rest (w : string) (x : result (token * string)) : result (token * string) :=
  match x with
  | Ok (t, r) => Ok (t, r ++ w)
  | Raise e => Raise e
  | Beyond => Beyond
  end.

(** The call [flow] makes in its plan stage, and the one of its render
    stage. *)
Definition planner_call (prompt : string) (ad logo product : image) : api_call :=
  {| model := text_model; prompt := prompt; attachments := [ad; logo; product];
     image_mode := false |}.

Definition render_call (prompt : string) (ad logo product : image) : api_call :=
  {| model := image_model; prompt := prompt; attachments := [ad; logo; product];
     image_mode := true |}.

(** The world once the call [c] has been sent. *)
Definition log_call (c : api_call) (w : world) : world :=
  {| calls := calls w ++ [c]; files := files w; stdout := stdout w |}.

(* ================================================================== *)
(** ** Sample inputs *)

Definition q : string := String dquote EmptyString.

(** A three-key plan as JSON text. *)
Definition plan_text (x y z : string) : string :=
  "{" ++ q ++ "text_swap" ++ q ++ ":" ++ q ++ x ++ q ++ ","
      ++ q ++ "product_swap" ++ q ++ ":" ++ q ++ y ++ q ++ ","
      ++ q ++ "edits" ++ q ++ ":" ++ q ++ z ++ q ++ "}".

(** The plan as [json.loads] returns it. *)
Definition plan (x y z : value) : value :=
  JObj [("text_swap", x); ("product_swap", y); ("edits", z)].

(** A plan whose first value holds a fenced block. *)
Definition fenced_value_text : string := plan_text "```json X```" "Y" "Z".

(** The planner's answer: a fenced three-key plan, 10 and 5 tokens. *)
Definition sample_plan_response : response :=
  {| usage_metadata :=
       Attr (Some {| prompt_token_count := Attr (Some 10%Z);
                     candidates_token_count := Attr (Some 5%Z) |});
     usage_field := NoAttr;
     text := Some ("```json" ++ nl ++ plan_text "X" "Y" "Z" ++ nl ++ "```");
     parts := Ok [] |}.

(** The image model's answer: a text part, then an inline image. *)
Definition sample_image_response : response :=
  {| usage_metadata :=
       Attr (Some {| prompt_token_count := Attr (Some 3%Z);
                     candidates_token_count := Attr (Some 7%Z) |});
     usage_field := NoAttr;
     text := None;
     parts := Ok [ {| inline_data := None |};
                   {| inline_data := Some {| data := Some "PNG" |} |} ] |}.

(** A response of the image call that carries no inline image. *)
Definition no_image_response : response :=
  {| usage_metadata :=
       Attr (Some {| prompt_token_count := Attr (Some 3%Z);
                     candidates_token_count := Attr (Some 7%Z) |});
     usage_field := NoAttr;
     text := Some "I cannot draw this.";
     parts := Ok [ {| inline_data := None |} ] |}.

(** A model that gives the same two answers to every run; every image
    loads. *)
Definition sample_env (plan_answer image_answer : response) (listing : list string) : env :=
  {| generate_content := fun _ c => if image_mode c then Ok image_answer else Ok plan_answer;
     image_open := fun b => Ok b;
     load := fun path => Some path;
     iterdir := listing;
     py_str := fun _ => "" |}.

Definition five_references : list string := ["a.png"; "b.png"; "c.png"; "d.png"; "e.png"].

Definition good_env : env := sample_env sample_plan_response sample_image_response five_references.

(** A planner's answer that is no JSON. *)
Definition bad_plan_response : response :=
  {| usage_metadata := NoAttr; usage_field := NoAttr;
     text := Some "Sorry, no plan today.";
     parts := Ok [] |}.

Definition no_image_env : env := sample_env sample_plan_response no_image_response [].

(** A session that holds a plan. *)
Definition stored_plan (x y z : string) : Streamlit.session :=
  {| Streamlit.job_json := plan (JStr x) (JStr y) (JStr z);
     Streamlit.generated_image := None;
     Streamlit.usage_stats := None |}.

(** A session whose plan lacks two of the keys and has one of its own. *)
Definition partial_plan_session : Streamlit.session :=
  {| Streamlit.job_json := JObj [("edits", JStr "warmer"); ("note", JNum "1")];
     Streamlit.generated_image := None;
     Streamlit.usage_stats := None |}.

(* ================================================================== *)
(* ================================================================== *)
(** ** Vocabulary of the further statements *)

(** The file a run writes for a reference image. *)
Definition output_path (output_dir ref_image_name : string) : string :=
  output_dir ++ "/" ++ Path.stem ref_image_name ++ "_new_1_gen.png".

(** The reference images [main] runs the pipeline for. *)
Definition processed (E : env) : list string :=
  skipn 3 (filter is_reference_image (iterdir E)).

(** The exception the key accesses of [flow] raise on a parsed plan, if
    any: a value that is no object cannot be indexed by a key; an object is
    asked for text_swap, product_swap and edits in this order. *)
Definition plan_error (job : value) : option exn :=
  match job with
  | JObj d =>
      match dict_get "text_swap" d with
      | None => Some (KeyError "text_swap")
      | Some _ =>
          match dict_get "product_swap" d with
          | None => Some (KeyError "product_swap")
          | Some _ =>
              match dict_get "edits" d with
              | None => Some (KeyError "edits")
              | Some _ => None
              end
          end
      end
  | _ => Some TypeError
  end.

(** The sample object of the planner templates, between its braces. *)
Definition planner_keys : string :=
  q ++ "text_swap" ++ q ++ ": " ++ q ++ "<string>" ++ q ++ "," ++ nl ++
  q ++ "product_swap" ++ q ++ ": " ++ q ++ "<string>" ++ q ++ "," ++ nl ++
  q ++ "edits" ++ q ++ ": " ++ q ++ "<string>" ++ q ++ nl.

(** The shape of [job_json_planner] and of [job_json_planner_prop_swap]:
    the instruction text, the sample object in a fenced block with its
    braces doubled, the guidelines, the campaign field. *)
Definition planner_template (head guidelines : string) : string :=
  head ++ "```json" ++ nl ++ "{{" ++ nl ++ planner_keys ++ "}}" ++ nl ++ "```" ++ nl ++
  guidelines ++ "[CAMPAIGN DATA]:" ++ nl ++ "{}" ++ nl.

(** No widget has been typed into. *)
Definition untouched : string -> option string := fun _ => None.

(** An uploaded reference, product and logo, and a decoder that fails on
    the empty upload. *)
Definition picky_env : env :=
  {| generate_content := fun _ c => if image_mode c then Ok sample_image_response
                                    else Ok sample_plan_response;
     image_open := fun b => if String.eqb b EmptyString then Raise ValueError else Ok b;
     load := fun path => if String.eqb path "references/broken.png" then None else Some path;
     iterdir := ["a.png"; "b.png"; "c.png"; "broken.png"];
     py_str := fun _ => EmptyString |}.

(** A model whose answers fail. *)
Definition failing_env (first_answer second_answer : result response) : env :=
  {| generate_content := fun n _ => match n with O => first_answer | _ => second_answer end;
     image_open := fun b => Ok b;
     load := fun path => Some path;
     iterdir := [];
     py_str := fun _ => EmptyString |}.

(** The calls a world has seen beyond those of an earlier one. *)
Definition sent (w w' : world) (cs : list api_call) : Prop :=
  calls w' = (calls w ++ cs)%list /\ files w' = files w /\ stdout w' = stdout w.

(** A planner's answer that is JSON, but no object. *)
Definition array_plan_response : response :=
  {| usage_metadata := NoAttr; usage_field := NoAttr;
     text := Some "[1, 2]"; parts := Ok [] |}.

(** The world once the line [l] is printed. *)
Definition say (l : line) (w : world) : world :=
  {| calls := calls w; files := files w; stdout := (stdout w ++ [l])%list |}.

(** The world once the file at [path] holds [content]. *)
Definition store (path : string) (content : bytes) (w : world) : world :=
  {| calls := calls w; files := set_file path content (files w); stdout := stdout w |}.

(** What a file holds, if it exists. *)
Fixpoint file_content (path : string) (fs : list (string * bytes)) : option bytes :=
  match fs with
  | [] => None
  | (p, c) :: fs' => if String.eqb p path then Some c else file_content path fs'
  end.


(** An element of [images] that needs no decoding, or decodes. *)
Definition decodes (E : env) (a : image_arg) : Prop :=
  match a with
  | Raw b => exists img, image_open E b = Ok img
  | Pil _ => True
  end.

(** A part of the response that carries no inline data. *)
Definition textual (p : part) : Prop := inline_data p = None.

(** An answer whose first inline part is empty and whose second holds an
    image. *)
Definition hollow_image_response : response :=
  {| usage_metadata := NoAttr;
     usage_field := Attr (Some {| prompt_token_count := Attr (Some 3%Z);
                                  candidates_token_count := NoAttr |});
     text := None;
     parts := Ok [ {| inline_data := None |};
                   {| inline_data := Some {| data := None |} |};
                   {| inline_data := Some {| data := Some "PNG" |} |} ] |}.

(** The images a click sends along: the reference, the logo when one is
    uploaded, the product. *)
Definition uploads_sent (ad : image) (logo : option image) (product : image) : list image :=
  (ad :: match logo with Some l => [l] | None => [] end ++ [product])%list.

(** A parsed answer that is neither [null] nor an object. *)
Definition no_dict (job : value) : bool :=
  match job with
  | JNull | JObj _ => false
  | _ => true
  end.

(** A field of the stored plan as the edit step leaves it. *)
Definition shown_value (v : value) : bool :=
  match v with
  | JNull | JStr _ => true
  | _ => false
  end.

(** The planner's answer is a JSON array. *)
Definition array_answer : response :=
  {| usage_metadata := NoAttr; usage_field := NoAttr;
     text := Some ("```json" ++ nl ++ "[1, 2]" ++ nl ++ "```");
     parts := Ok [] |}.

(** A session with a plan, an image and the usage of an earlier call. *)
Definition busy_session : Streamlit.session :=
  {| Streamlit.job_json := plan (JStr "T") (JStr "P") (JStr "E");
     Streamlit.generated_image := Some "OLD";
     Streamlit.usage_stats := Some {| input_tokens := 10; output_tokens := 5 |} |}.

(** The text of [job_json_planner] up to its sample object. *)
Definition planner_head : string :=
  nl ++
  "You are a Creative Director and Technical Ad Strategist." ++ nl ++
  "I have provided an [IMAGE REFERENCE], [BRAND LOGO], [BRAND PRODUCT], and " ++
    "specific [CAMPAIGN DATA]." ++ nl ++
  nl ++
  "YOUR TASK:" ++ nl ++
  "Analyze the inputs and output a strategic JSON object that dictates exactly " ++
    "how to transform the reference image into a campaign ad." ++ nl ++
  nl ++
  "OUTPUT FORMAT:" ++ nl ++
  "Return ONLY valid JSON. Do not include markdown formatting (like ```json). " ++
    "Use the exact keys below:" ++ nl.

(** The text of [job_json_planner] between the sample object and the campaign
    field. *)
Definition planner_guidelines : string :=
  nl ++
  "GUIDELINES FOR EACH FIELD:" ++ nl ++
  nl ++
  "1. " ++ q ++ "text_swap" ++ q ++ ": " ++ nl ++
  "   - Analyze the text hierarchy in [IMAGE REFERENCE]. Map every existing " ++
    "text element (Headline, CTA, Subhead) to specific copy from [CAMPAIGN DATA]." ++ nl ++
  "   - LOGO: Give instructions to replace the existing logo with [BRAND " ++
    "LOGO], specifying position and contrast color (e.g., " ++ q ++ "Use White Logo version" ++
    q ++ ")." ++ nl ++
  "   - RULES: Only replace existing text areas. Do NOT add new text boxes. If " ++
    "[IMAGE REFERENCE] has no text, only instruct on Logo placement. Ignore text " ++
    "printed physically on the product." ++ nl ++
  nl ++
  "2. " ++ q ++ "product_swap" ++ q ++ ": " ++ nl ++
  "   - detailed instructions to replace the subject in [IMAGE REFERENCE] with " ++
    "[BRAND PRODUCT]." ++ nl ++
  "   - ALIGNMENT: Explicitly state to match the exact Scale, Position, and 3D " ++
    "Rotation (Yaw/Pitch/Roll) of the original subject. ANY OTHER EXPLICIT " ++
    "INSTRUCTIONS THAT ARE NEEDED TO MAKE THE PRODUCT FIT THE REFERENCE IMAGE " ++
    "SHOULD BE INCLUDED." ++ nl ++
  "   - MULTI-INSTANCE CHECK: If the reference shows multiple items (e.g., a " ++
    "pair of shoes, a row of products), instruct to replace EVERY instance with " ++
    "[BRAND PRODUCT]." ++ nl ++
  nl ++
  "3. " ++ q ++ "edits" ++ q ++ ": " ++ nl ++
  "   - Instructions for global visual grading to match the [CAMPAIGN DATA] " ++ "vibe." ++
    nl ++
  "   - COLORS: Specify which brand colors to highlight or how to color-grade " ++
    "the background , BASICALLY EDITING THE OVERALL LOOK OF THE AD." ++ nl ++
  "   - FONTS: Suggest font styles (e.g., " ++ q ++ "Change font to Bold Sans-Serif" ++ q ++
    ") that align with the campaign identity." ++ nl ++
  nl.

(** The text of [job_unified] up to its three fields. *)
Definition job_unified_instructions : string :=
  nl ++
  "You are an Expert Professional Ad Photographer, Graphic Designer, " ++
    "Typographer, Product Retoucher, Layout Specialist, and AI Compositor." ++ nl ++
  nl ++
  "I have provided:" ++ nl ++
  "- [AD IMAGE REFERENCE]: The reference ad image that serves as the strict " ++
    "layout and composition guide" ++ nl ++
  "- [BRAND LOGO]: The brand logo to replace the existing logo" ++ nl ++
  "- [BRAND PRODUCT]: The product image which must be the hero subject" ++ nl ++
  "- [CAMPAIGN DATA]: Text and messaging for the campaign" ++ nl ++
  "- [GUIDELINES]: Specific instructions for product swap (Scale, Position, 3D " ++
    "Rotation, multi-instance requirements)" ++ nl ++
  "- [EDIT INSTRUCTIONS]: Specific instructions for final visual grading, " ++
    "colors, fonts, and overall aesthetic" ++ nl ++
  nl ++
  "YOUR TASK:" ++ nl ++
  "Transform the [AD IMAGE REFERENCE] into a flawless, magazine-quality " ++
    "professional advertisement that looks like it was shot by a top-tier " ++
    "commercial photographer, performing all transformations in a single pass " ++
    "while following all provided instructions precisely." ++ nl ++
  nl ++
  "STEPS:" ++ nl ++
  nl ++
  "PHASE 1: TEXT & LOGO REPLACEMENT" ++ nl ++
  "1. TEXT REPLACEMENT:" ++ nl ++
  "   - Identify the headline and body copy positions in the [AD IMAGE " ++ "REFERENCE]" ++
    nl ++
  "   - Remove the original text and replace it with the messaging from " ++
    "[CAMPAIGN DATA] (Headlines/Slogans)" ++ nl ++
  "   - Match the font weight and style of the reference initially, but be " ++
    "ready to apply font styling from [EDIT INSTRUCTIONS] in Phase 3" ++ nl ++
  "   - Only replace existing text areas. Do NOT add new text boxes. If [AD " ++
    "IMAGE REFERENCE] has no text, skip this step" ++ nl ++
  nl ++
  "2. LOGO REPLACEMENT:" ++ nl ++
  "   - Locate the existing brand logo in the [AD IMAGE REFERENCE]" ++ nl ++
  "   - Remove it and place the attached [BRAND LOGO] in the same position and " ++
    "relative scale" ++ nl ++
  "   - Note: Logo color adjustments will be applied in Phase 3 based on [EDIT " ++
    "INSTRUCTIONS]" ++ nl ++
  nl ++
  "PHASE 2: PRODUCT SWAP" ++ nl ++
  "3. READ & UNDERSTAND GUIDELINES:" ++ nl ++
  "   - Carefully review the [GUIDELINES] provided. These contain specific " ++
    "instructions about:" ++ nl ++
  "     * Scale, Position, and 3D Rotation (Yaw/Pitch/Roll) requirements" ++ nl ++
  "     * Multi-instance replacement instructions (if multiple products need " ++
    "to be replaced)" ++ nl ++
  "     * Any special alignment or transformation requirements" ++ nl ++
  "   - Follow these guidelines EXACTLY as specified" ++ nl ++
  nl ++
  "4. LAYOUT & COUNT ANALYSIS:" ++ nl ++
  "   - Scan the [AD IMAGE REFERENCE] to identify the number of product " ++
    "instances present" ++ nl ++
  "   - **CRITICAL:** If the [GUIDELINES] specify multiple instances or the " ++
    "reference shows multiple products (e.g., a pair of shoes, a grid, or a " ++
    "repeating pattern), you must replace ALL instances as instructed" ++ nl ++
  "   - Analyze the exact screen space (bounding box), rotation, and scale of " ++
    "the original products" ++ nl ++
  nl ++
  "5. GEOMETRIC ALIGNMENT & INSERTION (Following Guidelines):" ++ nl ++
  "   - Remove the original subjects from the [AD IMAGE REFERENCE]" ++ nl ++
  "   - Insert the [BRAND PRODUCT] following the [GUIDELINES] specifications:" ++ nl ++
  "     * Apply the exact Scale, Position, and 3D Rotation (Yaw/Pitch/Roll) as " ++
    "specified in [GUIDELINES]" ++ nl ++
  "     * If [GUIDELINES] contain additional transformation instructions, " ++
    "apply them precisely" ++ nl ++
  "   - The new product must occupy the exact same negative space and " ++
    "silhouette as the old one, or as specified in [GUIDELINES]" ++ nl ++
  nl ++
  "6. COMPOSITING & BLENDING:" ++ nl ++
  "   - Adjust the lighting on the [BRAND PRODUCT] to match the reference " ++
    "scene (e.g., if light comes from the left in the reference, light the new " ++
    "product from the left, if shadow comes from the right, cast shadow from the " ++
    "right)" ++ nl ++
  "   - Ensure seamless integration with the background and other elements" ++ nl ++
  "   - Make sure the product looks solid and realistic, not " ++ q ++ "pasted on" ++ q ++
    nl ++
  nl ++
  "PHASE 3: FINAL POLISH & PROFESSIONAL ENHANCEMENT" ++ nl ++
  "7. READ & UNDERSTAND EDIT INSTRUCTIONS:" ++ nl ++
  "   - Carefully review the [EDIT INSTRUCTIONS] provided. These contain " ++
    "specific guidance about:" ++ nl ++
  "     * Which brand colors to use for background, fonts, and logo" ++ nl ++
  "     * Font style recommendations" ++ nl ++
  "     * Color grading preferences" ++ nl ++
  "     * Overall visual aesthetic and mood" ++ nl ++
  "     * Any specific alignment or composition requirements" ++ nl ++
  "   - Follow these instructions EXACTLY as specified, while also applying " ++
    "professional standards" ++ nl ++
  nl ++
  "8. CHECK & REPLACE (CRITICAL):" ++ nl ++
  "   - Look closely at the image. Are there any " ++ q ++ "old" ++ q ++ " or " ++ q ++
    "wrong" ++ q ++ " products that were missed?" ++ nl ++
  "   - If ANY original products remain, replace them immediately with the " ++
    "provided [BRAND PRODUCT]" ++ nl ++
  "   - Ensure EVERY single product instance in the scene matches the [BRAND " ++ "PRODUCT]" ++
    nl ++
  nl ++
  "9. ALIGNMENT & COMPOSITION FIXES:" ++ nl ++
  "   - Fix any misaligned text, logos, or graphic elements. Ensure perfect " ++
    "horizontal and vertical alignment" ++ nl ++
  "   - Check that all elements follow proper grid systems and visual hierarchy" ++ nl ++
  "   - Ensure the product is perfectly centered or positioned according to " ++
    "professional composition rules (rule of thirds, golden ratio, etc.)" ++ nl ++
  "   - Fix any crooked or tilted elements to create a polished, professional " ++ "look" ++
    nl ++
  "   - Apply any specific alignment requirements from [EDIT INSTRUCTIONS]" ++ nl ++
  nl ++
  "10. COLOR GRADING & ADJUSTMENTS (Following Edit Instructions):" ++ nl ++
  "    - BACKGROUND COLOR: " ++ nl ++
  "      * Follow the [EDIT INSTRUCTIONS] for background color specifications" ++ nl ++
  "      * If [EDIT INSTRUCTIONS] specify brand colors, use those colors to " ++
    "create a cohesive, professional color palette" ++ nl ++
  "      * If not specified, adjust or replace the background color to create " ++
    "a sophisticated, on-brand palette that complements the product" ++ nl ++
  "    - FONT COLOR: " ++ nl ++
  "      * Apply font color specifications from [EDIT INSTRUCTIONS]" ++ nl ++
  "      * Ensure all text has optimal contrast and readability" ++ nl ++
  "      * Adjust font colors to match the brand aesthetic and ensure they " ++
    "stand out clearly against backgrounds" ++ nl ++
  "    - LOGO COLOR: " ++ nl ++
  "      * Follow [EDIT INSTRUCTIONS] for logo color specifications (e.g., " ++ q ++
    "Use White Logo version" ++ q ++ ", " ++ q ++ "Use Black Logo version" ++ q ++ ")" ++ nl ++
  "      * Adjust logo colors to ensure brand consistency, proper contrast, " ++
    "and visibility" ++ nl ++
  "      * Make sure the logo looks crisp and professional" ++ nl ++
  "    - Overall color harmony: " ++ nl ++
  "      * Apply color grading instructions from [EDIT INSTRUCTIONS]" ++ nl ++
  "      * Create a unified color scheme that looks like a professionally " ++
    "color-graded commercial photograph" ++ nl ++
  nl ++
  "11. TYPOGRAPHY & FONT STYLING (Following Edit Instructions):" ++ nl ++
  "    - Apply font style recommendations from [EDIT INSTRUCTIONS] (e.g., " ++ q ++
    "Change font to Bold Sans-Serif" ++ q ++ ", " ++ q ++ "Use modern minimalist typography" ++
    q ++ ")" ++ nl ++
  "    - Ensure all text is crisp, readable, and properly rendered" ++ nl ++
  "    - Fix any font rendering issues or blurry text" ++ nl ++
  "    - Make sure typography aligns with the campaign identity specified in " ++
    "[EDIT INSTRUCTIONS]" ++ nl ++
  nl ++
  "12. REPAIR GLITCHES & ARTIFACTS:" ++ nl ++
  "    - Fix any weird AI distortions, jagged edges, or bad blending seams" ++ nl ++
  "    - Remove any artifacts, noise, or compression issues" ++ nl ++
  "    - Smooth out any rough transitions or unnatural edges" ++ nl ++
  nl ++
  "13. PROFESSIONAL PHOTO QUALITY ENHANCEMENTS:" ++ nl ++
  "    - Sharpen the image (remove blur) while maintaining natural-looking " ++ "detail" ++
    nl ++
  "    - Enhance depth of field and focus to draw attention to the product" ++ nl ++
  "    - Adjust lighting to create a professional studio-quality look with " ++
    "proper highlights and shadows" ++ nl ++
  "    - Add subtle professional touches like soft vignetting, color grading, " ++
    "and contrast adjustments" ++ nl ++
  "    - Ensure the overall image has the polished, high-end aesthetic of " ++
    "luxury brand advertisements" ++ nl ++
  "    - Apply any specific visual mood or aesthetic from [EDIT INSTRUCTIONS]" ++ nl ++
  nl ++
  "14. GRAPHIC ELEMENTS:" ++ nl ++
  "    - Make sure graphic elements and logos are sharp and professional" ++ nl ++
  "    - Apply any graphic styling requirements from [EDIT INSTRUCTIONS]" ++ nl ++
  nl ++
  "OUTPUT:" ++ nl ++
  "A flawless, high-resolution, magazine-quality professional advertisement " ++ "where:" ++
    nl ++
  "- 100% of products are correct and match the [BRAND PRODUCT] and [BRAND " ++ "LOGO]" ++
    nl ++
  "- All text has been replaced with [CAMPAIGN DATA] messaging" ++ nl ++
  "- All elements are perfectly aligned and composed" ++ nl ++
  "- Colors follow the [EDIT INSTRUCTIONS] specifications and are " ++
    "professionally graded and harmonious" ++ nl ++
  "- Typography and fonts match the [EDIT INSTRUCTIONS] recommendations" ++ nl ++
  "- The image looks like it was shot by a top commercial photographer" ++ nl ++
  "- Every detail is crisp, polished, and ready for publication" ++ nl ++
  "- All [GUIDELINES] and [EDIT INSTRUCTIONS] have been precisely followed" ++ nl ++
  nl.

(** [job_json_planner], the template of the plan stage. *)
Definition job_json_planner : string := planner_template planner_head planner_guidelines.

(** The planner template filled in: the braces of the sample object single,
    the campaign text in the place of the field. *)
Definition planner_prompt (head guidelines campaign_info : string) : string :=
  head ++ "```json" ++ nl ++ "{" ++ nl ++ planner_keys ++ "}" ++ nl ++ "```" ++ nl ++
  guidelines ++ "[CAMPAIGN DATA]:" ++ nl ++ campaign_info ++ nl.

(** A character that stands for itself inside a JSON string literal, the
    backtick apart. *)
Definition literal_char (c : ascii) : bool :=
  negb (Ascii.eqb c dquote) && negb (Ascii.eqb c "\") && negb (Nat.ltb (ord c) 32)
  && negb (Ascii.eqb c "`").

(** A text of such characters. *)
Fixpoint literal (s : string) : bool :=
  match s with
  | EmptyString => true
  | String c s' => literal_char c && literal s'
  end.

(** A text without backtick. *)
Fixpoint tickless (s : string) : bool :=
  match s with
  | EmptyString => true
  | String c s' => negb (Ascii.eqb c "`") && tickless s'
  end.

(** White space at the head of a text, for [json]. *)
Definition head_ws (s : string) : bool :=
  match s with
  | String c _ => is_ws c
  | EmptyString => false
  end.

(** A line a run prints: neither the statistics nor the closing line. *)
Definition progress_line (l : line) : bool :=
  match l with
  | Statistics _ _ _ | AllDone => false
  | _ => true
  end.

(* ================================================================== *)
(** ** app.py under the event loop: coroutines, [asyncio.Semaphore],
       [asyncio.gather] *)

Module Aio.

(** A coroutine that returns an [A], as what it does up to its next
    [await]: code that does not suspend, [await asyncio.to_thread(...)]
    on a model call, and [async with semaphore:] around the rest of the
    function. *)
Inductive co (A : Type) : Type :=
| Return (a : A)
| Sync (X : Type) (m : M X) (k : X -> co A)
| ToThread (c : api_call) (k : response -> co A)
| AsyncWith (semaphore : nat) (body : co A).
Arguments Return {A} a.
Arguments Sync {A X} m k.
Arguments ToThread {A} c k.
Arguments AsyncWith {A} semaphore body.

Section Coroutines.

Variable job_json_planner : string.
Variable unified_instructions : string.
Variable E : env.

(** [await gemini_response(prompt, images, model)]; [k] is the code after
    the [await]. *)
Definition gemini_response {A : Type} (prompt : string) (images : list image_arg)
           (model : string) (k : option string * usage -> co A) : co A :=
  Sync (mapM (to_pil E) images) (fun pil_images =>
  ToThread {| model := model; prompt := prompt; attachments := pil_images;
              image_mode := false |} (fun r =>
  k (text r, usage_of r))).

(** [await gemini_image_response(prompt, images, model)] *)
Definition gemini_image_response {A : Type} (prompt : string) (images : list image_arg)
           (model : string) (k : option bytes * usage -> co A) : co A :=
  Sync (mapM (to_pil E) images) (fun pil_images =>
  ToThread {| model := model; prompt := prompt; attachments := pil_images;
              image_mode := true |} (fun r =>
  let u := usage_of r in
  Sync (lift (parts r)) (fun ps =>
  k (first_inline ps, u)))).

(** [await flow(ad_reference_image, brand_info, brand_logo, product_image)] *)
Definition flow {A : Type} (ad_reference_image : image) (brand_info : string)
           (brand_logo product_image : image) (k : option bytes * usage -> co A) : co A :=
  let total_input_tokens := 0%Z in
  let total_output_tokens := 0%Z in
  let images := [Pil ad_reference_image; Pil brand_logo; Pil product_image] in
  Sync (lift (Fmt.format job_json_planner [brand_info])) (fun planner_prompt =>
  gemini_response planner_prompt images text_model (fun '(output_0, usage_0) =>
  let total_input_tokens := (total_input_tokens + input_tokens usage_0)%Z in
  let total_output_tokens := (total_output_tokens + output_tokens usage_0)%Z in
  Sync (lift (match output_0 with
              | Some t => parse_plan t
              | None => Raise TypeError
              end)) (fun job =>
  Sync (lift (getitem job "text_swap")) (fun text_swap =>
  Sync (lift (getitem job "product_swap")) (fun product_swap =>
  Sync (lift (getitem job "edits")) (fun edits =>
  Sync (lift (Fmt.format (job_unified unified_instructions)
                [to_str E text_swap; to_str E product_swap; to_str E edits]))
       (fun render_prompt =>
  gemini_image_response render_prompt images image_model (fun '(output, usage_1) =>
  let total_input_tokens := (total_input_tokens + input_tokens usage_1)%Z in
  let total_output_tokens := (total_output_tokens + output_tokens usage_1)%Z in
  k (output, {| input_tokens := total_input_tokens;
                output_tokens := total_output_tokens |}))))))))).

(** [process_single_image(ref_image_path, brand_info, brand_logo,
    product_image, output_dir, semaphore)] *)
Definition process_single_image (ref_image_name : string) (brand_info : string)
           (brand_logo product_image : image) (output_dir : string) (semaphore : nat)
  : co usage :=
  AsyncWith semaphore
    (Sync (print (Processing ref_image_name)) (fun _ =>
     Sync (load_safe_image E ("references/" ++ ref_image_name)) (fun ad_reference_image =>
     flow ad_reference_image brand_info brand_logo product_image
          (fun '(output_image_bytes, u) =>
     let output_filename := Path.stem ref_image_name ++ "_new_1_gen.png" in
     let output_path := output_dir ++ "/" ++ output_filename in
     Sync (open_wb output_path) (fun _ =>
     Sync (write output_path output_image_bytes) (fun _ =>
     Sync (print (Saved output_path)) (fun _ =>
     Return u))))))).

(** The coroutine run without any other: each [await] is answered at
    once. *)
Fixpoint alone {A : Type} (p : co A) : M A :=
  match p with
  | Return a => ret a
  | Sync m k => mbind m (fun x => alone (k x))
  | ToThread c k => mbind (call E c) (fun r => alone (k r))
  | AsyncWith _ body => alone body
  end.

(** *** The event loop *)

(** [asyncio.Semaphore] as of Python 3.11: the counter and the tasks whose
    futures are in [_waiters], oldest first. *)
Record semaphore : Type := {
  value : nat;
  waiters : list nat
}.

(** A task that runs a coroutine returning a usage record, with the
    semaphores whose [async with] block it is in. *)
Inductive task : Type :=
| Ready (p : co usage) (held : list nat)                (* scheduled: its first step, or a later one *)
| Running                                               (* the task the loop is in *)
| Waiting (s : nat) (body : co usage) (held : list nat) (* suspended in [s.acquire()] *)
| Woken (s : nat) (body : co usage) (held : list nat)   (* its future has a result; scheduled *)
| Calling (n : nat) (c : api_call) (k : response -> co usage) (held : list nat)
                                                        (* suspended in [to_thread]; the call is the n-th *)
| Resumed (r : result response) (k : response -> co usage) (held : list nat)
                                                        (* the thread is over; scheduled *)
| Over (r : result usage).

Record loop : Type := {
  sems : nat -> semaphore;
  ready : list nat;               (* the loop's queue of callbacks, as task numbers *)
  pool : list task;
  now : world
}.

Fixpoint upd {X : Type} (i : nat) (x : X) (l : list X) : list X :=
  match l, i with
  | [], _ => []
  | _ :: l', O => x :: l'
  | y :: l', S i' => y :: upd i' x l'
  end.

Definition set_task (i : nat) (t : task) (l : loop) : loop :=
  {| sems := sems l; ready := ready l; pool := upd i t (pool l); now := now l |}.

Definition set_sem (s : nat) (v : semaphore) (l : loop) : loop :=
  {| sems := fun x => if Nat.eqb x s then v else sems l x;
     ready := ready l; pool := pool l; now := now l |}.

Definition set_now (w : world) (l : loop) : loop :=
  {| sems := sems l; ready := ready l; pool := pool l; now := w |}.

Definition call_soon (i : nat) (l : loop) : loop :=
  {| sems := sems l; ready := ready l ++ [i]; pool := pool l; now := now l |}.

(** [Semaphore.locked()]: a future that has its result stays among the
    waiters until its task runs again, and counts. *)
Definition locked (v : semaphore) : bool :=
  Nat.eqb (value v) 0 || negb (match waiters v with [] => true | _ => false end).

(** The first waiter whose future is not done. *)
Fixpoint first_waiting (tasks : list task) (ws : list nat)
  : option (nat * co usage * list nat) :=
  match ws with
  | [] => None
  | j :: ws' =>
      match nth_error tasks j with
      | Some (Waiting _ body held) => Some (j, body, held)
      | _ => first_waiting tasks ws'
      end
  end.

(** [Semaphore._wake_up_next()] *)
Definition wake_up_next (s : nat) (l : loop) : loop :=
  match first_waiting (pool l) (waiters (sems l s)) with
  | Some (j, body, held) =>
      call_soon j
        (set_task j (Woken s body held)
           (set_sem s {| value := value (sems l s) - 1; waiters := waiters (sems l s) |} l))
  | None => l
  end.

(** [Semaphore.release()] *)
Definition release (s : nat) (l : loop) : loop :=
  wake_up_next s
    (set_sem s {| value := value (sems l s) + 1; waiters := waiters (sems l s) |} l).

(** Leaving the [async with] blocks a task is in, innermost first. *)
Fixpoint release_all (held : list nat) (l : loop) : loop :=
  match held with
  | [] => l
  | s :: held' => release_all held' (release s l)
  end.

(** The task [i] runs [p] until it suspends or is over. *)
Fixpoint advance (i : nat) (p : co usage) (held : list nat) (l : loop) : loop :=
  match p with
  | Return a => set_task i (Over (Ok a)) (release_all held l)
  | Sync m k =>
      match m (now l) with
      | (Ok x, w) => advance i (k x) held (set_now w l)
      | (Raise e, w) => set_task i (Over (Raise e)) (release_all held (set_now w l))
      | (Beyond, w) => set_task i (Over Beyond) (release_all held (set_now w l))
      end
  | ToThread c k =>
      set_task i (Calling (List.length (calls (now l))) c k held)
        (set_now (log_call c (now l)) l)
  | AsyncWith s body =>
      if locked (sems l s) then
        set_task i (Waiting s body held)
          (set_sem s {| value := value (sems l s); waiters := waiters (sems l s) ++ [i] |} l)
      else
        advance i body (s :: held)
          (set_sem s {| value := value (sems l s) - 1; waiters := waiters (sems l s) |} l)
  end.

Fixpoint remove_first (i : nat) (ws : list nat) : list nat :=
  match ws with
  | [] => []
  | j :: ws' => if Nat.eqb j i then ws' else j :: remove_first i ws'
  end.

(** The end of [Semaphore.acquire()] in a task whose future has its
    result. *)
Definition acquired (i s : nat) (l : loop) : loop :=
  let l1 := set_sem s {| value := value (sems l s);
                         waiters := remove_first i (waiters (sems l s)) |} l in
  if Nat.ltb 0 (value (sems l1 s)) then wake_up_next s l1 else l1.

(** The loop runs the callback at the head of its queue. *)
Definition tick (l : loop) : option loop :=
  match ready l with
  | [] => None
  | i :: rest =>
      let l0 := {| sems := sems l; ready := rest; pool := pool l; now := now l |} in
      match nth_error (pool l) i with
      | Some (Ready p held) => Some (advance i p held (set_task i Running l0))
      | Some (Woken s body held) =>
          Some (advance i body (s :: held) (acquired i s (set_task i Running l0)))
      | Some (Resumed (Ok r) k held) => Some (advance i (k r) held (set_task i Running l0))
      | Some (Resumed (Raise e) k held) =>
          Some (set_task i (Over (Raise e)) (release_all held (set_task i Running l0)))
      | Some (Resumed Beyond k held) =>
          Some (set_task i (Over Beyond) (release_all held (set_task i Running l0)))
      | _ => Some l0
      end
  end.

(** The thread of the task [i] is over: the task is scheduled with the
    answer, or the exception, of its call. *)
Definition complete (i : nat) (l : loop) : option loop :=
  match nth_error (pool l) i with
  | Some (Calling n c k held) =>
      Some (call_soon i (set_task i (Resumed (generate_content E n c) k held) l))
  | _ => None
  end.

(** What can happen next: the loop takes a callback, or a thread ends, in
    any order.  When a run raises, [gather] hands the exception to [main]
    and the runs that are left are cancelled once [main] has returned; here
    they may go on, which adds states and takes none away. *)
Inductive step : loop -> loop -> Prop :=
| step_tick l l' : tick l = Some l' -> step l l'
| step_complete i l l' : complete i l = Some l' -> step l l'.

Inductive reachable (l0 : loop) : loop -> Prop :=
| reach_refl : reachable l0 l0
| reach_step l l' : reachable l0 l -> step l l' -> reachable l0 l'.

(** A schedule: which of these happens, step after step. *)
Inductive event : Type := Tick | Complete (i : nat).

Fixpoint run (es : list event) (l : loop) : option loop :=
  match es with
  | [] => Some l
  | Tick :: es' => match tick l with Some l' => run es' l' | None => None end
  | Complete i :: es' => match complete i l with Some l' => run es' l' | None => None end
  end.

Variable brand_info : string.

(** [main()] up to [await asyncio.gather( *tasks)]: the two assets, the
    semaphore, which is number 0 and the only one, and one task for each
    reference image after the third, scheduled in this order. *)
Definition main_gather (w : world) : result loop :=
  match load_safe_image E "data/logo.png" w with
  | (Ok brand_logo, w1) =>
      match load_safe_image E "data/image.png" w1 with
      | (Ok product_image, w2) =>
          let output_dir := "output_new_1" in
          let ref_image_paths := filter is_reference_image (iterdir E) in
          let semaphore := 0 in
          let tasks :=
            map (fun ref_image_path =>
                   process_single_image ref_image_path brand_info brand_logo product_image
                                        output_dir semaphore)
                (skipn 3 ref_image_paths) in
          Ok {| sems := fun _ => {| value := 3; waiters := [] |};
                ready := seq 0 (List.length tasks);
                pool := map (fun p => Ready p []) tasks;
                now := w2 |}
      | (Raise e, _) => Raise e
      | (Beyond, _) => Beyond
      end
  | (Raise e, _) => Raise e
  | (Beyond, _) => Beyond
  end.

End Coroutines.

(** A run that is past [async with semaphore] and has not left the block:
    it holds a slot, or has been handed one. *)
Definition admitted (t : task) : bool :=
  match t with
  | Ready _ held | Waiting _ _ held | Calling _ _ _ held | Resumed _ _ held =>
      negb (match held with [] => true | _ => false end)
  | Woken _ _ _ => true
  | Running | Over _ => false
  end.

(** A run that awaits the result of a stage. *)
Definition awaits_stage (t : task) : bool :=
  match t with
  | Calling _ _ _ _ | Resumed _ _ _ => true
  | _ => false
  end.

(** A run that waits for a slot. *)
Definition queued (t : task) : bool :=
  match t with
  | Waiting _ _ _ => true
  | _ => false
  end.

Definition count (f : task -> bool) (l : loop) : nat := List.length (filter f (pool l)).

(** One for a task that is counted. *)
Definition weight (f : task -> bool) (t : task) : nat := if f t then 1 else 0.

End Aio.

(** Code without [async with]. *)
Fixpoint plain_code (p : Aio.co usage) : Prop :=
  match p with
  | Aio.Return _ => True
  | Aio.Sync m k => forall x, plain_code (k x)
  | Aio.ToThread c k => forall r, plain_code (k r)
  | Aio.AsyncWith _ _ => False
  end.

(** What a task of the batch can be: before its block, waiting for a slot
    of semaphore 0, or in the block with that one slot. *)
Definition shaped (t : Aio.task) : Prop :=
  match t with
  | Aio.Ready p held =>
      (held = [] /\ exists body, p = Aio.AsyncWith 0 body /\ plain_code body)
      \/ (held = [0] /\ plain_code p)
  | Aio.Waiting s body held | Aio.Woken s body held =>
      s = 0 /\ held = [] /\ plain_code body
  | Aio.Calling _ _ k held | Aio.Resumed _ k held =>
      held = [0] /\ forall r, plain_code (k r)
  | Aio.Running | Aio.Over _ => True
  end.

(** The slots: the counter, the runs admitted, and the slot of the task
    the loop is in. *)
Definition slots (l : Aio.loop) (held : list nat) : nat :=
  Aio.value (Aio.sems l 0) + Aio.count Aio.admitted l + List.length held.

Definition sound (l : Aio.loop) : Prop :=
  Forall shaped (Aio.pool l) /\ slots l [] = 3.

(** A directory of eight reference images: five runs. *)
Definition eight_references : list string :=
  ["a.png"; "b.png"; "c.png"; "d.png"; "e.png"; "f.png"; "g.png"; "h.png"].

Definition crowded_env : env :=
  sample_env sample_plan_response sample_image_response eight_references.

(** The loop when [main] calls [gather] in that directory. *)
Definition crowded_start : Aio.loop :=
  {| Aio.sems := fun _ => {| Aio.value := 3; Aio.waiters := [] |};
     Aio.ready := [0; 1; 2; 3; 4];
     Aio.pool :=
       map (fun name =>
              Aio.Ready (Aio.process_single_image "{}" "" crowded_env name "brand"
                           "data/logo.png" "data/image.png" "output_new_1" 0) [])
           ["d.png"; "e.png"; "f.png"; "g.png"; "h.png"];
     Aio.now := empty_world |}.

(** The five runs start; the first gets both its answers, saves its image
    and leaves; the fourth takes its slot. *)
Definition handover : list Aio.event :=
  [Aio.Tick; Aio.Tick; Aio.Tick; Aio.Tick; Aio.Tick;
   Aio.Complete 0; Aio.Tick; Aio.Complete 0; Aio.Tick; Aio.Tick].

Definition after_handover : Aio.loop :=
  match Aio.run crowded_env handover crowded_start with
  | Some l => l
  | None => crowded_start
  end.

(** The count a usage object reports under an attribute: the number it
    holds, zero when the attribute is missing or [None]. *)
Definition reported (a : attr Z) : Z :=
  match a with
  | Attr (Some n) => n
  | _ => 0%Z
  end.

(** The usage record read off a usage object. *)
Definition usage_from (u : usage_counts) : usage :=
  {| input_tokens := reported (prompt_token_count u);
     output_tokens := reported (candidates_token_count u) |}.

(** A response of the [usage] shape whose prompt count is [None] and whose
    other count is missing. *)
Definition sparse_response : response :=
  {| usage_metadata := NoAttr;
     usage_field := Attr (Some {| prompt_token_count := Attr None;
                                  candidates_token_count := NoAttr |});
     text := Some "ok";
     parts := Ok [] |}.

(** A response that reports a negative count. *)
Definition negative_response : response :=
  {| usage_metadata := Attr (Some {| prompt_token_count := Attr (Some (-1)%Z);
                                     candidates_token_count := Attr (Some 4%Z) |});
     usage_field := NoAttr;
     text := Some "ok";
     parts := Ok [] |}.

(** The session once the operator has edited the three fields. *)
Definition edited_session (text_swap product_swap edits : string) : Streamlit.session :=
  {| Streamlit.job_json := plan (JStr text_swap) (JStr product_swap) (JStr edits);
     Streamlit.generated_image := None;
     Streamlit.usage_stats := Some {| input_tokens := 10; output_tokens := 5 |} |}.

(* ================================================================== *)
(** * Facts about strings *)

Lemma str_app_nil_r (s : string) : s ++ "" = s.
Proof. induction s; simpl; congruence. Qed.

Lemma str_app_assoc (a b c : string) : (a ++ b) ++ c = a ++ (b ++ c).
Proof. induction a; simpl; congruence. Qed.

Lemma str_length_app (a b : string) :
  String.length (a ++ b) = String.length a + String.length b.
Proof. induction a; simpl; congruence. Qed.

Lemma upto_self (s : string) : upto s s = "".
Proof. destruct s; simpl; [reflexivity|]. now rewrite Nat.leb_refl. Qed.

Lemma upto_cons (c : ascii) (s rest : string) :
  upto (String c s) rest =
  if Nat.leb (S (String.length s)) (String.length rest) then ""
  else String c (upto s rest).
Proof. reflexivity. Qed.

Lemma upto_app (pre s : string) : upto (pre ++ s) s = pre.
Proof.
  induction pre as [|c pre IH].
  - apply upto_self.
  - cbn [String.append]. rewrite upto_cons, str_length_app.
    destruct (Nat.leb_spec (S (String.length pre + String.length s)) (String.length s)); [lia|].
    now rewrite IH.
Qed.

Lemma strip_prefix_app (p s : string) : strip_prefix p (p ++ s) = Some s.
Proof. induction p; simpl; [reflexivity|]. now rewrite Ascii.eqb_refl. Qed.

Lemma strip_prefix_app_l (p1 p2 s : string) :
  strip_prefix (p1 ++ p2) s =
  match strip_prefix p1 s with
  | Some s' => strip_prefix p2 s'
  | None => None
  end.
Proof.
  revert s; induction p1 as [|a p1 IH]; intros s; simpl; [reflexivity|].
  destruct s as [|b s]; [reflexivity|]. destruct (Ascii.eqb a b); [apply IH | reflexivity].
Qed.

(* ================================================================== *)
(** * The pattern [extract_x] builds, for a tag of ordinary characters *)

Lemma quantified_plain cs c s :
  Re.classify c = Re.KPlain \/ Re.classify c = Re.KBackslash ->
  Re.quantified cs (String c s) = Ok (Re.One cs, String c s).
Proof. intros [H|H]; unfold Re.quantified; now rewrite H. Qed.

Lemma parse_seq_lits (p : string) :
  Spec.plain p = true ->
  forall fuel c s g r rest g',
    Re.classify c = Re.KPlain \/ Re.classify c = Re.KBackslash ->
    Re.parse_seq fuel (String c s) g = Ok (r, rest, g') ->
    Re.parse_seq (String.length p + fuel) (p ++ String c s) g = Ok (lits p r, rest, g').
Proof.
  induction p as [|a p IH]; intros Hp fuel c s g r rest g' Hc Hk; [exact Hk|].
  simpl in Hp. destruct (Re.classify a) eqn:Ha; try discriminate.
  cbn [String.length Nat.add String.append Re.parse_seq]. rewrite Ha.
  assert (Hq : Re.quantified (Re.CLit a) (p ++ String c s)
               = Ok (Re.One (Re.CLit a), p ++ String c s)).
  { destruct p as [|b p]; simpl.
    - now apply quantified_plain.
    - apply quantified_plain. left. simpl in Hp. now destruct (Re.classify b). }
  rewrite Hq. cbn [bind]. rewrite (IH Hp fuel c s g r rest g' Hc Hk). reflexivity.
Qed.

Lemma parse_seq_tail (n g : nat) :
  Re.parse_seq (8 + n) "\s*(.*?)```" g
  = Ok (Re.Seq (Re.Rep Re.QStar true Re.CSpace)
          (Re.Seq (Re.Group (S g) (Re.Seq (Re.Rep Re.QStar false Re.CAny) Re.Eps))
             (lits "```" Re.Eps)), "", S g).
Proof. reflexivity. Qed.

Lemma compile_fence (tag : string) :
  Spec.plain tag = true ->
  Re.compile ("```" ++ tag ++ "\s*(.*?)```") = Ok (fence_regex tag).
Proof.
  intros Hp. unfold Re.compile.
  assert (Hseq : forall n,
             Re.parse_seq (String.length ("```" ++ tag) + (8 + n))
               (("```" ++ tag) ++ "\s*(.*?)```") 0
             = Ok (fence_regex tag, "", 1)).
  { intros n. apply parse_seq_lits.
    - exact Hp.
    - right; reflexivity.
    - apply parse_seq_tail. }
  set (pat := "```" ++ tag ++ "\s*(.*?)```").
  assert (Hlen : 2 * String.length pat + 2
                 = S (String.length ("```" ++ tag) + (8 + (String.length tag + 18)))).
  { unfold pat. change ("```" ++ tag ++ "\s*(.*?)```") with ("```" ++ (tag ++ "\s*(.*?)```")).
    rewrite !str_length_app. simpl. lia. }
  rewrite Hlen. cbn [Re.parse_alt].
  change pat with ("```" ++ (tag ++ "\s*(.*?)```")).
  rewrite <- str_app_assoc, Hseq. reflexivity.
Qed.

(* ================================================================== *)
(** * What the matcher does on that pattern *)

Lemma rmatch_lits (p : string) (k : Re.regex) s gs K :
  Re.rmatch (lits p k) s gs K =
  match strip_prefix p s with
  | Some s' => Re.rmatch k s' gs K
  | None => None
  end.
Proof.
  revert s; induction p as [|a p IH]; intros s; simpl; [reflexivity|].
  destruct s as [|b s]; [reflexivity|]. destruct (Ascii.eqb a b); [apply IH | reflexivity].
Qed.

Lemma isspace_tick c : isspace c = true -> Ascii.eqb "`" c = false.
Proof.
  intros H. destruct (Ascii.eqb_spec "`" c) as [<-|]; [discriminate H | reflexivity].
Qed.

Lemma until_fence_space c s :
  isspace c = true -> Spec.until_fence s = None -> Spec.until_fence (String c s) = None.
Proof.
  intros Hc Hs. cbn [Spec.until_fence strip_prefix]. rewrite (isspace_tick c Hc), Hs. reflexivity.
Qed.

Lemma star_ext greedy cs (k1 k2 : string -> option Re.groups) :
  (forall s, k1 s = k2 s) -> forall s, Re.star greedy cs s k1 = Re.star greedy cs s k2.
Proof.
  intros H. induction s as [|c s IH]; cbn [Re.star]; rewrite H; [reflexivity|].
  now rewrite IH.
Qed.

Lemma star_lazy_any (s : string) :
  forall (pre : string),
    Re.star false Re.CAny s
      (fun s2 => match strip_prefix "```" s2 with
                 | Some _ => Some [(1, upto (pre ++ s) s2)]
                 | None => None
                 end)
    = match Spec.until_fence s with
      | Some b => Some [(1, pre ++ b)]
      | None => None
      end.
Proof.
  induction s as [|c s IH]; intros pre.
  - cbn. reflexivity.
  - cbn [Re.star Spec.until_fence Re.cset_mem].
    destruct (strip_prefix "```" (String c s)) eqn:Hf.
    + now rewrite upto_app, str_app_nil_r.
    + specialize (IH (pre ++ String c "")).
      rewrite str_app_assoc in IH. cbn [String.append] in IH.
      rewrite IH. destruct (Spec.until_fence s); [|reflexivity].
      now rewrite str_app_assoc.
Qed.

Lemma star_greedy_space (k : string -> option Re.groups) :
  (forall c t, isspace c = true -> k t = None -> k (String c t) = None) ->
  forall s, Re.star true Re.CSpace s k = k (lstrip s).
Proof.
  intros Hk.
  assert (Hback : forall s, k (lstrip s) = None -> k s = None).
  { induction s as [|c s IH]; simpl; [auto|].
    destruct (isspace c) eqn:Hc; [|auto]. intros H. apply Hk; auto. }
  induction s as [|c s IH]; [reflexivity|].
  cbn [Re.star Re.cset_mem lstrip]. destruct (isspace c) eqn:Hc; [|reflexivity].
  rewrite IH. destruct (k (lstrip s)) eqn:Hl; [reflexivity|].
  apply Hk; auto.
Qed.

Lemma match_at_fence (tag s : string) :
  Re.match_at (fence_regex tag) s =
  match Spec.block_at tag s with
  | Some b => Some [(1, b)]
  | None => None
  end.
Proof.
  unfold Re.match_at, fence_regex, Spec.block_at. rewrite rmatch_lits.
  destruct (strip_prefix ("```" ++ tag) s) as [s'|]; [|reflexivity].
  unfold tail_regex. cbn [Re.rmatch].
  set (k := fun s1 : string => _).
  assert (Hk : forall s1, k s1 = match Spec.until_fence s1 with
                                 | Some b => Some [(1, b)]
                                 | None => None
                                 end).
  { intros s1. unfold k.
    transitivity (Re.star false Re.CAny s1
                    (fun s2 => match strip_prefix "```" s2 with
                               | Some _ => Some [(1, upto ("" ++ s1) s2)]
                               | None => None
                               end)).
    - apply star_ext.
      intros s2. rewrite rmatch_lits. cbn. destruct (strip_prefix "```" s2); reflexivity.
    - apply (star_lazy_any s1 ""). }
  rewrite star_greedy_space.
  - apply Hk.
  - intros c t Hc. rewrite !Hk. destruct (Spec.until_fence t) eqn:Ht; [discriminate|].
    now rewrite (until_fence_space c t Hc Ht).
Qed.

Lemma search_fence (tag s : string) :
  Re.search_from (fence_regex tag) s =
  match Spec.first_block tag s with
  | Some b => Some [(1, b)]
  | None => None
  end.
Proof.
  induction s as [|c s IH]; cbn [Re.search_from Spec.first_block];
    rewrite match_at_fence; destruct (Spec.block_at tag _); try reflexivity.
  exact IH.
Qed.

(** [extract_x] on a tag of ordinary characters: the trimmed content of the
    first fenced block, or the response itself. *)
Lemma extract_x_fence (response tag : string) :
  Spec.plain tag = true ->
  extract_x response tag =
  Ok match Spec.first_block tag response with
     | Some b => strip b
     | None => response
     end.
Proof.
  intros Hp. unfold extract_x, Re.search. rewrite (compile_fence tag Hp). cbn [bind].
  rewrite search_fence. destruct (Spec.first_block tag response); reflexivity.
Qed.

(* ================================================================== *)
(** * Fences inside a text *)

Lemma last_char_app (a b : string) :
  last_char (a ++ b) = match last_char b with
                       | Some c => Some c
                       | None => last_char a
                       end.
Proof.
  induction a as [|c a IH]; simpl.
  - now destruct (last_char b).
  - rewrite IH. destruct (last_char b); [reflexivity|]. reflexivity.
Qed.

Lemma last_char_blank (w : string) c :
  blank w = true -> last_char w = Some c -> isspace c = true.
Proof.
  revert c; induction w as [|d w IH]; simpl; intros c Hb Hl; [discriminate|].
  apply andb_prop in Hb as [Hd Hw]. destruct (last_char w) eqn:E.
  - inversion Hl; subst. now apply IH.
  - now inversion Hl; subst.
Qed.

Lemma ends_with_tick_blank (w : string) : blank w = true -> ends_with_tick w = false.
Proof.
  intros Hb. unfold ends_with_tick. destruct (last_char w) as [c|] eqn:E; [|reflexivity].
  pose proof (last_char_blank w c Hb E) as Hc.
  destruct (Ascii.eqb_spec c "`"); [subst; discriminate | reflexivity].
Qed.

Lemma ends_with_tick_cons x y a :
  ends_with_tick (String x (String y a)) = ends_with_tick (String y a).
Proof. unfold ends_with_tick. cbn [last_char]. now destruct (last_char a). Qed.

Lemma until_fence_tail c s :
  Spec.until_fence (String c s) = None ->
  strip_prefix "```" (String c s) = None /\ Spec.until_fence s = None.
Proof.
  cbn [Spec.until_fence]. destruct (strip_prefix "```" (String c s)); [discriminate|].
  destruct (Spec.until_fence s); [discriminate|]. auto.
Qed.

Lemma until_fence_app (a b : string) :
  Spec.until_fence a = None ->
  ends_with_tick a = false \/ strip_prefix "`" b = None ->
  Spec.until_fence (a ++ b) =
  match Spec.until_fence b with
  | Some x => Some (a ++ x)
  | None => None
  end.
Proof.
  induction a as [|x a IH]; intros Ha Hb.
  - simpl. now destruct (Spec.until_fence b).
  - apply until_fence_tail in Ha as [Hx Ha].
    assert (Hb' : a = "" \/ (ends_with_tick a = false \/ strip_prefix "`" b = None)).
    { destruct a as [|y a]; [now left|]. right.
      destruct Hb as [Hb|Hb]; [left|now right].
      now rewrite ends_with_tick_cons in Hb. }
    assert (Hpre : strip_prefix "```" (String x a ++ b) = None).
    { assert (Hnb : strip_prefix "`" b = None -> forall p, strip_prefix (String "`" p) b = None).
      { intros H p. destruct b as [|b1 b]; [reflexivity|]. cbn [strip_prefix] in *.
        now destruct (Ascii.eqb "`" b1). }
      cbn [String.append strip_prefix] in Hx |- *.
      destruct (Ascii.eqb "`" x) eqn:Ex; [|reflexivity].
      destruct a as [|y a].
      - cbn [String.append]. destruct Hb as [Hb|Hb].
        + apply Ascii.eqb_eq in Ex; subst x. discriminate Hb.
        + exact (Hnb Hb "`").
      - cbn [String.append strip_prefix] in Hx |- *.
        destruct (Ascii.eqb "`" y) eqn:Ey; [|reflexivity].
        destruct a as [|z a].
        + cbn [String.append]. destruct Hb as [Hb|Hb].
          * apply Ascii.eqb_eq in Ey; subst y. discriminate Hb.
          * exact (Hnb Hb "").
        + cbn [String.append strip_prefix] in Hx |- *.
          now destruct (Ascii.eqb "`" z). }
    change (String x a ++ b) with (String x (a ++ b)) in *.
    cbn [Spec.until_fence]. rewrite Hpre.
    destruct Hb' as [->|Hb'].
    + simpl. now destruct (Spec.until_fence b).
    + rewrite (IH Ha Hb'). now destruct (Spec.until_fence b).
Qed.

Lemma until_fence_blank (w : string) : blank w = true -> Spec.until_fence w = None.
Proof.
  induction w as [|c w IH]; intros Hb; [reflexivity|].
  cbn [blank] in Hb. apply andb_prop in Hb as [Hc Hw].
  now apply until_fence_space; auto.
Qed.

Lemma lstrip_blank_app (w s : string) : blank w = true -> lstrip (w ++ s) = lstrip s.
Proof.
  induction w as [|c w IH]; simpl; intros Hb; [reflexivity|].
  apply andb_prop in Hb as [Hc Hw]. rewrite Hc. auto.
Qed.

Lemma rstrip_cons (c : ascii) (s : string) :
  rstrip (String c s) =
  match rstrip s with
  | EmptyString => if isspace c then EmptyString else String c EmptyString
  | r => String c r
  end.
Proof. reflexivity. Qed.

Lemma rstrip_blank (w : string) : blank w = true -> rstrip w = "".
Proof.
  induction w as [|c w IH]; intros Hb; [reflexivity|].
  simpl in Hb. apply andb_prop in Hb as [Hc Hw]. rewrite rstrip_cons, (IH Hw), Hc. reflexivity.
Qed.

Lemma rstrip_app_blank (s w : string) : blank w = true -> rstrip (s ++ w) = rstrip s.
Proof.
  intros Hb. induction s as [|c s IH].
  - simpl. now apply rstrip_blank.
  - cbn [String.append]. rewrite !rstrip_cons, IH. reflexivity.
Qed.

Lemma strip_commute (s : string) : rstrip (lstrip s) = lstrip (rstrip s).
Proof.
  induction s as [|c s IH]; [reflexivity|].
  cbn [lstrip]. rewrite rstrip_cons. destruct (isspace c) eqn:Hc.
  - rewrite IH. destruct (rstrip s); [reflexivity|]. cbn [lstrip]. now rewrite Hc.
  - rewrite rstrip_cons, Hc. destruct (rstrip s); cbn [lstrip]; now rewrite Hc.
Qed.

Lemma strip_blank_around (w1 s w2 : string) :
  blank w1 = true -> blank w2 = true -> strip (w1 ++ s ++ w2) = strip s.
Proof.
  intros H1 H2. unfold strip.
  rewrite (lstrip_blank_app w1 _ H1), !strip_commute, (rstrip_app_blank s w2 H2).
  reflexivity.
Qed.

Lemma lstrip_idem (s : string) : lstrip (lstrip s) = lstrip s.
Proof.
  induction s as [|c s IH]; [reflexivity|]. cbn [lstrip].
  destruct (isspace c) eqn:Hc; [exact IH|]. cbn [lstrip]. now rewrite Hc.
Qed.

Lemma strip_lstrip (s : string) : strip (lstrip s) = strip s.
Proof. unfold strip. now rewrite lstrip_idem. Qed.

(** Leading white space in front of a block content is dropped with it. *)
Lemma until_fence_lstrip (s : string) :
  match Spec.until_fence (lstrip s), Spec.until_fence s with
  | Some b', Some b => b' = lstrip b
  | None, None => True
  | _, _ => False
  end.
Proof.
  induction s as [|c s IH]; [reflexivity|].
  cbn [lstrip]. destruct (isspace c) eqn:Hc.
  - cbn [Spec.until_fence strip_prefix]. rewrite (isspace_tick c Hc).
    destruct (Spec.until_fence (lstrip s)), (Spec.until_fence s); try contradiction; auto.
    cbn [lstrip]. now rewrite Hc.
  - destruct (Spec.until_fence (String c s)) as [b|] eqn:E; [|exact I].
    cbn [Spec.until_fence] in E.
    destruct (strip_prefix "```" (String c s)).
    + now inversion E.
    + destruct (Spec.until_fence s); inversion E. cbn [lstrip]. now rewrite Hc.
Qed.

(** A block that opens at the head of the text. *)
Lemma first_block_head (tag body : string) b :
  Spec.until_fence body = Some b ->
  Spec.first_block tag ("```" ++ tag ++ body) = Some (lstrip b).
Proof.
  intros Hb.
  assert (H : Spec.block_at tag ("```" ++ tag ++ body) = Some (lstrip b)).
  { unfold Spec.block_at. rewrite <- str_app_assoc, strip_prefix_app.
    pose proof (until_fence_lstrip body) as H. rewrite Hb in H.
    destruct (Spec.until_fence (lstrip body)); [now subst | contradiction]. }
  destruct ("```" ++ tag ++ body) eqn:E; cbn [Spec.first_block]; now rewrite H.
Qed.

(** A text without any fence has no block. *)
Lemma first_block_none (tag s : string) :
  Spec.until_fence s = None -> Spec.first_block tag s = None.
Proof.
  induction s as [|c s IH]; intros H.
  - cbn. unfold Spec.block_at. cbn. reflexivity.
  - pose proof (until_fence_tail c s H) as [Hp Hs].
    cbn [Spec.first_block]. unfold Spec.block_at.
    rewrite strip_prefix_app_l, Hp. auto.
Qed.

(* ================================================================== *)
(** * The scanner of [json.loads] and the text around a JSON value *)

Lemma inert_neq c x :
  inert_char c = true -> inert_char x = false -> Ascii.eqb c x = false.
Proof. intros Hc Hx. destruct (Ascii.eqb_spec c x); [congruence | reflexivity]. Qed.

Lemma inert_neq_l c x :
  inert_char c = true -> inert_char x = false -> Ascii.eqb x c = false.
Proof. intros Hc Hx. destruct (Ascii.eqb_spec x c); [congruence | reflexivity]. Qed.

Lemma inert_not_digit c : inert_char c = true -> is_digit c = false.
Proof. intros H. each_char c; vm_compute in H; try discriminate H; reflexivity. Qed.

Lemma ws_isspace c : is_ws c = true -> isspace c = true.
Proof. intros H. each_char c; vm_compute in H; try discriminate H; reflexivity. Qed.

Lemma isspace_inert c : isspace c = true -> inert_char c = true.
Proof. intros H. unfold inert_char. now rewrite H. Qed.

Lemma blank_inert w : blank w = true -> inert w = true.
Proof.
  induction w as [|c w IH]; [reflexivity|]. cbn [blank inert]. intros H.
  apply andb_prop in H as [Hc Hw]. now rewrite (isspace_inert c Hc), IH.
Qed.

Lemma scan_token_inert c s :
  inert_char c = true -> scan_token (String c s) = Raise JSONDecodeError.
Proof. intros H. each_char c; vm_compute in H; try discriminate H; reflexivity. Qed.

(** ** String literals *)

Lemma raw_string_inert w : inert w = true -> raw_string w = None.
Proof.
  induction w as [|c w IH]; [reflexivity|]. cbn [inert]. intros H.
  apply andb_prop in H as [Hc Hw]. cbn [raw_string].
  rewrite (inert_neq c dquote Hc eq_refl), (inert_neq c "\" Hc eq_refl), (IH Hw).
  reflexivity.
Qed.

Lemma raw_string_cons c s1 :
  raw_string (String c s1) =
  if Ascii.eqb c dquote then Some (EmptyString, s1)
  else if Ascii.eqb c "\" then
    match s1 with
    | EmptyString => None
    | String e s2 =>
        match raw_string s2 with
        | Some (raw, rest) => Some (String c (String e raw), rest)
        | None => None
        end
    end
  else
    match raw_string s1 with
    | Some (raw, rest) => Some (String c raw, rest)
    | None => None
    end.
Proof. reflexivity. Qed.

Lemma raw_string_app w :
  inert w = true ->
  forall u, raw_string (u ++ w) = with_rest w (raw_string u).
Proof.
  intros Hw.
  assert (H : forall u,
             raw_string (u ++ w) = with_rest w (raw_string u)
             /\ forall c, raw_string (String c u ++ w) = with_rest w (raw_string (String c u))).
  { induction u as [|d u [IH1 IH2]].
    - split; [now apply raw_string_inert|]. intros c. cbn [String.append raw_string].
      destruct (Ascii.eqb c dquote); [reflexivity|].
      destruct (Ascii.eqb c "\").
      + destruct w as [|e w']; [reflexivity|]. cbn [inert] in Hw.
        apply andb_prop in Hw as [_ Hw']. now rewrite (raw_string_inert w' Hw').
      + now rewrite (raw_string_inert w Hw).
    - split; [apply IH2|]. intros c.
      change (String c (String d u) ++ w) with (String c (String d u ++ w)).
      rewrite (raw_string_cons c (String d u ++ w)), (raw_string_cons c (String d u)).
      destruct (Ascii.eqb c dquote); [reflexivity|].
      destruct (Ascii.eqb c "\").
      + cbn [String.append]. rewrite IH1. destruct (raw_string u) as [[raw r]|]; reflexivity.
      + rewrite IH2.
        destruct (raw_string (String d u)) as [[raw r]|]; reflexivity. }
  intros u. apply H.
Qed.

Lemma raw_string_shorter :
  forall s raw rest, raw_string s = Some (raw, rest) -> String.length rest < String.length s.
Proof.
  assert (H : forall s,
             (forall raw rest, raw_string s = Some (raw, rest) ->
                               String.length rest < String.length s)
             /\ forall c raw rest, raw_string (String c s) = Some (raw, rest) ->
                                   String.length rest < String.length (String c s)).
  { induction s as [|d s [IH1 IH2]].
    - split; [discriminate|]. intros c raw rest. cbn [raw_string].
      destruct (Ascii.eqb c dquote); [intros E; inversion E; simpl; lia|].
      destruct (Ascii.eqb c "\"); discriminate.
    - split; [apply IH2|]. intros c raw rest. rewrite (raw_string_cons c (String d s)).
      destruct (Ascii.eqb c dquote); [intros E; inversion E; simpl; lia|].
      destruct (Ascii.eqb c "\").
      + destruct (raw_string s) as [[raw' r]|] eqn:E; [|discriminate].
        intros E'; inversion E'; subst. specialize (IH1 _ _ eq_refl). simpl; lia.
      + destruct (raw_string (String d s)) as [[raw' r]|] eqn:E; [|discriminate].
        intros E'; inversion E'; subst. specialize (IH2 d _ _ E). simpl in *; lia. }
  intros s. apply H.
Qed.

(** ** Numbers *)

Lemma span_inert w : inert w = true -> span is_digit w = (EmptyString, w).
Proof.
  destruct w as [|c w]; [reflexivity|]. cbn [inert span]. intros H.
  apply andb_prop in H as [Hc _]. now rewrite (inert_not_digit c Hc).
Qed.

Lemma span_app w :
  inert w = true -> forall u, span is_digit (u ++ w) = pair_rest w (span is_digit u).
Proof.
  intros Hw. induction u as [|c u IH].
  - now apply span_inert.
  - cbn [String.append span]. destruct (is_digit c); [|reflexivity].
    rewrite IH. now destruct (span is_digit u).
Qed.

Lemma span_length p s : String.length (snd (span p s)) <= String.length s.
Proof.
  induction s as [|c s IH]; [simpl; lia|]. cbn [span].
  destruct (p c); [|simpl; lia]. destruct (span p s). simpl in *. lia.
Qed.

Lemma scan_frac_app w :
  inert w = true -> forall u, scan_frac (u ++ w) = pair_rest w (scan_frac u).
Proof.
  intros Hw u. destruct u as [|c [|d t]].
  - destruct w as [|h [|d w1]]; try reflexivity.
    cbn [inert] in Hw. apply andb_prop in Hw as [Hh _].
    cbn [String.append scan_frac]. now rewrite (inert_neq h "." Hh eq_refl).
  - destruct w as [|d w1]; [reflexivity|].
    cbn [inert] in Hw. apply andb_prop in Hw as [Hd _].
    cbn [String.append scan_frac]. rewrite (inert_not_digit d Hd), andb_false_r. reflexivity.
  - change (String c (String d t) ++ w) with (String c (String d t ++ w)).
    unfold scan_frac. cbn [String.append].
    destruct (Ascii.eqb c "." && is_digit d); [|reflexivity].
    change (String d (t ++ w)) with (String d t ++ w). rewrite (span_app w Hw).
    now destruct (span is_digit (String d t)).
Qed.

Lemma scan_frac_length s : String.length (snd (scan_frac s)) <= String.length s.
Proof.
  destruct s as [|c [|d t]]; try (simpl; lia). unfold scan_frac.
  destruct (Ascii.eqb c "." && is_digit d); [|simpl; lia].
  pose proof (span_length is_digit (String d t)).
  destruct (span is_digit (String d t)). simpl in *. lia.
Qed.

Lemma scan_exp_app w :
  inert w = true -> forall u, scan_exp (u ++ w) = pair_rest w (scan_exp u).
Proof.
  intros Hw u. destruct u as [|e t].
  - destruct w as [|h w1]; [reflexivity|].
    cbn [inert] in Hw. apply andb_prop in Hw as [Hh _].
    cbn [String.append scan_exp].
    now rewrite (inert_neq h "e" Hh eq_refl), (inert_neq h "E" Hh eq_refl).
  - cbn [String.append scan_exp].
    destruct (Ascii.eqb e "e" || Ascii.eqb e "E"); [|reflexivity].
    destruct t as [|g t1].
    + cbn [String.append]. destruct w as [|g w1]; [reflexivity|].
      pose proof Hw as Hw'. cbn [inert] in Hw'. apply andb_prop in Hw' as [Hg _].
      rewrite (inert_neq g "+" Hg eq_refl), (inert_neq g "-" Hg eq_refl). cbn [orb].
      rewrite (span_inert _ Hw). reflexivity.
    + cbn [String.append].
      destruct (Ascii.eqb g "+" || Ascii.eqb g "-").
      * rewrite (span_app w Hw). destruct (span is_digit t1) as [[|x ds] r]; reflexivity.
      * change (String g (t1 ++ w)) with (String g t1 ++ w). rewrite (span_app w Hw).
        destruct (span is_digit (String g t1)) as [[|x ds] r]; reflexivity.
Qed.

Lemma scan_exp_length s : String.length (snd (scan_exp s)) <= String.length s.
Proof.
  destruct s as [|e t]; [simpl; lia|]. cbn [scan_exp].
  destruct (Ascii.eqb e "e" || Ascii.eqb e "E"); [|simpl; lia].
  destruct t as [|g t1].
  - simpl. lia.
  - destruct (Ascii.eqb g "+" || Ascii.eqb g "-").
    + pose proof (span_length is_digit t1).
      destruct (span is_digit t1) as [[|x ds] r]; simpl in *; lia.
    + pose proof (span_length is_digit (String g t1)).
      destruct (span is_digit (String g t1)) as [[|x ds] r]; simpl in *; lia.
Qed.

Lemma scan_unsigned_app w :
  inert w = true -> forall u, scan_unsigned (u ++ w) = with_rest w (scan_unsigned u).
Proof.
  intros Hw u. destruct u as [|d r].
  - destruct w as [|h w1]; [reflexivity|].
    cbn [inert] in Hw. apply andb_prop in Hw as [Hh _].
    cbn [String.append scan_unsigned]. now rewrite (inert_not_digit h Hh).
  - cbn [String.append scan_unsigned]. destruct (is_digit d); [|reflexivity].
    assert (H : (if Ascii.eqb d "0" then (EmptyString, r ++ w) else span is_digit (r ++ w))
                = pair_rest w (if Ascii.eqb d "0" then (EmptyString, r) else span is_digit r)).
    { destruct (Ascii.eqb d "0"); [reflexivity | now apply span_app]. }
    rewrite H. clear H.
    destruct (if Ascii.eqb d "0" then (EmptyString, r) else span is_digit r) as [ds r1].
    cbn [pair_rest fst snd].
    rewrite (scan_frac_app w Hw). destruct (scan_frac r1) as [frac r2]. cbn [pair_rest fst snd].
    rewrite (scan_exp_app w Hw). destruct (scan_exp r2) as [ex r3]. reflexivity.
Qed.

Lemma scan_unsigned_shorter s lexeme rest :
  scan_unsigned s = Some (lexeme, rest) -> String.length rest < String.length s.
Proof.
  destruct s as [|d r]; [discriminate|]. cbn [scan_unsigned].
  destruct (is_digit d); [|discriminate].
  assert (H : String.length (snd (if Ascii.eqb d "0" then (EmptyString, r)
                                  else span is_digit r)) <= String.length r).
  { destruct (Ascii.eqb d "0"); [simpl; lia | apply span_length]. }
  destruct (if Ascii.eqb d "0" then _ else _) as [ds r1].
  pose proof (scan_frac_length r1). destruct (scan_frac r1) as [frac r2].
  pose proof (scan_exp_length r2). destruct (scan_exp r2) as [ex r3].
  intros E; inversion E; subst. simpl in *. lia.
Qed.

Lemma scan_number_app w :
  inert w = true -> forall u, scan_number (u ++ w) = with_rest w (scan_number u).
Proof.
  intros Hw u. destruct u as [|c r].
  - destruct w as [|h w1]; [reflexivity|].
    pose proof Hw as Hw'. cbn [inert] in Hw'. apply andb_prop in Hw' as [Hh _].
    cbn [String.append scan_number]. rewrite (inert_neq h "-" Hh eq_refl).
    apply (scan_unsigned_app _ Hw "").
  - cbn [String.append scan_number]. destruct (Ascii.eqb c "-").
    + rewrite (scan_unsigned_app w Hw). destruct (scan_unsigned r) as [[l x]|]; reflexivity.
    + apply (scan_unsigned_app w Hw (String c r)).
Qed.

Lemma scan_number_shorter s lexeme rest :
  scan_number s = Some (lexeme, rest) -> String.length rest < String.length s.
Proof.
  destruct s as [|c r]; [discriminate|]. cbn [scan_number].
  destruct (Ascii.eqb c "-").
  - destruct (scan_unsigned r) as [[l x]|] eqn:E; [|discriminate].
    intros E'; inversion E'; subst. apply scan_unsigned_shorter in E. simpl; lia.
  - apply scan_unsigned_shorter.
Qed.

(** ** Keywords *)

Lemma strip_prefix_inert w :
  inert w = true ->
  forall kw u,
    solid kw = true ->
    strip_prefix kw (u ++ w) = match strip_prefix kw u with
                               | Some r => Some (r ++ w)
                               | None => None
                               end.
Proof.
  intros Hw. induction kw as [|a kw IH]; intros u Hk; [reflexivity|].
  cbn [solid] in Hk. apply andb_prop in Hk as [Ha Hk]. apply negb_true_iff in Ha.
  destruct u as [|b u].
  - destruct w as [|h w1]; [reflexivity|].
    cbn [inert] in Hw. apply andb_prop in Hw as [Hh _].
    cbn [String.append strip_prefix]. now rewrite (inert_neq_l h a Hh Ha).
  - cbn [String.append strip_prefix]. destruct (Ascii.eqb a b); [now apply IH | reflexivity].
Qed.

Lemma strip_prefix_length kw s rest :
  strip_prefix kw s = Some rest -> String.length s = String.length kw + String.length rest.
Proof.
  revert s; induction kw as [|a kw IH]; intros s; cbn [strip_prefix].
  - intros E; inversion E; reflexivity.
  - destruct s as [|b s]; [discriminate|]. destruct (Ascii.eqb a b); [|discriminate].
    intros E. apply IH in E. simpl. lia.
Qed.

Lemma keyword_app w kw t :
  inert w = true -> solid kw = true ->
  forall u, keyword kw t (u ++ w) = token_rest w (keyword kw t u).
Proof.
  intros Hw Hk u. unfold keyword. rewrite (strip_prefix_inert w Hw kw u Hk).
  now destruct (strip_prefix kw u).
Qed.

Lemma scan_token_app w :
  inert w = true ->
  forall c u, scan_token (String c u ++ w) = token_rest w (scan_token (String c u)).
Proof.
  intros Hw c u. change (String c u ++ w) with (String c (u ++ w)). unfold scan_token.
  repeat match goal with
         | |- context [if Ascii.eqb c ?x then _ else _] =>
             destruct (Ascii.eqb c x); [try reflexivity|]
         end.
  - unfold scan_string. rewrite (raw_string_app w Hw).
    destruct (raw_string u) as [[raw r]|]; [|reflexivity]. cbn [with_rest].
    destruct (decode raw); reflexivity.
  - now apply (keyword_app w "true" TTrue Hw eq_refl (String c u)).
  - now apply (keyword_app w "false" TFalse Hw eq_refl (String c u)).
  - now apply (keyword_app w "null" TNull Hw eq_refl (String c u)).
  - now apply (keyword_app w "NaN" (TNum "NaN") Hw eq_refl (String c u)).
  - now apply (keyword_app w "Infinity" (TNum "Infinity") Hw eq_refl (String c u)).
  - change (String c (u ++ w)) with (String c u ++ w). rewrite (scan_number_app w Hw).
    destruct (scan_number (String c u)) as [[l r]|]; [reflexivity|].
    now apply (keyword_app w "-Infinity" (TNum "-Infinity") Hw eq_refl (String c u)).
Qed.

Lemma scan_token_shorter s t rest :
  scan_token s = Ok (t, rest) -> String.length rest < String.length s.
Proof.
  destruct s as [|c u]; [discriminate|]. unfold scan_token.
  assert (Hkw : forall kw tk, kw <> EmptyString ->
                  keyword kw tk (String c u) = Ok (t, rest) ->
                  String.length rest < String.length (String c u)).
  { intros kw tk Hne. unfold keyword.
    destruct (strip_prefix kw (String c u)) eqn:E; [|discriminate].
    intros E'; inversion E'; subst. apply strip_prefix_length in E. rewrite E.
    destruct kw; [congruence | simpl; lia]. }
  repeat match goal with
         | |- context [if Ascii.eqb c ?x then _ else _] =>
             destruct (Ascii.eqb c x);
             [try (intros E; inversion E; subst; simpl; lia)|]
         end;
    try (apply Hkw; discriminate).
  - unfold scan_string. destruct (raw_string u) as [[raw r]|] eqn:E; [|discriminate].
    destruct (decode raw); try discriminate. cbn [bind].
    intros E'; inversion E'; subst. apply raw_string_shorter in E. simpl; lia.
  - destruct (scan_number (String c u)) as [[l r]|] eqn:E.
    + intros E'; inversion E'; subst. now apply scan_number_shorter in E.
    + apply Hkw; discriminate.
Qed.

(** ** The token list *)

Lemma lex_cons f c s :
  lex (S f) (String c s) =
  if is_ws c then lex f s
  else '(t, rest) <- scan_token (String c s) ;; ts <- lex f rest ;; Ok (t :: ts).
Proof. reflexivity. Qed.

(** Any fuel above the length of the text gives the same tokens. *)
Lemma lex_enough :
  forall f f' s, String.length s < f -> String.length s < f' -> lex f s = lex f' s.
Proof.
  induction f as [|f IH]; intros f' s Hf Hf'; [lia|].
  destruct f' as [|f']; [lia|]. destruct s as [|c s]; [reflexivity|].
  rewrite !lex_cons. simpl in Hf, Hf'. destruct (is_ws c).
  - apply IH; lia.
  - destruct (scan_token (String c s)) as [[t rest]| |] eqn:E; try reflexivity.
    apply scan_token_shorter in E. simpl in E. cbn [bind].
    rewrite (IH f' rest); [reflexivity | lia | lia].
Qed.

Lemma lex_app w :
  inert w = true ->
  forall f u, String.length (u ++ w) < f ->
    lex f (u ++ w) = (ts1 <- lex f u ;; ts2 <- lex f w ;; Ok (ts1 ++ ts2)%list).
Proof.
  intros Hw. induction f as [|f IH]; intros u Hf; [lia|].
  destruct u as [|c u].
  - cbn [String.append]. change (lex (S f) "") with (@Ok (list token) []).
    cbn [bind]. destruct (lex (S f) w); reflexivity.
  - change (String c u ++ w) with (String c (u ++ w)) in *. simpl in Hf.
    rewrite !lex_cons. rewrite str_length_app in Hf.
    assert (Hfw : lex (S f) w = lex f w) by (apply lex_enough; lia).
    destruct (is_ws c).
    + rewrite IH by (rewrite str_length_app; lia). now rewrite Hfw.
    + change (String c (u ++ w)) with (String c u ++ w). rewrite (scan_token_app w Hw).
      destruct (scan_token (String c u)) as [[t r]| |] eqn:E; try reflexivity.
      apply scan_token_shorter in E. simpl in E. cbn [token_rest bind].
      rewrite IH by (rewrite str_length_app; lia). rewrite Hfw.
      destruct (lex f r); try reflexivity. cbn [bind].
      destruct (lex f w); reflexivity.
Qed.

Lemma lex_blank w :
  blank w = true -> forall f ts, lex f w = Ok ts -> ts = [].
Proof.
  induction w as [|c w IH]; intros Hb f ts.
  - destruct f; [discriminate|]. cbn. intros E; now inversion E.
  - cbn [blank] in Hb. apply andb_prop in Hb as [Hc Hw].
    destruct f; [discriminate|]. rewrite lex_cons. destruct (is_ws c).
    + now apply IH.
    + rewrite (scan_token_inert c w (isspace_inert c Hc)). discriminate.
Qed.

Lemma lstrip_length s : String.length (lstrip s) <= String.length s.
Proof.
  induction s as [|c s IH]; [simpl; lia|]. cbn [lstrip]. destruct (isspace c); simpl in *; lia.
Qed.

Lemma lex_lstrip :
  forall s f ts, String.length s < f -> lex f s = Ok ts -> lex f (lstrip s) = Ok ts.
Proof.
  induction s as [|c s IH]; intros f ts Hf E; [exact E|].
  cbn [lstrip]. destruct (isspace c) eqn:Hc; [|exact E].
  destruct f as [|f]; [discriminate|]. rewrite lex_cons in E. simpl in Hf.
  destruct (is_ws c).
  - pose proof (lstrip_length s).
    rewrite (lex_enough (S f) f) by lia. apply IH; [lia | exact E].
  - rewrite (scan_token_inert c s (isspace_inert c Hc)) in E. discriminate.
Qed.

Lemma rstrip_split s : exists w, blank w = true /\ s = rstrip s ++ w.
Proof.
  induction s as [|c s [w [Hw IH]]]; [now exists ""|].
  rewrite rstrip_cons. destruct (rstrip s) as [|d r] eqn:E.
  - cbn [String.append] in IH. subst w. destruct (isspace c) eqn:Hc.
    + exists (String c s). cbn [blank]. now rewrite Hc, Hw.
    + now exists s.
  - exists w. split; [exact Hw|].
    change (String c (String d r) ++ w) with (String c (String d r ++ w)).
    now rewrite <- IH.
Qed.

Lemma rstrip_length s : String.length (rstrip s) <= String.length s.
Proof.
  destruct (rstrip_split s) as [w [_ E]]. rewrite E at 2. rewrite str_length_app. lia.
Qed.

Lemma lex_rstrip :
  forall s f ts, String.length s < f -> lex f s = Ok ts -> lex f (rstrip s) = Ok ts.
Proof.
  intros s f ts Hf E. destruct (rstrip_split s) as [w [Hw Hs]].
  rewrite Hs in E, Hf. rewrite (lex_app w (blank_inert w Hw)) in E by exact Hf.
  destruct (lex f (rstrip s)) as [ts1| |]; try discriminate. cbn [bind] in E.
  destruct (lex f w) as [ts2| |] eqn:E2; try discriminate. cbn [bind] in E.
  apply (lex_blank w Hw) in E2. subst ts2. rewrite app_nil_r in E. exact E.
Qed.

(** The tokens of a text, whatever the fuel. *)
Lemma lex_strip s ts :
  lex (S (String.length s)) s = Ok ts ->
  lex (S (String.length (strip s))) (strip s) = Ok ts.
Proof.
  intros E. unfold strip.
  pose proof (lstrip_length s). pose proof (rstrip_length (lstrip s)).
  rewrite (lex_enough _ (S (String.length s))) by lia.
  apply lex_rstrip; [lia|]. apply lex_lstrip; [lia | exact E].
Qed.

(** White space of [str.strip] around a JSON text does not change what
    [json.loads] makes of it. *)
Lemma loads_strip s v : Json.loads s = Ok v -> Json.loads (strip s) = Ok v.
Proof.
  unfold Json.loads. destruct (lex (S (String.length s)) s) as [ts| |] eqn:E; try discriminate.
  rewrite (lex_strip s ts E). auto.
Qed.

Lemma ends_with_tick_split s :
  ends_with_tick s = true -> exists u, s = u ++ "`".
Proof.
  unfold ends_with_tick. induction s as [|c s IH]; [discriminate|].
  cbn [last_char]. destruct (last_char s) as [d|] eqn:E.
  - intros H. destruct (IH H) as [u ->]. now exists (String c u).
  - intros H. apply Ascii.eqb_eq in H. subst c. exists "".
    destruct s as [|x s]; [reflexivity|]. simpl in E. destruct (last_char s); discriminate.
Qed.

(** No JSON text ends with a backtick. *)
Lemma loads_no_tick s v : Json.loads s = Ok v -> ends_with_tick s = false.
Proof.
  intros H. destruct (ends_with_tick s) eqn:E; [|reflexivity]. exfalso.
  destruct (ends_with_tick_split s E) as [u ->]. unfold Json.loads in H.
  rewrite (lex_app "`" eq_refl) in H by lia.
  destruct (lex _ u); discriminate.
Qed.

Lemma until_fence_some s : forall b,
  Spec.until_fence s = Some b -> exists rest, s = b ++ "```" ++ rest.
Proof.
  induction s as [|c s IH]; intros b; cbn [Spec.until_fence].
  - cbn. discriminate.
  - destruct (strip_prefix "```" (String c s)) as [rest|] eqn:E.
    + intros H; inversion H; subst. exists rest.
      clear IH. cbn [String.append].
      destruct s as [|c2 [|c3 s]]; cbn [strip_prefix] in E;
        repeat match type of E with
               | (if Ascii.eqb ?a ?b then _ else _) = _ =>
                   destruct (Ascii.eqb_spec a b); [subst|discriminate]
               | None = Some _ => discriminate
               end.
      cbn [strip_prefix] in E. now inversion E.
    + destruct (Spec.until_fence s) as [b'|]; [|discriminate].
      intros H; inversion H; subst. destruct (IH b' eq_refl) as [rest ->].
      now exists rest.
Qed.

Lemma until_fence_found a : forall b, Spec.until_fence (a ++ "```" ++ b) <> None.
Proof.
  intros b. remember ("```" ++ b) as t eqn:Et.
  assert (Ht : Spec.until_fence t <> None) by (subst t; discriminate).
  clear Et. induction a as [|c a IH]; [exact Ht|].
  change (String c a ++ t) with (String c (a ++ t)). cbn [Spec.until_fence].
  destruct (strip_prefix "```" (String c (a ++ t))); [discriminate|].
  destruct (Spec.until_fence (a ++ t)); [discriminate | exact IH].
Qed.

(** [until_fence s = None] says that three backticks in a row occur nowhere
    in [s]. *)
Lemma until_fence_none_iff s :
  Spec.until_fence s = None <-> forall a b, s <> a ++ "```" ++ b.
Proof.
  split.
  - intros H a b ->. now apply (until_fence_found a b).
  - intros H. destruct (Spec.until_fence s) as [x|] eqn:E; [|reflexivity].
    destruct (until_fence_some s x E) as [rest Hs]. now apply H in Hs.
Qed.

(** The extractor on a text without fence, and on the same text inside a
    fenced block. *)
Lemma extract_x_bare text tag :
  Spec.plain tag = true -> Spec.until_fence text = None ->
  extract_x text tag = Ok text.
Proof.
  intros Hp Hf. rewrite (extract_x_fence text tag Hp), (first_block_none tag text Hf).
  reflexivity.
Qed.

Lemma extract_x_wrapped text tag w1 w2 post :
  Spec.plain tag = true -> Spec.until_fence text = None -> ends_with_tick text = false ->
  blank w1 = true -> blank w2 = true ->
  extract_x ("```" ++ tag ++ w1 ++ text ++ w2 ++ "```" ++ post) tag = Ok (strip text).
Proof.
  intros Hp Hf Ht H1 H2. rewrite (extract_x_fence _ tag Hp).
  assert (Hbody : Spec.until_fence (w1 ++ text ++ w2 ++ "```" ++ post)
                  = Some (w1 ++ text ++ w2)).
  { assert (Hin : Spec.until_fence (w1 ++ text ++ w2) = None).
    { rewrite until_fence_app.
      - rewrite until_fence_app; [now rewrite (until_fence_blank w2 H2) | exact Hf | now left].
      - now apply until_fence_blank.
      - left. now apply ends_with_tick_blank. }
    replace (w1 ++ text ++ w2 ++ "```" ++ post) with ((w1 ++ text ++ w2) ++ "```" ++ post)
      by now rewrite !str_app_assoc.
    rewrite until_fence_app; [cbn; now rewrite str_app_nil_r | exact Hin |].
    left. unfold ends_with_tick in *. rewrite !last_char_app.
    destruct (last_char w2) as [c|] eqn:E2.
    - pose proof (last_char_blank w2 c H2 E2) as Hc.
      destruct (Ascii.eqb_spec c "`"); [subst; discriminate | reflexivity].
    - destruct (last_char text); [exact Ht|].
      destruct (last_char w1) as [c|] eqn:E1; [|reflexivity].
      pose proof (last_char_blank w1 c H1 E1) as Hc.
      destruct (Ascii.eqb_spec c "`"); [subst; discriminate | reflexivity]. }
  rewrite (first_block_head tag _ _ Hbody), strip_lstrip.
  now rewrite (strip_blank_around w1 text w2 H1 H2).
Qed.

(* ================================================================== *)
(** * C3: extractor, then parser *)

(** C3, as stated, fails: a valid three-key plan one of whose values holds
    a fenced block is not recovered; the extractor cuts the block out of the
    value and the parser rejects what is left. *)
Lemma fenced_value_not_recovered :
  Json.loads fenced_value_text = Ok (plan (JStr "```json X```") (JStr "Y") (JStr "Z"))
  /\ parse_plan fenced_value_text = Raise JSONDecodeError.
Proof. split; vm_compute; reflexivity. Qed.

(** C3, amended: for every text that [json.loads] accepts (a three-key plan
    in particular) and that holds no run of three backticks, the extractor
    followed by the parser yields the value [json.loads] yields on the bare
    text, whether the text comes bare or inside a fenced block tagged json,
    with any white space around it and anything after the closing fence. *)
Theorem extract_then_parse_recovers_plan
        (text : string) (job : value) (w1 w2 post : string)
        (Hvalid : Json.loads text = Ok job)
        (Hfence : Spec.until_fence text = None)
        (Hw1 : blank w1 = true) (Hw2 : blank w2 = true) :
  parse_plan text = Ok job
  /\ parse_plan ("```json" ++ w1 ++ text ++ w2 ++ "```" ++ post) = Ok job.
Proof.
  unfold parse_plan. split.
  - now rewrite (extract_x_bare text "json" eq_refl Hfence).
  - change ("```json" ++ w1 ++ text ++ w2 ++ "```" ++ post)
      with ("```" ++ "json" ++ w1 ++ text ++ w2 ++ "```" ++ post).
    rewrite (extract_x_wrapped text "json" w1 w2 post eq_refl Hfence
               (loads_no_tick text job Hvalid) Hw1 Hw2).
    cbn [bind]. now apply loads_strip.
Qed.

Lemma extract_then_parse_recovers_plan_witness :
  parse_plan (plan_text "X" "Y" "Z") = Ok (plan (JStr "X") (JStr "Y") (JStr "Z"))
  /\ parse_plan ("```json" ++ " " ++ plan_text "X" "Y" "Z" ++ " " ++ "```" ++ "")
     = Ok (plan (JStr "X") (JStr "Y") (JStr "Z")).
Proof.
  apply (extract_then_parse_recovers_plan (plan_text "X" "Y" "Z")
           (plan (JStr "X") (JStr "Y") (JStr "Z")) " " " " "");
    vm_compute; reflexivity.
Defined.

(* ================================================================== *)
(** * C4: the extractor *)

(** C4, as stated, fails: the tag is spliced into the pattern as it comes,
    and a tag that is not a well-formed pattern makes [re.search] raise. *)
Lemma extract_x_raises_on_parenthesis : extract_x "x" "(" = Raise ReError.
Proof. vm_compute. reflexivity. Qed.

(** The content is trimmed on both sides. *)
Example extract_x_trims : extract_x "```json  a  ``` b" "json" = Ok "a".
Proof. vm_compute. reflexivity. Qed.

(** The tag is matched as the beginning of what follows the backticks: a
    block tagged jsonl counts for json, and the rest of its tag is content. *)
Example extract_x_takes_longer_tag : extract_x "```jsonl {} ```" "json" = Ok "l {}".
Proof. vm_compute. reflexivity. Qed.

Lemma strip_prefix_some (p : string) :
  forall s rest, strip_prefix p s = Some rest -> s = p ++ rest.
Proof.
  induction p as [|a p IH]; intros s rest H.
  - cbn in H. now injection H as ->.
  - destruct s as [|b s]; [discriminate|]. cbn [strip_prefix] in H.
    destruct (Ascii.eqb_spec a b) as [->|]; [|discriminate].
    cbn [String.append]. now rewrite (IH s rest H).
Qed.

(** Before the first three backticks no block starts. *)
Lemma no_fence_at_head (c : ascii) (pre t : string) :
  Spec.until_fence (String c pre) = None ->
  ends_with_tick (String c pre) = false ->
  strip_prefix "```" (String c pre ++ t) = None.
Proof.
  intros Hf Ht.
  destruct (until_fence_tail c pre Hf) as [Hp _].
  cbn [String.append strip_prefix] in *.
  destruct (Ascii.eqb "`" c) eqn:Ec; [|reflexivity].
  destruct pre as [|c2 pre].
  { apply Ascii.eqb_eq in Ec. subst c. discriminate Ht. }
  cbn [String.append strip_prefix] in *.
  destruct (Ascii.eqb "`" c2) eqn:Ec2; [|reflexivity].
  destruct pre as [|c3 pre].
  { apply Ascii.eqb_eq in Ec2. subst c2. rewrite ends_with_tick_cons in Ht. discriminate Ht. }
  cbn [String.append strip_prefix] in *.
  destruct (Ascii.eqb "`" c3) eqn:Ec3; [discriminate Hp | reflexivity].
Qed.

Lemma ends_with_tick_tail (c d : ascii) (s : string) :
  ends_with_tick (String c (String d s)) = false -> ends_with_tick (String d s) = false.
Proof. now rewrite ends_with_tick_cons. Qed.

Lemma first_block_skip (tag pre t : string) :
  Spec.until_fence pre = None ->
  ends_with_tick pre = false ->
  Spec.first_block tag (pre ++ "```" ++ t) = Spec.first_block tag ("```" ++ t).
Proof.
  induction pre as [|c pre IH]; intros Hf Ht; [reflexivity|].
  change (String c pre ++ "```" ++ t) with (String c (pre ++ "```" ++ t)).
  cbn [Spec.first_block].
  assert (Hat : Spec.block_at tag (String c (pre ++ "```" ++ t)) = None).
  { unfold Spec.block_at.
    destruct (strip_prefix ("```" ++ tag) (String c (pre ++ "```" ++ t))) as [r|] eqn:E;
      [|reflexivity].
    exfalso. rewrite strip_prefix_app_l in E.
    pose proof (no_fence_at_head c pre ("```" ++ t) Hf Ht) as Hn.
    change (String c pre ++ "```" ++ t) with (String c (pre ++ "```" ++ t)) in Hn.
    rewrite Hn in E. discriminate. }
  rewrite Hat. destruct pre as [|d pre]; [reflexivity|].
  apply IH.
  - now destruct (until_fence_tail c _ Hf).
  - now apply (ends_with_tick_tail c).
Qed.

(** A place where the tag opens and no fence closes is no block, and
    neither is any place where the tag does not open. *)
Lemma first_block_unclosed (tag : string) :
  forall s,
    (forall pre rest, s = pre ++ "```" ++ tag ++ rest -> Spec.until_fence rest = None) ->
    Spec.first_block tag s = None.
Proof.
  assert (Hat : forall s,
             (forall pre rest, s = pre ++ "```" ++ tag ++ rest ->
                               Spec.until_fence rest = None) ->
             Spec.block_at tag s = None).
  { intros s H. unfold Spec.block_at.
    destruct (strip_prefix ("```" ++ tag) s) as [r|] eqn:E; [|reflexivity].
    apply strip_prefix_some in E.
    assert (Hr : Spec.until_fence r = None).
    { apply (H "" r). rewrite E. now rewrite str_app_assoc. }
    pose proof (until_fence_lstrip r) as Hl. rewrite Hr in Hl.
    destruct (Spec.until_fence (lstrip r)); [contradiction | reflexivity]. }
  induction s as [|c s IH]; intros H; cbn [Spec.first_block]; rewrite (Hat _ H); [reflexivity|].
  apply IH. intros pre rest ->. apply (H (String c pre) rest). reflexivity.
Qed.

(** C4, amended: for every response and every tag made of characters that
    are not special in a pattern, [extract_x] does not raise.  When the
    first three backticks of the response are followed by the tag, and
    three backticks come again after that, it returns what stands between
    the tag and these next backticks, trimmed of white space on both sides;
    the tag need only begin what follows the opening backticks, so that a
    block tagged jsonl is taken for the tag json, with the l as content.
    When no place of the response where three backticks and the tag stand
    has three backticks after it, it returns the response unchanged.  In
    general it returns the trimmed content of the earliest such place. *)
Theorem extract_x_first_block (response tag : string)
        (Hplain : Spec.plain tag = true) :
  extract_x response tag =
  Ok match Spec.first_block tag response with
     | Some content => strip content
     | None => response
     end
  /\ (forall pre content post,
         response = pre ++ "```" ++ tag ++ content ++ "```" ++ post ->
         Spec.until_fence pre = None -> ends_with_tick pre = false ->
         Spec.until_fence content = None -> ends_with_tick content = false ->
         extract_x response tag = Ok (strip content))
  /\ ((forall pre rest, response = pre ++ "```" ++ tag ++ rest ->
                        Spec.until_fence rest = None) ->
      extract_x response tag = Ok response).
Proof.
  split; [now apply extract_x_fence|]. split.
  - intros pre content post -> Hpre Htick Hc Hct.
    rewrite (extract_x_fence _ tag Hplain).
    rewrite (first_block_skip tag pre _ Hpre Htick).
    assert (Hbody : Spec.until_fence (content ++ "```" ++ post) = Some content).
    { rewrite until_fence_app; [cbn; now rewrite str_app_nil_r | exact Hc | now left]. }
    rewrite (first_block_head tag _ _ Hbody). now rewrite strip_lstrip.
  - intros H. rewrite (extract_x_fence _ tag Hplain), (first_block_unclosed tag response H).
    reflexivity.
Qed.

Lemma extract_x_first_block_witness :
  extract_x ("see " ++ "```" ++ "json" ++ (nl ++ "{}" ++ nl) ++ "```" ++ " end") "json"
  = Ok (strip (nl ++ "{}" ++ nl)).
Proof.
  apply (proj1 (proj2 (extract_x_first_block
                         ("see " ++ "```" ++ "json" ++ (nl ++ "{}" ++ nl) ++ "```" ++ " end")
                         "json" eq_refl))
               "see " (nl ++ "{}" ++ nl) " end");
    reflexivity.
Defined.

(* ================================================================== *)
(** * The orchestrator *)

(** [flow] up to the parsed plan. *)
Lemma flow_plan_stage (job_json_planner unified_instructions : string) (E : env)
      (ad : image) (brand_info : string) (logo product : image) (w : world) :
  flow job_json_planner unified_instructions E ad brand_info logo product w =
  match Fmt.format job_json_planner [brand_info] with
  | Ok p0 =>
      match generate_content E (List.length (calls w)) (planner_call p0 ad logo product) with
      | Ok r0 =>
          mbind (lift (match text r0 with
                       | Some t => parse_plan t
                       | None => Raise TypeError
                       end))
                (fun job =>
                   text_swap <~ lift (getitem job "text_swap") ;;
                   product_swap <~ lift (getitem job "product_swap") ;;
                   edits <~ lift (getitem job "edits") ;;
                   render_prompt <~ lift (Fmt.format (job_unified unified_instructions)
                                            [to_str E text_swap; to_str E product_swap;
                                             to_str E edits]) ;;
                   '(output, usage_1) <~ gemini_image_response E render_prompt
                                           [Pil ad; Pil logo; Pil product] image_model ;;
                   ret (output,
                        {| input_tokens := 0 + input_tokens (usage_of r0) + input_tokens usage_1;
                           output_tokens := 0 + output_tokens (usage_of r0)
                                            + output_tokens usage_1 |}))
                (log_call (planner_call p0 ad logo product) w)
      | Raise e => (Raise e, log_call (planner_call p0 ad logo product) w)
      | Beyond => (Beyond, log_call (planner_call p0 ad logo product) w)
      end
  | Raise e => (Raise e, w)
  | Beyond => (Beyond, w)
  end.
Proof.
  cbv [flow mbind lift ret gemini_response call mapM to_pil log_call planner_call].
  destruct (Fmt.format job_json_planner [brand_info]); try reflexivity.
  destruct (generate_content E _ _); reflexivity.
Qed.

Lemma mbind_lift_ok {A B : Type} (a : A) (f : A -> M B) (w : world) :
  mbind (lift (Ok a)) f w = f a w.
Proof. reflexivity. Qed.

Lemma mapM_pil (E : env) (imgs : list image) (w : world) :
  mapM (to_pil E) (map Pil imgs) w = (Ok imgs, w).
Proof.
  induction imgs as [|i imgs IH]; [reflexivity|].
  cbn [map mapM to_pil]. unfold mbind at 1. unfold ret at 1. unfold mbind at 1.
  rewrite IH. reflexivity.
Qed.

Lemma gemini_response_pil (E : env) (p : string) (imgs : list image) (m : string) (w : world) :
  let c := {| model := m; prompt := p; attachments := imgs; image_mode := false |} in
  gemini_response E p (map Pil imgs) m w =
  match generate_content E (List.length (calls w)) c with
  | Ok r => (Ok (text r, usage_of r), log_call c w)
  | Raise e => (Raise e, log_call c w)
  | Beyond => (Beyond, log_call c w)
  end.
Proof.
  intros c. unfold gemini_response, mbind at 1. rewrite mapM_pil.
  unfold mbind, call, ret, log_call. fold c. destruct (generate_content E _ c); reflexivity.
Qed.

Lemma gemini_image_response_pil (E : env) (p : string) (imgs : list image) (m : string)
      (w : world) :
  let c := {| model := m; prompt := p; attachments := imgs; image_mode := true |} in
  gemini_image_response E p (map Pil imgs) m w =
  match generate_content E (List.length (calls w)) c with
  | Ok r =>
      match parts r with
      | Ok ps => (Ok (first_inline ps, usage_of r), log_call c w)
      | Raise e => (Raise e, log_call c w)
      | Beyond => (Beyond, log_call c w)
      end
  | Raise e => (Raise e, log_call c w)
  | Beyond => (Beyond, log_call c w)
  end.
Proof.
  intros c. unfold gemini_image_response, mbind at 1. rewrite mapM_pil.
  unfold mbind, call, ret, lift, log_call. fold c.
  destruct (generate_content E _ c) as [r| |]; reflexivity.
Qed.

Lemma usage_add_comm (a b : usage) : usage_add a b = usage_add b a.
Proof. unfold usage_add. f_equal; lia. Qed.

Lemma usage_add_assoc (a b c : usage) :
  usage_add a (usage_add b c) = usage_add (usage_add a b) c.
Proof. unfold usage_add; cbn. f_equal; lia. Qed.

Lemma total_from (field : usage -> Z) (us : list usage) (a : Z) :
  fold_left (fun acc u => (acc + field u)%Z) us a = (a + total field us)%Z.
Proof.
  unfold total. revert a. induction us as [|u us IH]; intros a; cbn [fold_left]; [lia|].
  rewrite (IH (a + field u)%Z), (IH (0 + field u)%Z). lia.
Qed.

Lemma total_cons (field : usage -> Z) (u : usage) (us : list usage) :
  total field (u :: us) = (field u + total field us)%Z.
Proof. unfold total at 1. cbn [fold_left]. rewrite total_from. lia. Qed.

Lemma total_perm (field : usage -> Z) (us us' : list usage) :
  Permutation us us' -> total field us = total field us'.
Proof.
  induction 1; rewrite ?total_cons; lia.
Qed.

(* ================================================================== *)
(** * C5: usage is summed field by field *)

(** C5: a run of [flow] that succeeds has made two calls, and the usage it
    returns is the field-wise sum of the usage records of the two answers;
    that sum is commutative and associative, and the totals over a batch do
    not depend on the order of the runs' results. *)
Theorem flow_usage_is_fieldwise_sum
        (job_json_planner unified_instructions : string) (E : env)
        (ad : image) (brand_info : string) (logo product : image)
        (w w' : world) (img : option bytes) (u : usage) (us us' : list usage)
        (Hrun : flow job_json_planner unified_instructions E ad brand_info logo product w
                = (Ok (img, u), w'))
        (Hperm : Permutation us us') :
  (exists p0 p1 r0 r1,
      calls w' = (calls w ++ [planner_call p0 ad logo product;
                              render_call p1 ad logo product])%list
      /\ generate_content E (List.length (calls w)) (planner_call p0 ad logo product) = Ok r0
      /\ generate_content E (S (List.length (calls w))) (render_call p1 ad logo product) = Ok r1
      /\ u = usage_add (usage_of r0) (usage_of r1))
  /\ (forall a b, usage_add a b = usage_add b a)
  /\ (forall a b c, usage_add a (usage_add b c) = usage_add (usage_add a b) c)
  /\ total input_tokens us = total input_tokens us'
  /\ total output_tokens us = total output_tokens us'.
Proof.
  split; [|split; [exact usage_add_comm | split; [exact usage_add_assoc|]]].
  - rewrite flow_plan_stage in Hrun.
    destruct (Fmt.format job_json_planner [brand_info]) as [p0| |]; try discriminate Hrun.
    destruct (generate_content E _ (planner_call p0 ad logo product)) as [r0| |] eqn:E0;
      try discriminate Hrun.
    unfold mbind at 1, lift at 1 in Hrun.
    destruct (match text r0 with Some t => parse_plan t | None => Raise TypeError end)
      as [job| |]; try discriminate Hrun.
    unfold mbind at 1, lift at 1 in Hrun.
    destruct (getitem job "text_swap") as [ts| |]; try discriminate Hrun.
    unfold mbind at 1, lift at 1 in Hrun.
    destruct (getitem job "product_swap") as [ps| |]; try discriminate Hrun.
    unfold mbind at 1, lift at 1 in Hrun.
    destruct (getitem job "edits") as [ed| |]; try discriminate Hrun.
    unfold mbind at 1, lift at 1 in Hrun.
    destruct (Fmt.format _ _) as [p1| |]; try discriminate Hrun.
    unfold mbind at 1 in Hrun.
    change [Pil ad; Pil logo; Pil product] with (map Pil [ad; logo; product]) in Hrun.
    rewrite gemini_image_response_pil in Hrun. cbv zeta in Hrun.
    fold (render_call p1 ad logo product) in Hrun.
    assert (Hlen : List.length (calls (log_call (planner_call p0 ad logo product) w))
                   = S (List.length (calls w))).
    { unfold log_call; cbn. rewrite length_app. cbn. lia. }
    rewrite Hlen in Hrun.
    destruct (generate_content E _ (render_call p1 ad logo product)) as [r1| |] eqn:E1;
      try discriminate Hrun.
    destruct (parts r1) as [parts1| |]; try discriminate Hrun.
    unfold ret in Hrun. inversion Hrun; subst.
    exists p0, p1, r0, r1. repeat split; auto.
    + unfold log_call; cbn. now rewrite <- app_assoc.
  - split; now apply total_perm.
Qed.

Lemma flow_usage_is_fieldwise_sum_witness :
  (exists p0 p1 r0 r1,
      calls (log_call (render_call
                         ("do:" ++ "[CAMPAIGN DATA]:" ++ nl ++ "X" ++ nl ++ nl
                          ++ "[GUIDELINES]:" ++ nl ++ "Y" ++ nl ++ nl
                          ++ "[EDIT INSTRUCTIONS]:" ++ nl ++ "Z" ++ nl) "ref" "logo" "shoe")
               (log_call (planner_call "plan: brand" "ref" "logo" "shoe") empty_world))
      = (calls empty_world ++ [planner_call p0 "ref" "logo" "shoe";
                               render_call p1 "ref" "logo" "shoe"])%list
      /\ generate_content good_env (List.length (calls empty_world))
           (planner_call p0 "ref" "logo" "shoe") = Ok r0
      /\ generate_content good_env (S (List.length (calls empty_world)))
           (render_call p1 "ref" "logo" "shoe") = Ok r1
      /\ {| input_tokens := 13; output_tokens := 12 |} = usage_add (usage_of r0) (usage_of r1))
  /\ (forall a b, usage_add a b = usage_add b a)
  /\ (forall a b c, usage_add a (usage_add b c) = usage_add (usage_add a b) c)
  /\ total input_tokens [ {| input_tokens := 10; output_tokens := 5 |};
                          {| input_tokens := 3; output_tokens := 7 |} ]
     = total input_tokens [ {| input_tokens := 3; output_tokens := 7 |};
                            {| input_tokens := 10; output_tokens := 5 |} ]
  /\ total output_tokens [ {| input_tokens := 10; output_tokens := 5 |};
                           {| input_tokens := 3; output_tokens := 7 |} ]
     = total output_tokens [ {| input_tokens := 3; output_tokens := 7 |};
                             {| input_tokens := 10; output_tokens := 5 |} ].
Proof.
  apply (flow_usage_is_fieldwise_sum "plan: {}" "do:" good_env "ref" "brand" "logo" "shoe"
           empty_world _ (Some "PNG") _).
  - vm_compute. reflexivity.
  - apply perm_swap.
Defined.

(* ================================================================== *)
(** * C6: a malformed plan aborts the run before the image call *)

(** C6: when the planner's answer, once extracted, is not valid JSON, or
    parses to an object that lacks one of the three keys, [flow] raises; the
    only call made is the planner call (the image call does not fire), no
    file is touched and no value is returned. *)
Theorem malformed_plan_aborts_before_render
        (job_json_planner unified_instructions : string) (E : env)
        (ad : image) (brand_info : string) (logo product : image)
        (w : world) (p0 : string) (r0 : response) (t : string)
        (Hprompt : Fmt.format job_json_planner [brand_info] = Ok p0)
        (Hcall : generate_content E (List.length (calls w)) (planner_call p0 ad logo product)
                 = Ok r0)
        (Htext : text r0 = Some t)
        (Hbad : (exists x e, extract_x t "json" = Ok x /\ Json.loads x = Raise e)
                \/ (exists d k, parse_plan t = Ok (JObj d)
                                /\ In k ["text_swap"; "product_swap"; "edits"]
                                /\ dict_get k d = None)) :
  exists e,
    flow job_json_planner unified_instructions E ad brand_info logo product w
    = (Raise e, log_call (planner_call p0 ad logo product) w).
Proof.
  rewrite flow_plan_stage, Hprompt, Hcall, Htext.
  destruct Hbad as [[x [e [Hx He]]] | [d [k [Hjob [Hk Hmiss]]]]].
  - exists e. unfold parse_plan. rewrite Hx. cbn [bind]. rewrite He. reflexivity.
  - rewrite Hjob. unfold mbind at 1, lift at 1. cbn [getitem].
    destruct (dict_get "text_swap" d) as [ts|] eqn:E1;
      [|eexists; reflexivity].
    unfold mbind at 1, lift at 1.
    destruct (dict_get "product_swap" d) as [ps|] eqn:E2;
      [|eexists; reflexivity].
    unfold mbind at 1, lift at 1.
    destruct (dict_get "edits" d) as [ed|] eqn:E3;
      [|eexists; reflexivity].
    exfalso. cbn [In] in Hk.
    destruct Hk as [<-|[<-|[<-|[]]]]; congruence.
Qed.

Lemma malformed_plan_aborts_before_render_witness :
  exists e,
    flow "plan: {}" "do:" (sample_env bad_plan_response sample_image_response [])
         "ref" "brand" "logo" "shoe" empty_world
    = (Raise e, log_call (planner_call "plan: brand" "ref" "logo" "shoe") empty_world).
Proof.
  apply (malformed_plan_aborts_before_render "plan: {}" "do:"
           (sample_env bad_plan_response sample_image_response [])
           "ref" "brand" "logo" "shoe" empty_world "plan: brand" bad_plan_response
           "Sorry, no plan today.").
  - reflexivity.
  - reflexivity.
  - reflexivity.
  - left. exists "Sorry, no plan today.", JSONDecodeError. split; vm_compute; reflexivity.
Defined.

(* ================================================================== *)
(** * C8: usage extraction *)

Lemma count_or_zero_nonneg (obj : option usage_counts) (field : usage_counts -> attr Z) :
  (forall u, obj = Some u -> count_ok (field u)) -> (0 <= count_or_zero obj field)%Z.
Proof.
  intros H. unfold count_or_zero. destruct obj as [u|]; [|lia].
  specialize (H u eq_refl). destruct (field u) as [|[n|]]; cbn in H; lia.
Qed.

Lemma count_or_zero_reported (u : usage_counts) (field : usage_counts -> attr Z) :
  count_or_zero (Some u) field = reported (field u).
Proof. unfold count_or_zero, reported. now destruct (field u) as [|[n|]]. Qed.

(** C8, as stated, fails in its last part: the counts are passed on as the
    response carries them, a negative one included. *)
Lemma negative_count_is_passed_on :
  fst (gemini_response (sample_env negative_response sample_image_response []) "p" []
                       text_model empty_world)
  = Ok (Some "ok", {| input_tokens := -1; output_tokens := 4 |}).
Proof. vm_compute. reflexivity. Qed.

(** C8, amended: whatever the shape of the response, the usage record both
    adapter operations return is read off the [usage_metadata] object when
    the response has that attribute, else off the [usage] object when it has
    that one: each field is the count the object holds, and zero when the
    object is [None] or the count is missing or [None]; with neither
    attribute both fields are zero.  A call the model answers succeeds with
    that record, whatever the usage information.  The fields are not
    negative when the counts the response carries are not. *)
Theorem usage_extraction_tolerates_shapes (r : response) :
  (forall u, usage_metadata r = Attr (Some u) -> usage_of r = usage_from u)
  /\ (usage_metadata r = Attr None -> usage_of r = usage_zero)
  /\ (forall u, usage_metadata r = NoAttr -> usage_field r = Attr (Some u) ->
                usage_of r = usage_from u)
  /\ (usage_metadata r = NoAttr -> usage_field r = Attr None -> usage_of r = usage_zero)
  /\ (usage_metadata r = NoAttr -> usage_field r = NoAttr -> usage_of r = usage_zero)
  /\ (forall u,
         (prompt_token_count u = NoAttr \/ prompt_token_count u = Attr None ->
          input_tokens (usage_from u) = 0%Z)
         /\ (candidates_token_count u = NoAttr \/ candidates_token_count u = Attr None ->
             output_tokens (usage_from u) = 0%Z)
         /\ (forall n, prompt_token_count u = Attr (Some n) -> input_tokens (usage_from u) = n)
         /\ (forall n, candidates_token_count u = Attr (Some n) ->
                       output_tokens (usage_from u) = n))
  /\ (forall E p imgs m w,
         generate_content E (List.length (calls w))
           {| model := m; prompt := p; attachments := imgs; image_mode := false |} = Ok r ->
         exists w', gemini_response E p (map Pil imgs) m w = (Ok (text r, usage_of r), w'))
  /\ (forall E p imgs m w ps,
         generate_content E (List.length (calls w))
           {| model := m; prompt := p; attachments := imgs; image_mode := true |} = Ok r ->
         parts r = Ok ps ->
         exists w', gemini_image_response E p (map Pil imgs) m w
                    = (Ok (first_inline ps, usage_of r), w'))
  /\ (response_counts_ok r ->
      (0 <= input_tokens (usage_of r))%Z /\ (0 <= output_tokens (usage_of r))%Z).
Proof.
  assert (Hnn : response_counts_ok r ->
                (0 <= input_tokens (usage_of r))%Z /\ (0 <= output_tokens (usage_of r))%Z).
  { intros [Hm Hu]. unfold usage_of. destruct (usage_metadata r) as [|um].
    - destruct (usage_field r) as [|uf]; cbn; [lia|].
      split; apply count_or_zero_nonneg; intros u ->; now destruct Hu.
    - cbn. split; apply count_or_zero_nonneg; intros u ->; now destruct Hm. }
  split; [|split; [|split; [|split; [|split; [|split; [|split; [|split]]]]]]].
  - intros u H. unfold usage_of, usage_from. now rewrite H, !count_or_zero_reported.
  - intros H. unfold usage_of. now rewrite H.
  - intros u H1 H2. unfold usage_of, usage_from. now rewrite H1, H2, !count_or_zero_reported.
  - intros H1 H2. unfold usage_of. now rewrite H1, H2.
  - intros H1 H2. unfold usage_of. now rewrite H1, H2.
  - intros u. unfold usage_from. cbn [input_tokens output_tokens].
    split; [|split; [|split]].
    + intros [H|H]; now rewrite H.
    + intros [H|H]; now rewrite H.
    + intros n H. now rewrite H.
    + intros n H. now rewrite H.
  - intros E p imgs m w H. rewrite gemini_response_pil. cbv zeta. rewrite H. eauto.
  - intros E p imgs m w ps H Hp. rewrite gemini_image_response_pil. cbv zeta.
    rewrite H, Hp. eauto.
  - exact Hnn.
Qed.

Lemma usage_extraction_tolerates_shapes_witness :
  usage_of sparse_response = usage_zero
  /\ (exists w', gemini_response (sample_env sparse_response sample_image_response [])
                   "p" (map Pil ["ad"]) text_model empty_world
                 = (Ok (text sparse_response, usage_of sparse_response), w'))
  /\ (0 <= input_tokens (usage_of sparse_response))%Z
  /\ (0 <= output_tokens (usage_of sparse_response))%Z.
Proof.
  pose proof (usage_extraction_tolerates_shapes sparse_response)
    as (_ & _ & Hu & _ & _ & _ & Hr & _ & Hn).
  split; [|split].
  - exact (Hu _ eq_refl eq_refl).
  - apply (Hr (sample_env sparse_response sample_image_response []) "p" ["ad"] text_model
              empty_world). reflexivity.
  - apply Hn. vm_compute. intuition discriminate.
Defined.

(* ================================================================== *)
(** * C2: an answer without image *)

Lemma first_inline_none (ps : list part) :
  Forall (fun p => inline_data p = None) ps -> first_inline ps = None.
Proof. induction 1 as [|p ps Hp _ IH]; [reflexivity|]. cbn. now rewrite Hp. Qed.

(** C2, on the code: when the answer of the image call carries no inline
    image, [gemini_image_response] returns [None] for the image and does not
    raise, [flow] returns it, and [process_single_image] opens the output
    file, so that it exists and is empty, before the write of [None]
    raises [TypeError]. *)
Lemma no_image_part_leaves_empty_file :
  fst (gemini_image_response no_image_env "draw" [Pil "ref"; Pil "logo"; Pil "shoe"]
         image_model empty_world)
  = Ok (None, {| input_tokens := 3; output_tokens := 7 |})
  /\ fst (flow "plan: {}" "do:" no_image_env "ref" "brand" "logo" "shoe" empty_world)
     = Ok (None, {| input_tokens := 13; output_tokens := 12 |})
  /\ fst (process_single_image "plan: {}" "do:" no_image_env "a.png" "brand" "logo" "shoe"
            "output_new_1" empty_world)
     = Raise TypeError
  /\ files (snd (process_single_image "plan: {}" "do:" no_image_env "a.png" "brand" "logo"
                   "shoe" "output_new_1" empty_world))
     = [("output_new_1/a_new_1_gen.png", "")].
Proof. repeat split; vm_compute; reflexivity. Qed.

(* ================================================================== *)
(** * C1: a batch of five reference images *)

(** C1, on the code: with five reference images discovered and every call
    answered, [main] runs the pipeline for the fourth and the fifth only:
    two files are written, one for each of them, and the count printed is
    2. *)
Lemma batch_of_five_writes_two :
  filter is_reference_image (iterdir good_env) = five_references
  /\ fst (main "plan: {}" "do:" good_env "brand" empty_world) = Ok tt
  /\ List.length (files (snd (main "plan: {}" "do:" good_env "brand" empty_world))) = 2
  /\ In ("output_new_1/d_new_1_gen.png", "PNG")
        (files (snd (main "plan: {}" "do:" good_env "brand" empty_world)))
  /\ In ("output_new_1/e_new_1_gen.png", "PNG")
        (files (snd (main "plan: {}" "do:" good_env "brand" empty_world)))
  /\ In (Statistics 2 26 24)
        (stdout (snd (main "plan: {}" "do:" good_env "brand" empty_world))).
Proof. repeat split; vm_compute; try reflexivity; tauto. Qed.

(* ================================================================== *)
(** * C9: the plan fields in the render prompt *)

Lemma format_brace_free (a t : string) (args : list string) :
  brace_free a = true ->
  Fmt.format (a ++ t) args = (r <- Fmt.format t args ;; Ok (a ++ r)).
Proof.
  induction a as [|c a IH]; intros H.
  - cbn [String.append]. now destruct (Fmt.format t args).
  - cbn [brace_free] in H. apply andb_prop in H as [H H3]. apply andb_prop in H as [H1 H2].
    apply negb_true_iff in H1, H2.
    cbn [String.append Fmt.format]. rewrite H1, H2, (IH H3).
    now destruct (Fmt.format t args).
Qed.

Lemma format_slot (t a : string) (args : list string) :
  Fmt.format ("{}" ++ t) (a :: args) = (r <- Fmt.format t args ;; Ok (a ++ r)).
Proof. reflexivity. Qed.

Lemma format_unified_slots (x y z : string) :
  Fmt.format unified_slots [x; y; z] = Ok (filled_slots x y z).
Proof.
  unfold unified_slots, filled_slots.
  repeat first [ rewrite format_slot | rewrite format_brace_free by reflexivity ].
  reflexivity.
Qed.

(** [job_unified.format(x, y, z)] when the instruction text has no brace. *)
Lemma format_job_unified (unified_instructions x y z : string) :
  brace_free unified_instructions = true ->
  Fmt.format (job_unified unified_instructions) [x; y; z]
  = Ok (unified_prompt unified_instructions x y z).
Proof.
  intros H. unfold job_unified, unified_prompt.
  rewrite (format_brace_free _ _ _ H), format_unified_slots. reflexivity.
Qed.

(** In the interactive variant [text_swap] is not read. *)
Lemma interactive_prompt_ignores_text_swap
      (E : env) (unified_instructions campaign_info x x' y z : string) :
  Streamlit.render_prompt E unified_instructions campaign_info (stored_plan x y z)
  = Streamlit.render_prompt E unified_instructions campaign_info (stored_plan x' y z).
Proof. reflexivity. Qed.

(** C9 fails in the interactive variant, and the fault is in the code:
    [flow] fills [job_unified] with the plan's text_swap, product_swap and
    edits, while the handler of "Generate Ad Image" fills its first field
    with the campaign text.  The page shows text_swap for editing and stores
    what is typed, yet whatever the stored text_swap the handler sends the
    same call: the plan's text and logo instructions never reach the image
    model. *)
Theorem interactive_render_drops_text_swap :
  calls (snd (flow job_json_planner job_unified_instructions good_env "ref" "brand" "logo"
                   "shoe" empty_world))
  = [planner_call (planner_prompt planner_head planner_guidelines "brand")
                  "ref" "logo" "shoe";
     render_call (unified_prompt job_unified_instructions "X" "Y" "Z") "ref" "logo" "shoe"]
  /\ calls (snd (Handlers.generate_image_clicked good_env job_unified_instructions
                   (Some "ref") (Some "shoe") (Some "logo") "brand"
                   (edited_session "X" "Y" "Z") empty_world))
     = [render_call (unified_prompt job_unified_instructions "brand" "Y" "Z")
                    "ref" "logo" "shoe"]
  /\ (forall (E : env) (unified_instructions : string)
             (ad_reference product_image logo_image : option bytes) (campaign_info : string)
             (text_swap text_swap' product_swap edits : value)
             (image : option bytes) (stats : option usage) (w : world),
         snd (Handlers.generate_image_clicked E unified_instructions ad_reference
                product_image logo_image campaign_info
                {| Streamlit.job_json := plan text_swap product_swap edits;
                   Streamlit.generated_image := image;
                   Streamlit.usage_stats := stats |} w)
         = snd (Handlers.generate_image_clicked E unified_instructions ad_reference
                  product_image logo_image campaign_info
                  {| Streamlit.job_json := plan text_swap' product_swap edits;
                     Streamlit.generated_image := image;
                     Streamlit.usage_stats := stats |} w)).
Proof.
  split; [vm_compute; reflexivity|]. split; [vm_compute; reflexivity|].
  intros E ui ad product logo campaign ts ts' ps ed image stats w.
  unfold Handlers.generate_image_clicked.
  destruct ad as [ad|]; [|reflexivity]. destruct product as [product|]; [|reflexivity].
  unfold Handlers.guarded.
  change (Streamlit.render_prompt E ui campaign
            {| Streamlit.job_json := plan ts ps ed; Streamlit.generated_image := image;
               Streamlit.usage_stats := stats |})
    with (Streamlit.render_prompt E ui campaign
            {| Streamlit.job_json := plan ts' ps ed; Streamlit.generated_image := image;
               Streamlit.usage_stats := stats |}).
  cbv [mbind lift ret].
  destruct (Handlers.images_list E ad product logo) as [imgs| |]; try reflexivity.
  destruct (Streamlit.render_prompt E ui campaign _) as [p| |]; try reflexivity.
  destruct (gemini_image_response E p imgs image_model w) as [[[b u]| |] w3]; reflexivity.
Qed.

(* ================================================================== *)
(** * C10: the three-key shape of the stored plan *)

Lemma edit_plan_shape (E : env) (typed : string -> option string) (s : Streamlit.session)
      (d : list (string * value)) :
  Streamlit.job_json s = JObj d ->
  exists ts ps ed,
    Streamlit.edit_plan E typed s
    = Ok {| Streamlit.job_json := plan ts ps ed;
            Streamlit.generated_image := Streamlit.generated_image s;
            Streamlit.usage_stats := Streamlit.usage_stats s |}
    /\ (dict_get "text_swap" d = None -> typed "Text Swap Instructions" = None ->
        ts = JStr "")
    /\ (dict_get "product_swap" d = None -> typed "Product Swap Instructions" = None ->
        ps = JStr "")
    /\ (dict_get "edits" d = None -> typed "Edit Instructions" = None -> ed = JStr "").
Proof.
  intros Hd. unfold Streamlit.edit_plan. rewrite Hd. cbn [Json.get].
  set (shown := fun k => match dict_get k d with Some v => v | None => JStr "" end).
  exists (Streamlit.text_area E typed "Text Swap Instructions" (shown "text_swap")),
         (Streamlit.text_area E typed "Product Swap Instructions" (shown "product_swap")),
         (Streamlit.text_area E typed "Edit Instructions" (shown "edits")).
  unfold shown. split.
  - destruct (dict_get "text_swap" d), (dict_get "product_swap" d), (dict_get "edits" d);
      cbn [bind]; reflexivity.
  - repeat split; intros H1 H2; rewrite H1; unfold Streamlit.text_area; now rewrite H2.
Qed.

Lemma reruns_shape (E : env) (typed : list (string -> option string)) :
  forall s, has_plan_shape s ->
            exists s2, Streamlit.reruns E typed s = Ok s2 /\ has_plan_shape s2.
Proof.
  induction typed as [|t typed IH]; intros s Hs; [now exists s|].
  destruct Hs as [d [Hd _]].
  destruct (edit_plan_shape E t s d Hd) as [ts [ps [ed [Hrun _]]]].
  cbn [Streamlit.reruns]. rewrite Hrun. cbn [bind]. apply IH.
  now exists [("text_swap", ts); ("product_swap", ps); ("edits", ed)].
Qed.

(** C10, as stated, fails: the plan handler stores whatever the answer
    parses to, here an array, and reports success; on the page the edit step
    then raises [AttributeError]. *)
Lemma edit_step_raises_on_array_plan :
  exists s,
    fst (Handlers.generate_plan_clicked (sample_env array_answer sample_image_response [])
           job_json_planner (Some "ref") (Some "shoe") None "brand"
           Streamlit.initial empty_world)
    = Ok (s, Handlers.PlanReady)
    /\ Streamlit.job_json s = JArr [JNum "1"; JNum "2"]
    /\ Streamlit.edit_plan (sample_env array_answer sample_image_response []) untouched s
       = Raise AttributeError.
Proof. eexists. split; [vm_compute; reflexivity|]. split; reflexivity. Qed.

(** C10, amended: when the stored plan is a JSON object, whatever its keys, the
    plan-edit step does not raise and stores an object with exactly the keys
    text_swap, product_swap and edits; a key the parsed plan lacks gets the
    empty string unless the operator typed into its widget; the key accesses
    of the render step find their keys; and every later rerun stores an
    object of that shape again. *)
Theorem edit_step_restores_three_keys
        (E : env) (typed : string -> option string) (later : list (string -> option string))
        (s : Streamlit.session) (d : list (string * value))
        (Hplan : Streamlit.job_json s = JObj d) :
  exists ts ps ed s1,
    Streamlit.edit_plan E typed s = Ok s1
    /\ Streamlit.job_json s1 = JObj [("text_swap", ts); ("product_swap", ps); ("edits", ed)]
    /\ (dict_get "text_swap" d = None -> typed "Text Swap Instructions" = None ->
        ts = JStr "")
    /\ (dict_get "product_swap" d = None -> typed "Product Swap Instructions" = None ->
        ps = JStr "")
    /\ (dict_get "edits" d = None -> typed "Edit Instructions" = None -> ed = JStr "")
    /\ getitem (Streamlit.job_json s1) "product_swap" = Ok ps
    /\ getitem (Streamlit.job_json s1) "edits" = Ok ed
    /\ exists s2, Streamlit.reruns E later s1 = Ok s2 /\ has_plan_shape s2.
Proof.
  destruct (edit_plan_shape E typed s d Hplan) as [ts [ps [ed [Hrun [H1 [H2 H3]]]]]].
  exists ts, ps, ed. eexists. split; [exact Hrun|]. repeat split; auto.
  apply reruns_shape. now exists [("text_swap", ts); ("product_swap", ps); ("edits", ed)].
Qed.

Lemma edit_step_restores_three_keys_witness :
  exists ts ps ed s1,
    Streamlit.edit_plan good_env (fun _ => None) partial_plan_session = Ok s1
    /\ Streamlit.job_json s1 = JObj [("text_swap", ts); ("product_swap", ps); ("edits", ed)]
    /\ (dict_get "text_swap" [("edits", JStr "warmer"); ("note", JNum "1")] = None ->
        (fun _ : string => @None string) "Text Swap Instructions" = None -> ts = JStr "")
    /\ (dict_get "product_swap" [("edits", JStr "warmer"); ("note", JNum "1")] = None ->
        (fun _ : string => @None string) "Product Swap Instructions" = None -> ps = JStr "")
    /\ (dict_get "edits" [("edits", JStr "warmer"); ("note", JNum "1")] = None ->
        (fun _ : string => @None string) "Edit Instructions" = None -> ed = JStr "")
    /\ getitem (Streamlit.job_json s1) "product_swap" = Ok ps
    /\ getitem (Streamlit.job_json s1) "edits" = Ok ed
    /\ exists s2, Streamlit.reruns good_env [fun _ => Some "bolder"; fun _ => None] s1 = Ok s2
                  /\ has_plan_shape s2.
Proof.
  apply (edit_step_restores_three_keys good_env (fun _ => None)
           [fun _ => Some "bolder"; fun _ => None] partial_plan_session
           [("edits", JStr "warmer"); ("note", JNum "1")]).
  reflexivity.
Defined.

(* ================================================================== *)
(** * C7: the runs under the event loop *)

Module AioFacts.
Import Aio.

Lemma count_cons (f : task -> bool) (t : task) (ts : list task) :
  List.length (filter f (t :: ts)) = weight f t + List.length (filter f ts).
Proof. unfold weight. cbn. now destruct (f t). Qed.

Lemma count_upd (f : task -> bool) (ts : list task) :
  forall i t t',
    nth_error ts i = Some t ->
    List.length (filter f (upd i t' ts)) + weight f t
    = List.length (filter f ts) + weight f t'.
Proof.
  induction ts as [|x ts IH]; intros i t t' H.
  - destruct i; discriminate.
  - destruct i as [|i]; cbn [upd nth_error] in *.
    + injection H as ->. rewrite !count_cons. lia.
    + rewrite !count_cons. specialize (IH i t t' H). lia.
Qed.

Lemma nth_error_upd {X : Type} (ts : list X) :
  forall i j x,
    nth_error (upd j x ts) i
    = if Nat.eqb i j then option_map (fun _ => x) (nth_error ts i) else nth_error ts i.
Proof.
  induction ts as [|y ts IH]; intros i j x.
  - destruct i, j; cbn; try reflexivity. now destruct (Nat.eqb i j).
  - destruct j as [|j], i as [|i]; cbn [upd nth_error Nat.eqb]; try reflexivity.
    apply IH.
Qed.

Lemma Forall_upd {X : Type} (P : X -> Prop) (ts : list X) :
  forall i x, Forall P ts -> P x -> Forall P (upd i x ts).
Proof.
  induction ts as [|y ts IH]; intros i x H Hx; [destruct i; constructor|].
  inversion H; subst. destruct i; cbn [upd]; constructor; auto.
Qed.

Lemma first_waiting_some (ts : list task) (ws : list nat) j body held :
  first_waiting ts ws = Some (j, body, held) ->
  exists s, nth_error ts j = Some (Waiting s body held).
Proof.
  induction ws as [|x ws IH]; [discriminate|]. cbn [first_waiting].
  destruct (nth_error ts x) as [[| | s b h | | | |]|] eqn:E; auto.
  intros H. injection H as <- <- <-. now exists s.
Qed.

(** Waking the next waiter hands it a slot. *)
Lemma wake_up_next_sound (l : loop) (held : list nat) (i : nat) :
  Forall shaped (pool l) ->
  0 < value (sems l 0) ->
  nth_error (pool l) i = Some Running ->
  Forall shaped (pool (wake_up_next 0 l))
  /\ slots (wake_up_next 0 l) held = slots l held
  /\ nth_error (pool (wake_up_next 0 l)) i = Some Running
  /\ now (wake_up_next 0 l) = now l.
Proof.
  intros Hs Hv Hi. unfold wake_up_next.
  destruct (first_waiting (pool l) (waiters (sems l 0))) as [[[j body] h]|] eqn:E; [|auto].
  destruct (first_waiting_some _ _ _ _ _ E) as [s Hj].
  assert (Hshape : shaped (Waiting s body h)).
  { rewrite Forall_forall in Hs. apply Hs. eapply nth_error_In, Hj. }
  destruct Hshape as (-> & -> & Hplain).
  cbn [call_soon set_task set_sem pool sems now]. repeat split.
  - apply Forall_upd; [exact Hs | cbn; auto].
  - unfold slots, count. cbn [call_soon set_task set_sem pool sems Nat.eqb value].
    pose proof (count_upd admitted (pool l) j _ (Woken 0 body []) Hj) as Hc.
    unfold weight in Hc. cbn [admitted negb] in Hc. lia.
  - rewrite nth_error_upd. destruct (Nat.eqb_spec i j) as [->|]; [congruence | exact Hi].
Qed.

Lemma release_sound (l : loop) (held : list nat) (i : nat) :
  Forall shaped (pool l) ->
  nth_error (pool l) i = Some Running ->
  Forall shaped (pool (release 0 l))
  /\ slots (release 0 l) held = S (slots l held)
  /\ nth_error (pool (release 0 l)) i = Some Running
  /\ now (release 0 l) = now l.
Proof.
  intros Hs Hi. unfold release.
  set (l1 := set_sem 0 _ l).
  assert (H1 : Forall shaped (pool l1)) by exact Hs.
  assert (Hv : 0 < value (sems l1 0)) by (cbn; lia).
  destruct (wake_up_next_sound l1 held i H1 Hv Hi) as (Ha & Hb & Hc & Hd).
  repeat split; auto. rewrite Hb. unfold slots, count, l1. cbn. lia.
Qed.

(** A task that is over has left its block. *)
Lemma finish_sound (l : loop) (i : nat) (r : result usage) :
  Forall shaped (pool l) ->
  nth_error (pool l) i = Some Running ->
  slots l [0] = 3 ->
  sound (set_task i (Over r) (release_all [0] l)).
Proof.
  intros Hs Hi Hb. cbn [release_all].
  destruct (release_sound l [] i Hs Hi) as (Ha & Hc & Hd & _).
  split.
  - cbn [set_task pool]. apply Forall_upd; [exact Ha | exact I].
  - unfold slots, count in *. cbn [set_task pool sems List.length] in *.
    pose proof (count_upd admitted _ i _ (Over r) Hd) as Hu.
    unfold weight in Hu. cbn [admitted] in Hu. lia.
Qed.

Lemma finish_outside (l : loop) (i : nat) (r : result usage) :
  Forall shaped (pool l) ->
  nth_error (pool l) i = Some Running ->
  slots l [] = 3 ->
  sound (set_task i (Over r) (release_all [] l)).
Proof.
  intros Hs Hi Hb. cbn [release_all]. split.
  - cbn [set_task pool]. apply Forall_upd; [exact Hs | exact I].
  - unfold slots, count in *. cbn [set_task pool sems List.length] in *.
    pose proof (count_upd admitted _ i _ (Over r) Hi) as Hu.
    unfold weight in Hu. cbn [admitted] in Hu. lia.
Qed.

(** The task [i] runs on: in its block with the slot, or before it. *)
Lemma advance_sound (i : nat) (p : co usage) :
  forall (held : list nat) (l : loop),
    Forall shaped (pool l) ->
    nth_error (pool l) i = Some Running ->
    slots l held = 3 ->
    (held = [] /\ exists body, p = AsyncWith 0 body /\ plain_code body)
    \/ (held = [0] /\ plain_code p) ->
    sound (advance i p held l).
Proof.
  induction p as [a|X m k IH|c k IH|s body IH]; intros held l Hs Hi Hb Hp.
  - destruct Hp as [(_ & b & Hp & _)|(-> & _)]; [discriminate|].
    cbn [advance]. now apply finish_sound.
  - destruct Hp as [(_ & b & Hp & _)|(-> & Hp)]; [discriminate|].
    cbn [advance plain_code] in *.
    destruct (m (now l)) as [[x| |] w].
    + apply IH; auto.
    + now apply (finish_sound (set_now w l)).
    + now apply (finish_sound (set_now w l)).
  - destruct Hp as [(_ & b & Hp & _)|(-> & Hp)]; [discriminate|].
    cbn [advance plain_code] in *. split.
    + cbn [set_task set_now pool]. apply Forall_upd; [exact Hs | cbn; auto].
    + unfold slots, count in *. cbn [set_task set_now pool sems List.length] in *.
      pose proof (count_upd admitted _ i _
                    (Calling (List.length (calls (now l))) c k [0]) Hi) as Hu.
      unfold weight in Hu. cbn [admitted negb] in Hu. lia.
  - destruct Hp as [(-> & b & Hp & Hplain)|(_ & Hp)]; [|contradiction].
    injection Hp as -> ->. cbn [advance].
    destruct (locked (sems l 0)) eqn:Hlock.
    + split.
      * cbn [set_task set_sem pool]. apply Forall_upd; [exact Hs | cbn; auto].
      * unfold slots, count in *. cbn [set_task set_sem pool sems Nat.eqb value List.length] in *.
        pose proof (count_upd admitted _ i _ (Waiting 0 b []) Hi) as Hu.
        unfold weight in Hu. cbn [admitted negb] in Hu. lia.
    + apply IH; auto.
      * unfold locked in Hlock. apply orb_false_iff in Hlock as [Hv _].
        apply Nat.eqb_neq in Hv.
        unfold slots, count in *. cbn [set_sem pool sems Nat.eqb value List.length] in *. lia.
Qed.

Lemma running_sound (l : loop) (i : nat) (t : task) (held : list nat) :
  sound l ->
  nth_error (pool l) i = Some t ->
  weight admitted t = List.length held ->
  forall rest,
    let l1 := set_task i Running {| sems := sems l; ready := rest; pool := pool l;
                                    now := now l |} in
    Forall shaped (pool l1) /\ nth_error (pool l1) i = Some Running /\ slots l1 held = 3.
Proof.
  intros [Hs Hb] Hi Hw rest l1. unfold l1. cbn [set_task pool]. repeat split.
  - apply Forall_upd; [exact Hs | exact I].
  - rewrite nth_error_upd, Nat.eqb_refl, Hi. reflexivity.
  - unfold slots, count in *. cbn [set_task pool sems List.length] in *.
    pose proof (count_upd admitted _ i _ Running Hi) as Hu.
    unfold weight in Hu at 2. cbn [admitted] in Hu. lia.
Qed.

Lemma tick_sound (l l' : loop) : sound l -> tick l = Some l' -> sound l'.
Proof.
  intros Hl. unfold tick. destruct (ready l) as [|i rest]; [discriminate|].
  destruct (nth_error (pool l) i) as [t|] eqn:Hi.
  2:{ intros H. injection H as <-. exact Hl. }
  assert (Ht : shaped t).
  { destruct Hl as [Hs _]. rewrite Forall_forall in Hs. apply Hs. eapply nth_error_In, Hi. }
  destruct t as [p held| |s body held|s body held|n c k held|r k held|r];
    try (intros H; injection H as <-; exact Hl).
  - (* Ready *)
    intros H. injection H as <-.
    assert (Hw : weight admitted (Ready p held) = List.length held).
    { destruct Ht as [(-> & _)|(-> & _)]; reflexivity. }
    destruct (running_sound l i _ held Hl Hi Hw rest) as (Ha & Hb & Hc).
    now apply advance_sound.
  - (* Woken *)
    intros H. injection H as <-. destruct Ht as (-> & -> & Hplain).
    destruct (running_sound l i _ [0] Hl Hi eq_refl rest) as (Ha & Hb & Hc).
    set (l1 := set_task i Running _) in *.
    assert (Hacq : Forall shaped (pool (acquired i 0 l1))
                   /\ slots (acquired i 0 l1) [0] = 3
                   /\ nth_error (pool (acquired i 0 l1)) i = Some Running).
    { unfold acquired. set (l2 := set_sem 0 _ l1).
      assert (H2 : Forall shaped (pool l2)) by exact Ha.
      assert (Hi2 : nth_error (pool l2) i = Some Running) by exact Hb.
      assert (Hs2 : slots l2 [0] = 3) by exact Hc.
      destruct (Nat.ltb 0 (value (sems l2 0))) eqn:Hv; [|auto].
      apply Nat.ltb_lt in Hv.
      destruct (wake_up_next_sound l2 [0] i H2 Hv Hi2) as (Hx & Hy & Hz & _).
      repeat split; auto. now rewrite Hy. }
    destruct Hacq as (Hx & Hy & Hz). apply advance_sound; auto.
  - (* Resumed *)
    destruct Ht as (-> & Hplain).
    destruct (running_sound l i _ [0] Hl Hi eq_refl rest) as (Ha & Hb & Hc).
    destruct r as [r| |]; intros H; injection H as <-.
    + apply advance_sound; auto.
    + now apply finish_sound.
    + now apply finish_sound.
Qed.

Lemma complete_sound (E : env) (i : nat) (l l' : loop) :
  sound l -> complete E i l = Some l' -> sound l'.
Proof.
  intros [Hs Hb]. unfold complete.
  destruct (nth_error (pool l) i) as [[| | | |n c k held| |]|] eqn:Hi; try discriminate.
  intros H. injection H as <-.
  assert (Ht : shaped (Calling n c k held)).
  { rewrite Forall_forall in Hs. apply Hs. eapply nth_error_In, Hi. }
  destruct Ht as (-> & Hplain). split.
  - cbn [call_soon set_task pool]. apply Forall_upd; [exact Hs | cbn; auto].
  - unfold slots, count in *. cbn [call_soon set_task pool sems List.length] in *.
    pose proof (count_upd admitted _ i _ (Resumed (generate_content E n c) k [0]) Hi) as Hu.
    unfold weight in Hu. cbn [admitted negb] in Hu. lia.
Qed.

Lemma reachable_sound (E : env) (l0 l : loop) :
  sound l0 -> reachable E l0 l -> sound l.
Proof.
  intros H0. induction 1 as [|l l' _ IH Hstep]; [exact H0|].
  destruct Hstep as [l l' Ht|i l l' Hc].
  - now apply (tick_sound l l').
  - now apply (complete_sound E i l l').
Qed.

Lemma run_reachable (E : env) (es : list event) :
  forall l l', run E es l = Some l' -> reachable E l l'.
Proof.
  assert (H : forall l0 l l', reachable E l0 l -> run E es l = Some l' -> reachable E l0 l').
  { induction es as [|e es IH]; intros l0 l l' Hr.
    - cbn. intros H. now injection H as <-.
    - cbn [run]. destruct e as [|i].
      + destruct (tick l) as [l1|] eqn:Ht; [|discriminate].
        apply IH. eapply reach_step; [exact Hr | now apply step_tick].
      + destruct (complete E i l) as [l1|] eqn:Hc; [|discriminate].
        apply IH. eapply reach_step; [exact Hr | now apply (step_complete E i)]. }
  intros l l'. apply H. apply reach_refl.
Qed.

(** The code of a run inside its block. *)
Lemma flow_plain (job_json_planner unified_instructions : string) (E : env)
      (ad : image) (brand_info : string) (logo product : image)
      (k : option bytes * usage -> co usage) :
  (forall x, plain_code (k x)) ->
  plain_code (flow job_json_planner unified_instructions E ad brand_info logo product k).
Proof.
  intros Hk. cbn. intros p0 imgs r0 job ts ps ed p1 imgs1 r1 found. apply Hk.
Qed.

Lemma process_single_image_shaped
      (job_json_planner unified_instructions : string) (E : env)
      (name brand_info : string) (logo product : image) (output_dir : string) :
  shaped (Ready (process_single_image job_json_planner unified_instructions E name brand_info
                   logo product output_dir 0) []).
Proof.
  left. split; [reflexivity|]. unfold process_single_image. eexists. split; [reflexivity|].
  cbn [plain_code]. intros _ ad. apply flow_plain. intros [b u]. cbn. auto.
Qed.

Lemma count_none (f : task -> bool) (ts : list task) :
  (forall t, In t ts -> f t = false) -> List.length (filter f ts) = 0.
Proof.
  induction ts as [|t ts IH]; intros H; [reflexivity|].
  cbn [filter]. rewrite (H t (or_introl eq_refl)). apply IH. intros x Hx. apply H. now right.
Qed.

Lemma main_gather_sound
      (job_json_planner unified_instructions : string) (E : env) (brand_info : string)
      (w : world) (l0 : loop) :
  main_gather job_json_planner unified_instructions E brand_info w = Ok l0 -> sound l0.
Proof.
  unfold main_gather.
  destruct (load_safe_image E "data/logo.png" w) as [[logo| |] w1]; try discriminate.
  destruct (load_safe_image E "data/image.png" w1) as [[product| |] w2]; try discriminate.
  intros H. injection H as <-. split.
  - cbn [pool]. rewrite Forall_forall. intros t Ht.
    rewrite map_map in Ht. apply in_map_iff in Ht as (name & <- & _).
    apply process_single_image_shaped.
  - unfold slots, count. cbn [pool sems value List.length].
    rewrite count_none; [reflexivity|].
    intros t Ht. rewrite map_map in Ht. apply in_map_iff in Ht as (name & <- & _). reflexivity.
Qed.

Lemma count_le (f g : task -> bool) (ts : list task) :
  (forall t, In t ts -> f t = true -> g t = true) ->
  List.length (filter f ts) <= List.length (filter g ts).
Proof.
  induction ts as [|t ts IH]; intros H; [cbn; lia|].
  rewrite !count_cons. unfold weight.
  assert (IH' := IH (fun x Hx => H x (or_intror Hx))).
  destruct (f t) eqn:Ef; [rewrite (H t (or_introl eq_refl) Ef)|destruct (g t)]; lia.
Qed.

Lemma shaped_awaits_admitted (t : task) :
  shaped t -> awaits_stage t = true -> admitted t = true.
Proof.
  destruct t; cbn; try discriminate; intros (-> & _) _; reflexivity.
Qed.

End AioFacts.

(** C7: in every state the batch can reach from [main]'s call of [gather],
    whatever the order in which the threads of the model calls end, at most
    3 runs await the result of a stage, and every run that does is past
    [async with semaphore]; at most 3 runs are past it and have not left
    the block, and the counter of the semaphore is what is left of the 3
    slots; a run that waits for a slot holds none. *)
Theorem at_most_three_in_flight
        (job_json_planner unified_instructions : string) (E : env) (brand_info : string)
        (w : world) (l0 l : Aio.loop)
        (Hstart : Aio.main_gather job_json_planner unified_instructions E brand_info w = Ok l0)
        (Hreach : Aio.reachable E l0 l) :
  Aio.count Aio.awaits_stage l <= 3
  /\ (forall t, In t (Aio.pool l) -> Aio.awaits_stage t = true -> Aio.admitted t = true)
  /\ Aio.count Aio.admitted l <= 3
  /\ Aio.value (Aio.sems l 0) + Aio.count Aio.admitted l = 3
  /\ (forall t, In t (Aio.pool l) -> Aio.queued t = true -> Aio.admitted t = false).
Proof.
  pose proof (AioFacts.reachable_sound E l0 l
                (AioFacts.main_gather_sound _ _ _ _ _ _ Hstart) Hreach) as [Hs Hb].
  unfold slots in Hb. cbn [List.length] in Hb. rewrite Nat.add_0_r in Hb.
  rewrite Forall_forall in Hs.
  assert (Hin : forall t, In t (Aio.pool l) -> Aio.awaits_stage t = true ->
                          Aio.admitted t = true).
  { intros t Ht. apply AioFacts.shaped_awaits_admitted. now apply Hs. }
  split; [|split; [exact Hin|split; [lia|split; [exact Hb|]]]].
  - pose proof (AioFacts.count_le Aio.awaits_stage Aio.admitted (Aio.pool l) Hin) as Hle.
    unfold Aio.count in *. lia.
  - intros t Ht Hq. specialize (Hs t Ht). destruct t; try discriminate.
    destruct Hs as (_ & -> & _). reflexivity.
Qed.

Lemma at_most_three_in_flight_witness :
  Aio.main_gather "{}" "" crowded_env "brand" empty_world = Ok crowded_start
  /\ Aio.run crowded_env handover crowded_start = Some after_handover
  /\ Aio.count Aio.awaits_stage after_handover = 3
  /\ Aio.count Aio.queued after_handover = 1
  /\ files (Aio.now after_handover) = [("output_new_1/d_new_1_gen.png", "PNG")]
  /\ Aio.count Aio.awaits_stage after_handover <= 3
  /\ (forall t, In t (Aio.pool after_handover) ->
                Aio.awaits_stage t = true -> Aio.admitted t = true)
  /\ Aio.count Aio.admitted after_handover <= 3
  /\ Aio.value (Aio.sems after_handover 0) + Aio.count Aio.admitted after_handover = 3
  /\ (forall t, In t (Aio.pool after_handover) ->
                Aio.queued t = true -> Aio.admitted t = false).
Proof.
  assert (Hrun : Aio.run crowded_env handover crowded_start = Some after_handover).
  { assert (H : match Aio.run crowded_env handover crowded_start with
                | Some _ => true
                | None => false
                end = true) by (vm_compute; reflexivity).
    unfold after_handover.
    destruct (Aio.run crowded_env handover crowded_start) as [l|];
      [reflexivity | discriminate H]. }
  split; [reflexivity|]. split; [exact Hrun|].
  split; [vm_compute; reflexivity|]. split; [vm_compute; reflexivity|].
  split; [vm_compute; reflexivity|].
  apply (at_most_three_in_flight "{}" "" crowded_env "brand" empty_world crowded_start
           after_handover eq_refl).
  apply (AioFacts.run_reachable crowded_env handover). exact Hrun.
Defined.

(** * The coroutines, one at a time *)

Lemma mbind_ext {A B : Type} (m : M A) (f g : A -> M B) (w : world) :
  (forall a w', f a w' = g a w') -> mbind m f w = mbind m g w.
Proof. intros H. unfold mbind. destruct (m w) as [[a| |] w']; auto. Qed.

(** Run alone, the coroutine [flow] is the function [flow]. *)
Lemma flow_alone (job_json_planner unified_instructions : string) (E : env)
      (ad : image) (brand_info : string) (logo product : image) (A : Type)
      (k : option bytes * usage -> Aio.co A) (w : world) :
  Aio.alone E (Aio.flow job_json_planner unified_instructions E ad brand_info logo product k) w
  = mbind (flow job_json_planner unified_instructions E ad brand_info logo product)
          (fun x => Aio.alone E (k x)) w.
Proof.
  cbv [Aio.flow Aio.gemini_response Aio.gemini_image_response Aio.alone flow
       gemini_response gemini_image_response mbind lift ret call].
  destruct (Fmt.format job_json_planner [brand_info]); try reflexivity.
  cbn [mapM to_pil]. cbv [mbind ret].
  destruct (generate_content E _ _) as [r0| |]; try reflexivity.
  destruct (match text r0 with Some t => parse_plan t | None => Raise TypeError end);
    try reflexivity.
  destruct (getitem _ "text_swap"); try reflexivity.
  destruct (getitem _ "product_swap"); try reflexivity.
  destruct (getitem _ "edits"); try reflexivity.
  destruct (Fmt.format (job_unified _) _); try reflexivity.
  destruct (generate_content E _ _) as [r1| |]; try reflexivity.
  destruct (parts r1); reflexivity.
Qed.

(** Run alone, the coroutine [process_single_image] is the run the batch
    theorems are about, whatever the semaphore. *)
Lemma process_single_image_alone
      (job_json_planner unified_instructions : string) (E : env)
      (name brand_info : string) (logo product : image) (output_dir : string)
      (semaphore : nat) (w : world) :
  Aio.alone E (Aio.process_single_image job_json_planner unified_instructions E name
                 brand_info logo product output_dir semaphore) w
  = process_single_image job_json_planner unified_instructions E name brand_info logo product
                         output_dir w.
Proof.
  unfold Aio.process_single_image, process_single_image.
  cbn [Aio.alone]. apply mbind_ext. intros _ w1. apply mbind_ext. intros ad w2.
  rewrite flow_alone. apply mbind_ext. intros [b u] w3. reflexivity.
Qed.

(* ================================================================== *)
(** * Further properties of the pipeline *)

(** ** What [flow] does to the world *)

(** [flow] from the render prompt on. *)
Lemma flow_render_stage (E : env) (ad logo product : image) (r0 : response)
      (p1 : string) (w : world) :
  mbind (gemini_image_response E p1 [Pil ad; Pil logo; Pil product] image_model)
        (fun '(output, usage_1) =>
           ret (output,
                {| input_tokens := 0 + input_tokens (usage_of r0) + input_tokens usage_1;
                   output_tokens := 0 + output_tokens (usage_of r0) + output_tokens usage_1 |}))
        w
  = match generate_content E (List.length (calls w)) (render_call p1 ad logo product) with
    | Ok r1 =>
        match parts r1 with
        | Ok ps => (Ok (first_inline ps, usage_add (usage_of r0) (usage_of r1)),
                    log_call (render_call p1 ad logo product) w)
        | Raise e => (Raise e, log_call (render_call p1 ad logo product) w)
        | Beyond => (Beyond, log_call (render_call p1 ad logo product) w)
        end
    | Raise e => (Raise e, log_call (render_call p1 ad logo product) w)
    | Beyond => (Beyond, log_call (render_call p1 ad logo product) w)
    end.
Proof.
  unfold mbind at 1.
  change [Pil ad; Pil logo; Pil product] with (map Pil [ad; logo; product]).
  rewrite gemini_image_response_pil. cbv zeta.
  fold (render_call p1 ad logo product).
  destruct (generate_content E _ (render_call p1 ad logo product)) as [r1| |]; try reflexivity.
  destruct (parts r1); reflexivity.
Qed.

Lemma sent_log_call (c : api_call) (w : world) : sent w (log_call c w) [c].
Proof. unfold sent, log_call; cbn. auto. Qed.

Lemma sent_log_call2 (c0 c1 : api_call) (w : world) :
  sent w (log_call c1 (log_call c0 w)) [c0; c1].
Proof. unfold sent, log_call; cbn. rewrite <- app_assoc. auto. Qed.

Lemma sent_refl (w : world) : sent w w [].
Proof. unfold sent. rewrite app_nil_r. auto. Qed.

Lemma flow_effects
        (job_json_planner unified_instructions : string) (E : env)
        (ad : image) (brand_info : string) (logo product : image) (w : world) :
  exists cs,
    sent w (snd (flow job_json_planner unified_instructions E ad brand_info logo product w)) cs
    /\ List.length cs <= 2
    /\ (forall c, nth_error cs 0 = Some c -> image_mode c = false)
    /\ (forall c, nth_error cs 1 = Some c -> image_mode c = true)
    /\ (forall v, fst (flow job_json_planner unified_instructions E ad brand_info logo
                         product w) = Ok v -> List.length cs = 2).
Proof.
  remember (flow job_json_planner unified_instructions E ad brand_info logo product w)
    as out eqn:Hout.
  rewrite flow_plan_stage in Hout.
  assert (Hnone : forall (r : result (option bytes * usage)),
             (forall v, r <> Ok v) -> out = (r, w) ->
             exists cs, sent w (snd out) cs /\ List.length cs <= 2
                        /\ (forall c, nth_error cs 0 = Some c -> image_mode c = false)
                        /\ (forall c, nth_error cs 1 = Some c -> image_mode c = true)
                        /\ (forall v, fst out = Ok v -> List.length cs = 2)).
  { intros r Hr ->. exists []. cbn [fst snd]. repeat split; try apply sent_refl; cbn; try lia.
    - intros c Hc; discriminate.
    - intros c Hc; discriminate.
    - intros v Hv. now apply Hr in Hv. }
  destruct (Fmt.format job_json_planner [brand_info]) as [p0| |];
    try (eapply Hnone; [|exact Hout]; intros v; discriminate).
  clear Hnone. set (c0 := planner_call p0 ad logo product) in *.
  assert (Hone : forall (r : result (option bytes * usage)),
             (forall v, r <> Ok v) -> out = (r, log_call c0 w) ->
             exists cs, sent w (snd out) cs /\ List.length cs <= 2
                        /\ (forall c, nth_error cs 0 = Some c -> image_mode c = false)
                        /\ (forall c, nth_error cs 1 = Some c -> image_mode c = true)
                        /\ (forall v, fst out = Ok v -> List.length cs = 2)).
  { intros r Hr ->. exists [c0]. cbn [fst snd].
    repeat split; try apply sent_log_call; cbn; try lia.
    - intros c Hc; now inversion Hc.
    - intros c Hc; discriminate.
    - intros v Hv. now apply Hr in Hv. }
  destruct (generate_content E _ c0) as [r0| |];
    try (eapply Hone; [|exact Hout]; intros v; discriminate).
  unfold mbind at 1, lift at 1 in Hout.
  destruct (match text r0 with Some t => parse_plan t | None => Raise TypeError end)
    as [job| |]; try (eapply Hone; [|exact Hout]; intros v; discriminate).
  unfold mbind at 1, lift at 1 in Hout.
  destruct (getitem job "text_swap") as [ts| |];
    try (eapply Hone; [|exact Hout]; intros v; discriminate).
  unfold mbind at 1, lift at 1 in Hout.
  destruct (getitem job "product_swap") as [ps| |];
    try (eapply Hone; [|exact Hout]; intros v; discriminate).
  unfold mbind at 1, lift at 1 in Hout.
  destruct (getitem job "edits") as [ed| |];
    try (eapply Hone; [|exact Hout]; intros v; discriminate).
  unfold mbind at 1, lift at 1 in Hout.
  destruct (Fmt.format _ _) as [p1| |];
    try (eapply Hone; [|exact Hout]; intros v; discriminate).
  rewrite flow_render_stage in Hout. set (c1 := render_call p1 ad logo product) in *.
  exists [c0; c1].
  assert (Hs : sent w (log_call c1 (log_call c0 w)) [c0; c1]) by apply sent_log_call2.
  destruct (generate_content E _ c1) as [r1| |]; [destruct (parts r1)| |];
    subst out; cbn [fst snd]; repeat split; try apply Hs; cbn; try lia;
    intros c Hc; now inversion Hc.
Qed.

(** X1: [flow] writes no file and prints nothing, whatever the model
    answers; it sends at most two calls, the planner call first and the
    image call second, and exactly two when it returns. *)
Theorem flow_only_calls_the_model
        (job_json_planner unified_instructions : string) (E : env)
        (ad : image) (brand_info : string) (logo product : image) (w : world) :
  exists cs,
    sent w (snd (flow job_json_planner unified_instructions E ad brand_info logo product w)) cs
    /\ List.length cs <= 2
    /\ (forall c, nth_error cs 0 = Some c -> image_mode c = false)
    /\ (forall c, nth_error cs 1 = Some c -> image_mode c = true)
    /\ (forall v, fst (flow job_json_planner unified_instructions E ad brand_info logo
                         product w) = Ok v -> List.length cs = 2).
Proof. apply flow_effects. Qed.

(** ** Failures of the two calls *)

(** X2: an exception of the planner call leaves [flow] as it is, after that
    one call; once the plan is parsed and the prompt built, an exception of
    the image call, or of reading the parts of its answer, leaves [flow] as
    it is, after the two calls.  Nothing is retried. *)
Theorem flow_propagates_call_failures
        (job_json_planner unified_instructions : string) (E : env)
        (ad : image) (brand_info : string) (logo product : image) (w : world)
        (p0 : string) (e : exn)
        (Hprompt : Fmt.format job_json_planner [brand_info] = Ok p0) :
  (generate_content E (List.length (calls w)) (planner_call p0 ad logo product) = Raise e ->
   flow job_json_planner unified_instructions E ad brand_info logo product w
   = (Raise e, log_call (planner_call p0 ad logo product) w))
  /\ (forall r0 t job ts ps ed p1,
        generate_content E (List.length (calls w)) (planner_call p0 ad logo product) = Ok r0 ->
        text r0 = Some t -> parse_plan t = Ok job ->
        getitem job "text_swap" = Ok ts ->
        getitem job "product_swap" = Ok ps ->
        getitem job "edits" = Ok ed ->
        Fmt.format (job_unified unified_instructions)
                   [to_str E ts; to_str E ps; to_str E ed] = Ok p1 ->
        (generate_content E (S (List.length (calls w))) (render_call p1 ad logo product)
         = Raise e
         \/ exists r1,
             generate_content E (S (List.length (calls w))) (render_call p1 ad logo product)
             = Ok r1 /\ parts r1 = Raise e) ->
        flow job_json_planner unified_instructions E ad brand_info logo product w
        = (Raise e, log_call (render_call p1 ad logo product)
                      (log_call (planner_call p0 ad logo product) w))).
Proof.
  split.
  - intros H. now rewrite flow_plan_stage, Hprompt, H.
  - intros r0 t job ts ps ed p1 H0 Ht Hj Hts Hps Hed Hp1 H1.
    rewrite flow_plan_stage, Hprompt, H0, Ht, Hj.
    rewrite mbind_lift_ok, Hts, mbind_lift_ok, Hps, mbind_lift_ok, Hed, mbind_lift_ok.
    rewrite Hp1, mbind_lift_ok, flow_render_stage.
    assert (Hlen : List.length (calls (log_call (planner_call p0 ad logo product) w))
                   = S (List.length (calls w))).
    { unfold log_call; cbn. rewrite length_app. cbn. lia. }
    rewrite Hlen. destruct H1 as [H1 | [r1 [H1 Hparts]]]; rewrite H1; [reflexivity|].
    now rewrite Hparts.
Qed.

Lemma flow_propagates_call_failures_witness :
  flow "plan: {}" "do:" (failing_env (Raise ApiError) (Raise ApiError))
       "ref" "brand" "logo" "shoe" empty_world
  = (Raise ApiError, log_call (planner_call "plan: brand" "ref" "logo" "shoe") empty_world).
Proof.
  apply (flow_propagates_call_failures "plan: {}" "do:"
           (failing_env (Raise ApiError) (Raise ApiError))
           "ref" "brand" "logo" "shoe" empty_world "plan: brand" ApiError eq_refl).
  reflexivity.
Defined.

(** X3: the exception a parsed plan makes [flow] raise: [TypeError] when
    the answer has no text or the plan is no object, [KeyError] of the first
    key among text_swap, product_swap, edits that the object lacks; the
    image call is not sent. *)
Theorem flow_plan_access_errors
        (job_json_planner unified_instructions : string) (E : env)
        (ad : image) (brand_info : string) (logo product : image) (w : world)
        (p0 : string) (r0 : response)
        (Hprompt : Fmt.format job_json_planner [brand_info] = Ok p0)
        (Hcall : generate_content E (List.length (calls w)) (planner_call p0 ad logo product)
                 = Ok r0) :
  (text r0 = None ->
   flow job_json_planner unified_instructions E ad brand_info logo product w
   = (Raise TypeError, log_call (planner_call p0 ad logo product) w))
  /\ (forall t job e,
        text r0 = Some t -> parse_plan t = Ok job -> plan_error job = Some e ->
        flow job_json_planner unified_instructions E ad brand_info logo product w
        = (Raise e, log_call (planner_call p0 ad logo product) w)).
Proof.
  split.
  - intros Ht. now rewrite flow_plan_stage, Hprompt, Hcall, Ht.
  - intros t job e Ht Hj He. rewrite flow_plan_stage, Hprompt, Hcall, Ht, Hj, mbind_lift_ok.
    unfold plan_error in He. destruct job as [| | | | |d]; try (inversion He; reflexivity).
    cbn [getitem]. unfold mbind at 1, lift at 1.
    destruct (dict_get "text_swap" d); [|inversion He; reflexivity].
    unfold mbind at 1, lift at 1.
    destruct (dict_get "product_swap" d); [|inversion He; reflexivity].
    unfold mbind at 1, lift at 1.
    destruct (dict_get "edits" d); [discriminate He|inversion He; reflexivity].
Qed.

Lemma flow_plan_access_errors_witness :
  flow "plan: {}" "do:" (failing_env (Ok array_plan_response) (Raise ApiError))
       "ref" "brand" "logo" "shoe" empty_world
  = (Raise TypeError, log_call (planner_call "plan: brand" "ref" "logo" "shoe") empty_world).
Proof.
  refine (proj2 (flow_plan_access_errors "plan: {}" "do:"
                   (failing_env (Ok array_plan_response) (Raise ApiError))
                   "ref" "brand" "logo" "shoe" empty_world "plan: brand"
                   array_plan_response eq_refl eq_refl)
            "[1, 2]" (JArr [JNum "1"; JNum "2"]) TypeError eq_refl _ eq_refl).
  vm_compute. reflexivity.
Defined.

(** ** One run of the batch *)

Lemma file_content_set_file (path : string) (content : bytes) (fs : list (string * bytes)) :
  file_content path (set_file path content fs) = Some content.
Proof.
  induction fs as [|[p c] fs IH]; cbn [set_file file_content].
  - now rewrite String.eqb_refl.
  - destruct (String.eqb p path) eqn:Ep; cbn [file_content].
    + now rewrite String.eqb_refl.
    + now rewrite Ep.
Qed.

Lemma file_content_set_file_other (path other : string) (content : bytes)
      (fs : list (string * bytes)) :
  other <> path ->
  file_content other (set_file path content fs) = file_content other fs.
Proof.
  intros Hne. induction fs as [|[p c] fs IH]; cbn [set_file file_content].
  - destruct (String.eqb_spec path other); [congruence | reflexivity].
  - destruct (String.eqb_spec p path) as [->|Hp]; cbn [file_content].
    + destruct (String.eqb_spec path other); [congruence | reflexivity].
    + destruct (String.eqb p other); [reflexivity | exact IH].
Qed.

Lemma set_file_twice (path : string) (c1 c2 : bytes) (fs : list (string * bytes)) :
  set_file path c2 (set_file path c1 fs) = set_file path c2 fs.
Proof.
  induction fs as [|[p c] fs IH]; cbn [set_file].
  - now rewrite String.eqb_refl.
  - destruct (String.eqb p path) eqn:Ep; cbn [set_file].
    + now rewrite String.eqb_refl.
    + now rewrite Ep, IH.
Qed.

(** [process_single_image], case by case. *)
Lemma process_single_image_cases
      (job_json_planner unified_instructions : string) (E : env)
      (name brand_info : string) (logo product : image) (output_dir : string) (w : world) :
  process_single_image job_json_planner unified_instructions E name brand_info logo product
                       output_dir w =
  match load E ("references/" ++ name) with
  | None => (Raise ValueError,
             say (CorruptImage ("references/" ++ name)) (say (Processing name) w))
  | Some img =>
      match flow job_json_planner unified_instructions E img brand_info logo product
                 (say (Processing name) w) with
      | (Ok (Some b, u), w1) =>
          (Ok u, say (Saved (output_path output_dir name))
                   (store (output_path output_dir name) b w1))
      | (Ok (None, u), w1) =>
          (Raise TypeError, store (output_path output_dir name) EmptyString w1)
      | (Raise e, w1) => (Raise e, w1)
      | (Beyond, w1) => (Beyond, w1)
      end
  end.
Proof.
  unfold process_single_image, load_safe_image.
  unfold mbind at 1, print at 1. fold (say (Processing name) w).
  unfold mbind at 1.
  destruct (load E ("references/" ++ name)) as [img|].
  - unfold ret at 1. unfold mbind at 1.
    destruct (flow _ _ _ _ _ _ _ _) as [[[[b|] u]|e|] w1]; try reflexivity.
    cbv [mbind open_wb write print ret say store output_path].
    cbn [calls files stdout]. now rewrite set_file_twice.
  - reflexivity.
Qed.

Lemma run_ok (job_json_planner unified_instructions : string) (E : env)
      (name brand_info : string) (brand_logo product_image : image) (output_dir : string)
      (w w' : world) (u : usage) :
  process_single_image job_json_planner unified_instructions E name brand_info
                       brand_logo product_image output_dir w = (Ok u, w') ->
  exists img b,
    load E ("references/" ++ name) = Some img /\
    fst (flow job_json_planner unified_instructions E img brand_info brand_logo product_image
              (say (Processing name) w)) = Ok (Some b, u) /\
    files w' = set_file (output_path output_dir name) b (files w) /\
    List.length (calls w') = List.length (calls w) + 2 /\
    stdout w' = (stdout w ++ [Processing name; Saved (output_path output_dir name)])%list.
Proof.
  rewrite process_single_image_cases.
  destruct (load E ("references/" ++ name)) as [img|]; [|discriminate].
  pose proof (flow_effects job_json_planner unified_instructions E img brand_info
                brand_logo product_image (say (Processing name) w)) as Hfx.
  destruct (flow _ _ _ _ _ _ _ _) as [[[[b|] u0]|e|] w1] eqn:Hflow; try discriminate.
  intros H. injection H as Hu Hw. subst u0 w'.
  destruct Hfx as (cs & (Hc & Hf & Hs) & _ & _ & _ & Hlen).
  cbn [fst snd] in *. specialize (Hlen _ eq_refl).
  exists img, b. split; [reflexivity|]. split; [now rewrite Hflow|]. repeat split.
  - cbn [say store files]. now rewrite Hf.
  - cbn [say store calls]. rewrite Hc, length_app, Hlen. reflexivity.
  - cbn [say store stdout]. rewrite Hs. cbn [say stdout].
    now rewrite <- app_assoc.
Qed.

Lemma run_raise (job_json_planner unified_instructions : string) (E : env)
      (name brand_info : string) (brand_logo product_image : image) (output_dir : string)
      (w w' : world) (e : exn) :
  process_single_image job_json_planner unified_instructions E name brand_info
                       brand_logo product_image output_dir w = (Raise e, w') ->
  (files w' = files w /\ List.length (calls w') <= List.length (calls w) + 2) \/
  (e = TypeError /\
   files w' = set_file (output_path output_dir name) EmptyString (files w) /\
   List.length (calls w') = List.length (calls w) + 2).
Proof.
  rewrite process_single_image_cases.
  destruct (load E ("references/" ++ name)) as [img|].
  - pose proof (flow_effects job_json_planner unified_instructions E img brand_info
                  brand_logo product_image (say (Processing name) w)) as Hfx.
    destruct (flow _ _ _ _ _ _ _ _) as [[[[b|] u0]|e0|] w1]; try discriminate.
    + intros H. injection H as He Hw. subst e w'.
      destruct Hfx as (cs & (Hc & Hf & Hs) & _ & _ & _ & Hlen).
      cbn [fst snd] in *. specialize (Hlen _ eq_refl).
      right. repeat split.
      * cbn [store files]. now rewrite Hf.
      * cbn [store calls]. rewrite Hc, length_app, Hlen. reflexivity.
    + intros H. injection H as He Hw. subst e0 w'.
      destruct Hfx as (cs & (Hc & Hf & Hs) & Hle & _).
      cbn [fst snd] in *. left. split.
      * now rewrite Hf.
      * rewrite Hc, length_app. cbn [say calls]. lia.
  - intros H. injection H as He Hw. subst w'. left. cbn [say files calls]. split; [reflexivity | lia].
Qed.

Lemma file_content_kept (path other : string) (content : bytes) (fs : list (string * bytes)) :
  file_content other fs <> None ->
  file_content other (set_file path content fs) <> None.
Proof.
  intros H. destruct (String.eqb_spec other path) as [->|Hne].
  - now rewrite file_content_set_file.
  - now rewrite file_content_set_file_other.
Qed.

Lemma batch_ok (job_json_planner unified_instructions : string) (E : env)
      (brand_info : string) (brand_logo product_image : image) (output_dir : string)
      (names : list string) :
  forall (w w' : world) (us : list usage),
    mapM (fun name =>
            process_single_image job_json_planner unified_instructions E name brand_info
                                 brand_logo product_image output_dir) names w = (Ok us, w') ->
    List.length us = List.length names /\
    List.length (calls w') = List.length (calls w) + 2 * List.length names /\
    (forall name, In name names -> load E ("references/" ++ name) <> None) /\
    (forall p, file_content p (files w) <> None -> file_content p (files w') <> None) /\
    (forall name, In name names ->
                  file_content (output_path output_dir name) (files w') <> None) /\
    (forall p, (forall name, In name names -> p <> output_path output_dir name) ->
               file_content p (files w') = file_content p (files w)) /\
    (forall n ti to, In (Statistics n ti to) (stdout w') -> In (Statistics n ti to) (stdout w)).
Proof.
  induction names as [|name names IH]; intros w w' us H.
  - cbn [mapM] in H. unfold ret in H. injection H as <- <-.
    repeat split; auto; try (intros ? []); cbn; lia.
  - cbn [mapM] in H. unfold mbind at 1 in H.
    destruct (process_single_image _ _ _ name _ _ _ _ w) as [[u| |] w1] eqn:Hrun;
      try discriminate.
    unfold mbind at 1 in H.
    destruct (mapM _ names w1) as [[us'| |] w2] eqn:Hrest; try discriminate.
    unfold ret in H. injection H as <- <-.
    apply run_ok in Hrun. destruct Hrun as (img & b & Hload & _ & Hf & Hc & Hs).
    destruct (IH _ _ _ Hrest) as (Hlen & Hcalls & Hloads & Hkept & Hout & Hother & Hstat).
    repeat split.
    + cbn [List.length]. now rewrite Hlen.
    + rewrite Hcalls, Hc. cbn [List.length]. lia.
    + intros n [<-|Hin]; [congruence | now apply Hloads].
    + intros p Hp. apply Hkept. rewrite Hf. now apply file_content_kept.
    + intros n [<-|Hin]; [|now apply Hout].
      apply Hkept. rewrite Hf. rewrite file_content_set_file. discriminate.
    + intros p Hp. rewrite Hother by (intros n Hn; apply Hp; now right).
      rewrite Hf. apply file_content_set_file_other.
      intros Heq. apply (Hp name); [now left | now symmetry].
    + intros n ti to Hin. apply Hstat in Hin. rewrite Hs in Hin.
      apply in_app_or in Hin. destruct Hin as [Hin|Hin]; [exact Hin|].
      cbn in Hin. destruct Hin as [Hin|[Hin|[]]]; discriminate.
Qed.

(** [main], up to the batch. *)
Lemma main_cases (job_json_planner unified_instructions : string) (E : env)
      (brand_info : string) (w : world) :
  main job_json_planner unified_instructions E brand_info w =
  match load E "data/logo.png" with
  | None => (Raise ValueError, say (CorruptImage "data/logo.png") w)
  | Some brand_logo =>
      match load E "data/image.png" with
      | None => (Raise ValueError, say (CorruptImage "data/image.png") w)
      | Some product_image =>
          match mapM (fun name =>
                        process_single_image job_json_planner unified_instructions E name
                          brand_info brand_logo product_image "output_new_1")
                     (processed E) w with
          | (Ok [], w1) => (Ok tt, say AllDone w1)
          | (Ok (u :: us), w1) =>
              (Ok tt, say AllDone
                        (say (Statistics (List.length (u :: us))
                                         (total input_tokens (u :: us))
                                         (total output_tokens (u :: us))) w1))
          | (Raise e, w1) => (Raise e, w1)
          | (Beyond, w1) => (Beyond, w1)
          end
      end
  end.
Proof.
  unfold main, load_safe_image, processed.
  destruct (load E "data/logo.png") as [brand_logo|]; [|reflexivity].
  unfold mbind at 1, ret at 1.
  destruct (load E "data/image.png") as [product_image|]; [|reflexivity].
  unfold mbind at 1, ret at 1.
  unfold mbind at 1.
  destruct (mapM _ _ w) as [[[|u us]| |] w1]; reflexivity.
Qed.

(** X4: a reference image that does not load stops its run at once:
    [process_single_image] raises [ValueError] after printing the name and
    the path of the broken image; the model is not called and no file is
    touched. *)
Theorem corrupt_reference_stops_the_run
        (job_json_planner unified_instructions : string) (E : env)
        (name brand_info : string) (logo product : image) (output_dir : string) (w : world) :
  load E ("references/" ++ name) = None ->
  exists w',
    process_single_image job_json_planner unified_instructions E name brand_info logo product
                         output_dir w = (Raise ValueError, w') /\
    calls w' = calls w /\
    files w' = files w /\
    stdout w' = (stdout w ++ [Processing name; CorruptImage ("references/" ++ name)])%list.
Proof.
  intros Hload. rewrite process_single_image_cases, Hload.
  eexists. split; [reflexivity|]. cbn [say calls files stdout].
  now rewrite <- app_assoc.
Qed.

Lemma corrupt_reference_stops_the_run_witness :
  exists w',
    process_single_image "{}" "" picky_env "broken.png" "brand" "logo" "product"
                         "out" empty_world = (Raise ValueError, w') /\
    calls w' = calls empty_world /\
    files w' = files empty_world /\
    stdout w' = (stdout empty_world
                   ++ [Processing "broken.png"; CorruptImage "references/broken.png"])%list.
Proof.
  apply (corrupt_reference_stops_the_run "{}" "" picky_env "broken.png" "brand" "logo"
           "product" "out" empty_world).
  reflexivity.
Defined.

(** X5: a run of [process_single_image] that returns has loaded its
    reference image, got image bytes from [flow] with the usage it returns,
    made exactly two model calls, and left exactly those bytes in
    [output_dir/<stem>_new_1_gen.png]; every other file is as before. *)
Theorem finished_run_saved_the_image
        (job_json_planner unified_instructions : string) (E : env)
        (name brand_info : string) (logo product : image) (output_dir : string)
        (w w' : world) (u : usage) :
  process_single_image job_json_planner unified_instructions E name brand_info logo product
                       output_dir w = (Ok u, w') ->
  exists img b,
    load E ("references/" ++ name) = Some img /\
    fst (flow job_json_planner unified_instructions E img brand_info logo product
              (say (Processing name) w)) = Ok (Some b, u) /\
    file_content (output_path output_dir name) (files w') = Some b /\
    (forall other, other <> output_path output_dir name ->
                   file_content other (files w') = file_content other (files w)) /\
    List.length (calls w') = List.length (calls w) + 2 /\
    stdout w' = (stdout w ++ [Processing name; Saved (output_path output_dir name)])%list.
Proof.
  intros H. apply run_ok in H. destruct H as (img & b & Hload & Hflow & Hf & Hc & Hs).
  exists img, b. repeat split; auto.
  - rewrite Hf. apply file_content_set_file.
  - intros other Hne. rewrite Hf. now apply file_content_set_file_other.
Qed.

Lemma finished_run_saved_the_image_witness :
  exists img b,
    load good_env ("references/" ++ "d.png") = Some img /\
    fst (flow "{}" "" good_env img "brand" "logo" "product"
              (say (Processing "d.png") empty_world))
    = Ok (Some b, {| input_tokens := 13; output_tokens := 12 |}) /\
    file_content (output_path "out" "d.png")
                 [("out/d_new_1_gen.png", "PNG")] = Some b /\
    (forall other, other <> output_path "out" "d.png" ->
                   file_content other [("out/d_new_1_gen.png", "PNG")]
                   = file_content other (files empty_world)) /\
    List.length [planner_call "brand" "references/d.png" "logo" "product";
                 render_call (unified_prompt "" "X" "Y" "Z") "references/d.png" "logo" "product"]
    = List.length (calls empty_world) + 2 /\
    [Processing "d.png"; Saved "out/d_new_1_gen.png"]
    = (stdout empty_world ++ [Processing "d.png"; Saved (output_path "out" "d.png")])%list.
Proof.
  apply (finished_run_saved_the_image "{}" "" good_env "d.png" "brand" "logo" "product" "out"
           empty_world
           {| calls := [planner_call "brand" "references/d.png" "logo" "product";
                        render_call (unified_prompt "" "X" "Y" "Z")
                                    "references/d.png" "logo" "product"];
              files := [("out/d_new_1_gen.png", "PNG")];
              stdout := [Processing "d.png"; Saved "out/d_new_1_gen.png"] |}).
  vm_compute. reflexivity.
Defined.

(** X6: a run of [process_single_image] that raises has written no image:
    the files are as before, or, when [flow] returned no image bytes, the
    output file has been opened and left empty and the exception is the
    [TypeError] of [f.write(None)]; any other file is as before. *)
Theorem failed_run_saves_no_image
        (job_json_planner unified_instructions : string) (E : env)
        (name brand_info : string) (logo product : image) (output_dir : string)
        (w w' : world) (e : exn) :
  process_single_image job_json_planner unified_instructions E name brand_info logo product
                       output_dir w = (Raise e, w') ->
  (forall other, other <> output_path output_dir name ->
                 file_content other (files w') = file_content other (files w)) /\
  (files w' = files w \/
   (e = TypeError /\
    file_content (output_path output_dir name) (files w') = Some EmptyString /\
    List.length (calls w') = List.length (calls w) + 2)).
Proof.
  intros H. apply run_raise in H. destruct H as [[Hf _]|(He & Hf & Hc)].
  - split; [intros; now rewrite Hf | now left].
  - split.
    + intros other Hne. rewrite Hf. now apply file_content_set_file_other.
    + right. rewrite Hf, file_content_set_file. auto.
Qed.

Lemma failed_run_saves_no_image_witness :
  (forall other, other <> output_path "out" "a.png" ->
                 file_content other [("out/a_new_1_gen.png", EmptyString)]
                 = file_content other [("out/a_new_1_gen.png", "OLD")]) /\
  ([("out/a_new_1_gen.png", EmptyString)] = [("out/a_new_1_gen.png", "OLD")] \/
   (TypeError = TypeError /\
    file_content (output_path "out" "a.png") [("out/a_new_1_gen.png", EmptyString)]
    = Some EmptyString /\
    List.length [planner_call "brand" "references/a.png" "logo" "product";
                 render_call (unified_prompt "" "X" "Y" "Z") "references/a.png" "logo" "product"]
    = 0 + 2)).
Proof.
  apply (failed_run_saves_no_image "{}" "" no_image_env "a.png" "brand" "logo" "product" "out"
           {| calls := []; files := [("out/a_new_1_gen.png", "OLD")]; stdout := [] |}
           {| calls := [planner_call "brand" "references/a.png" "logo" "product";
                        render_call (unified_prompt "" "X" "Y" "Z")
                                    "references/a.png" "logo" "product"];
              files := [("out/a_new_1_gen.png", EmptyString)];
              stdout := [Processing "a.png"] |} TypeError).
  vm_compute. reflexivity.
Defined.





(** X9: when [main] returns, both assets and every reference image after
    the third have loaded, two model calls were made for each of these
    references, the output file of each of them exists, no other file was
    touched, and, when there was at least one, the statistics printed carry
    their number. *)
Theorem main_returns_after_every_run
        (job_json_planner unified_instructions : string) (E : env) (brand_info : string)
        (w w' : world) :
  main job_json_planner unified_instructions E brand_info w = (Ok tt, w') ->
  load E "data/logo.png" <> None /\
  load E "data/image.png" <> None /\
  (forall name, In name (processed E) -> load E ("references/" ++ name) <> None) /\
  List.length (calls w') = List.length (calls w) + 2 * List.length (processed E) /\
  (forall name, In name (processed E) ->
                file_content (output_path "output_new_1" name) (files w') <> None) /\
  (forall p, (forall name, In name (processed E) -> p <> output_path "output_new_1" name) ->
             file_content p (files w') = file_content p (files w)) /\
  (forall n ti to, In (Statistics n ti to) (stdout w') ->
                   In (Statistics n ti to) (stdout w) \/
                   (n = List.length (processed E) /\ 0 < n)) /\
  (processed E <> [] ->
   exists ti to, In (Statistics (List.length (processed E)) ti to) (stdout w')).
Proof.
  rewrite main_cases.
  destruct (load E "data/logo.png") as [logo|]; [|discriminate].
  destruct (load E "data/image.png") as [product|]; [|discriminate].
  destruct (mapM _ _ w) as [[us| |] w1] eqn:Hbatch; try discriminate.
  apply batch_ok in Hbatch.
  destruct Hbatch as (Hlen & Hcalls & Hloads & _ & Hout & Hother & Hstat).
  intros H.
  assert (Hw : calls w' = calls w1 /\ files w' = files w1 /\
               forall l, In l (stdout w') ->
                         In l (stdout w1) \/ l = AllDone \/
                         (us <> [] /\ l = Statistics (List.length us) (total input_tokens us)
                                                     (total output_tokens us))).
  { destruct us as [|u us]; injection H as <-; cbn [say calls files stdout];
      repeat split; intros l Hin.
    - apply in_app_or in Hin. destruct Hin as [Hin|[<-|[]]]; auto.
    - apply in_app_or in Hin. destruct Hin as [Hin|[<-|[]]]; auto.
      apply in_app_or in Hin. destruct Hin as [Hin|[<-|[]]]; auto.
      right. right. split; [discriminate | reflexivity]. }
  destruct Hw as (Hc & Hf & Hs).
  split; [discriminate|]. split; [discriminate|]. split; [exact Hloads|].
  split; [now rewrite Hc|]. split; [intros; rewrite Hf; now apply Hout|].
  split; [intros; rewrite Hf; now apply Hother|]. split.
  - intros n ti to Hin. apply Hs in Hin. destruct Hin as [Hin|[Hin|[Hne Hin]]].
    + left. now apply Hstat.
    + discriminate.
    + right. injection Hin as -> _ _. rewrite Hlen. split; [reflexivity|].
      rewrite <- Hlen. destruct us; [congruence | cbn; lia].
  - intros Hne. destruct us as [|u us].
    + destruct (processed E); [congruence | discriminate].
    + injection H as <-. rewrite <- Hlen. eexists _, _. cbn [say stdout].
      apply in_or_app. left. apply in_or_app. right. left. reflexivity.
Qed.

Lemma main_returns_after_every_run_witness :
  load good_env "data/logo.png" <> None /\
  load good_env "data/image.png" <> None /\
  (forall name, In name (processed good_env) ->
                load good_env ("references/" ++ name) <> None) /\
  List.length (calls (snd (main "{}" "" good_env "brand" empty_world)))
  = List.length (calls empty_world) + 2 * List.length (processed good_env) /\
  (forall name, In name (processed good_env) ->
                file_content (output_path "output_new_1" name)
                             (files (snd (main "{}" "" good_env "brand" empty_world)))
                <> None) /\
  (forall p, (forall name, In name (processed good_env) ->
                           p <> output_path "output_new_1" name) ->
             file_content p (files (snd (main "{}" "" good_env "brand" empty_world)))
             = file_content p (files empty_world)) /\
  (forall n ti to,
      In (Statistics n ti to) (stdout (snd (main "{}" "" good_env "brand" empty_world))) ->
      In (Statistics n ti to) (stdout empty_world) \/
      (n = List.length (processed good_env) /\ 0 < n)) /\
  (processed good_env <> [] ->
   exists ti to, In (Statistics (List.length (processed good_env)) ti to)
                    (stdout (snd (main "{}" "" good_env "brand" empty_world)))).
Proof.
  apply (main_returns_after_every_run "{}" "" good_env "brand" empty_world
           (snd (main "{}" "" good_env "brand" empty_world))).
  vm_compute. reflexivity.
Defined.

(** * The extractor on its own output, and on a block that never closes *)

Lemma rstrip_idem (s : string) : rstrip (rstrip s) = rstrip s.
Proof.
  induction s as [|c s IH]; [reflexivity|].
  rewrite rstrip_cons. destruct (rstrip s) as [|d r] eqn:E.
  - destruct (isspace c) eqn:Hc; [reflexivity|].
    rewrite rstrip_cons. cbn [rstrip]. now rewrite Hc.
  - rewrite rstrip_cons, IH. reflexivity.
Qed.

Lemma strip_idem (s : string) : strip (strip s) = strip s.
Proof.
  unfold strip. rewrite (strip_commute (rstrip (lstrip s))), rstrip_idem.
  rewrite <- strip_commute, lstrip_idem. reflexivity.
Qed.

(** The content before the first closing fence holds no fence. *)
Lemma until_fence_content (s : string) :
  forall b, Spec.until_fence s = Some b -> Spec.until_fence b = None.
Proof.
  induction s as [|c s IH]; intros b; cbn [Spec.until_fence].
  - cbn. discriminate.
  - destruct (strip_prefix "```" (String c s)) as [rest|] eqn:E.
    + intros H. injection H as <-. reflexivity.
    + destruct (Spec.until_fence s) as [b'|] eqn:Eb; [|discriminate].
      intros H. injection H as <-. specialize (IH _ eq_refl).
      destruct (until_fence_some s b' Eb) as [rest Hs].
      destruct (Spec.until_fence (String c b')) as [x|] eqn:Ex; [|reflexivity].
      exfalso. destruct (until_fence_some _ x Ex) as [rest' Hx].
      destruct x as [|c' x].
      * cbn in Hx. injection Hx as -> ->. rewrite Hs in E. cbn in E. discriminate.
      * change (String c' x ++ "```" ++ rest') with (String c' (x ++ "```" ++ rest')) in Hx.
        injection Hx as -> Hb'. apply (until_fence_found x rest'). subst b'. exact IH.
Qed.

Lemma block_at_content (tag s b : string) :
  Spec.block_at tag s = Some b -> Spec.until_fence b = None.
Proof.
  unfold Spec.block_at. destruct (strip_prefix ("```" ++ tag) s); [|discriminate].
  apply until_fence_content.
Qed.

Lemma first_block_content (tag s : string) :
  forall b, Spec.first_block tag s = Some b -> Spec.until_fence b = None.
Proof.
  induction s as [|c s IH]; intros b; cbn [Spec.first_block].
  - destruct (Spec.block_at tag "") eqn:E; [|discriminate].
    intros H. injection H as <-. now apply (block_at_content tag "").
  - destruct (Spec.block_at tag (String c s)) eqn:E.
    + intros H. injection H as <-. now apply (block_at_content tag (String c s)).
    + apply IH.
Qed.

Lemma until_fence_rstrip (s : string) :
  Spec.until_fence s = None -> Spec.until_fence (rstrip s) = None.
Proof.
  intros H. apply until_fence_none_iff. intros a b Hr.
  destruct (rstrip_split s) as [w [_ Hs]].
  apply (proj1 (until_fence_none_iff s) H a (b ++ w)).
  rewrite Hs at 1. rewrite Hr. now rewrite !str_app_assoc.
Qed.

Lemma until_fence_strip (s : string) :
  Spec.until_fence s = None -> Spec.until_fence (strip s) = None.
Proof.
  intros H. unfold strip. apply until_fence_rstrip.
  pose proof (until_fence_lstrip s) as Hl. rewrite H in Hl.
  destruct (Spec.until_fence (lstrip s)); [contradiction | reflexivity].
Qed.

(** X10: on a tag of ordinary characters the extractor is idempotent: its
    result, given to it again, comes back unchanged.  The result is the
    response itself, or a text without fence that is trimmed on both sides. *)
Theorem extract_x_idempotent (response tag r : string) :
  Spec.plain tag = true ->
  extract_x response tag = Ok r ->
  extract_x r tag = Ok r /\
  (r = response \/ (Spec.until_fence r = None /\ strip r = r)).
Proof.
  intros Hp. rewrite (extract_x_fence response tag Hp).
  destruct (Spec.first_block tag response) as [b|] eqn:E; intros H; injection H as <-.
  - assert (Hb : Spec.until_fence (strip b) = None).
    { apply until_fence_strip. now apply (first_block_content tag response). }
    split.
    + now apply extract_x_bare.
    + right. split; [exact Hb | apply strip_idem].
  - split; [|now left]. rewrite (extract_x_fence response tag Hp), E. reflexivity.
Qed.

Lemma extract_x_idempotent_witness :
  extract_x "{}" "json" = Ok "{}" /\
  ("{}" = "see ```json {} ``` and ```json [] ```" \/
   (Spec.until_fence "{}" = None /\ strip "{}" = "{}")).
Proof.
  apply (extract_x_idempotent "see ```json {} ``` and ```json [] ```" "json" "{}").
  - reflexivity.
  - vm_compute. reflexivity.
Defined.

(** A text that starts, after white space, with a backtick has no tokens. *)
Lemma lex_tick (w rest : string) :
  blank w = true ->
  forall f, String.length w < f -> lex f (w ++ String "`" rest) = Raise JSONDecodeError.
Proof.
  induction w as [|c w IH]; intros Hb f Hf.
  - destruct f as [|f]; [simpl in Hf; lia|]. reflexivity.
  - cbn [blank] in Hb. apply andb_prop in Hb as [Hc Hw].
    destruct f as [|f]; [simpl in Hf; lia|].
    change (String c w ++ String "`" rest) with (String c (w ++ String "`" rest)).
    rewrite lex_cons. simpl in Hf. destruct (is_ws c).
    + apply IH; [exact Hw | lia].
    + now rewrite (scan_token_inert c _ (isspace_inert c Hc)).
Qed.

Lemma first_block_skip_blank (tag w s : string) :
  blank w = true -> Spec.first_block tag (w ++ s) = Spec.first_block tag s.
Proof.
  intros Hb. induction w as [|c w IH]; [reflexivity|].
  cbn [blank] in Hb. apply andb_prop in Hb as [Hc Hw].
  change (String c w ++ s) with (String c (w ++ s)). cbn [Spec.first_block].
  unfold Spec.block_at at 1. cbn [String.append strip_prefix].
  rewrite (isspace_tick c Hc). now apply IH.
Qed.

(** X11: a planner answer that opens a block tagged json and never closes
    it is not a plan: the extractor finds no block and hands the answer on
    as it is, and [json.loads] rejects it at the first backtick. *)
Theorem unterminated_fence_is_no_plan (w body : string) :
  blank w = true ->
  Spec.until_fence body = None ->
  extract_x (w ++ "```json" ++ body) "json" = Ok (w ++ "```json" ++ body) /\
  parse_plan (w ++ "```json" ++ body) = Raise JSONDecodeError.
Proof.
  intros Hw Hbody.
  assert (Hx : extract_x (w ++ "```json" ++ body) "json" = Ok (w ++ "```json" ++ body)).
  { rewrite (extract_x_fence _ "json" eq_refl), (first_block_skip_blank "json" w _ Hw).
    assert (Hat : Spec.block_at "json" ("```json" ++ body) = None).
    { unfold Spec.block_at.
      change ("```" ++ "json") with "```json". rewrite strip_prefix_app.
      pose proof (until_fence_lstrip body) as Hl. rewrite Hbody in Hl.
      destruct (Spec.until_fence (lstrip body)); [contradiction | reflexivity]. }
    assert (Hrest : Spec.first_block "json" ("``json" ++ body) = None).
    { apply first_block_none. rewrite until_fence_app; [now rewrite Hbody | reflexivity |].
      left. reflexivity. }
    change ("```json" ++ body) with (String "`" ("``json" ++ body)) in *.
    cbn [Spec.first_block]. rewrite Hat, Hrest. reflexivity. }
  split; [exact Hx|]. unfold parse_plan. rewrite Hx. cbn [bind].
  unfold Json.loads.
  change ("```json" ++ body) with (String "`" ("``json" ++ body)).
  rewrite lex_tick; [reflexivity | exact Hw |].
  rewrite str_length_app. simpl. lia.
Qed.

Lemma unterminated_fence_is_no_plan_witness :
  extract_x (nl ++ "```json" ++ plan_text "X" "Y" "Z") "json"
  = Ok (nl ++ "```json" ++ plan_text "X" "Y" "Z") /\
  parse_plan (nl ++ "```json" ++ plan_text "X" "Y" "Z") = Raise JSONDecodeError.
Proof.
  apply (unterminated_fence_is_no_plan nl (plan_text "X" "Y" "Z")).
  - reflexivity.
  - vm_compute. reflexivity.
Defined.

(** * The model client adapter *)

Lemma mapM_to_pil_world (E : env) (images : list image_arg) (w : world) :
  snd (mapM (to_pil E) images w) = w.
Proof.
  induction images as [|a images IH]; [reflexivity|].
  cbn [mapM]. unfold mbind at 1.
  assert (Ha : snd (to_pil E a w) = w) by (destruct a; reflexivity).
  destruct (to_pil E a w) as [[img| |] w1]; cbn [snd] in Ha; subst w1; try reflexivity.
  unfold mbind at 1. destruct (mapM (to_pil E) images w) as [[imgs| |] w2];
    cbn [snd] in IH; subst w2; reflexivity.
Qed.

Lemma mapM_to_pil_fails (E : env) (pre post : list image_arg) (b : bytes) (e : exn)
      (w : world) :
  Forall (decodes E) pre ->
  image_open E b = Raise e ->
  mapM (to_pil E) (pre ++ Raw b :: post)%list w = (Raise e, w).
Proof.
  intros Hpre Hb. induction Hpre as [|a pre Ha Hpre IH].
  - cbn [app mapM to_pil]. unfold mbind, lift. now rewrite Hb.
  - cbn [app mapM]. unfold mbind at 1.
    assert (Hok : exists img, to_pil E a w = (Ok img, w)).
    { destruct a as [b0|img]; [destruct Ha as [img Ha]|]; exists img; cbn [to_pil];
        unfold lift, ret; [now rewrite Ha | reflexivity]. }
    destruct Hok as [img ->]. unfold mbind at 1. now rewrite IH.
Qed.

(** X12: both adapter operations decode the [bytes] among their images
    before they send anything: when one of them does not decode, the
    operation raises the decoder's exception and no call is made. *)
Theorem undecodable_image_stops_the_call
        (E : env) (prompt : string) (pre post : list image_arg) (b : bytes) (e : exn)
        (m m' : string) (w : world) :
  Forall (decodes E) pre ->
  image_open E b = Raise e ->
  gemini_response E prompt (pre ++ Raw b :: post)%list m w = (Raise e, w) /\
  gemini_image_response E prompt (pre ++ Raw b :: post)%list m' w = (Raise e, w).
Proof.
  intros Hpre Hb. unfold gemini_response, gemini_image_response. unfold mbind at 1 3.
  now rewrite (mapM_to_pil_fails E pre post b e w Hpre Hb).
Qed.

Lemma undecodable_image_stops_the_call_witness :
  gemini_response picky_env "p" ([Pil "ad"; Raw "LOGO"] ++ Raw "" :: [Pil "product"])%list
                  text_model empty_world = (Raise ValueError, empty_world) /\
  gemini_image_response picky_env "p" ([Pil "ad"; Raw "LOGO"] ++ Raw "" :: [Pil "product"])%list
                        image_model empty_world = (Raise ValueError, empty_world).
Proof.
  apply (undecodable_image_stops_the_call picky_env "p" [Pil "ad"; Raw "LOGO"]
           [Pil "product"] "" ValueError).
  - repeat constructor. exists "LOGO". reflexivity.
  - reflexivity.
Defined.

Lemma first_inline_skips (pre post : list part) (p : part) (b : blob) :
  Forall textual pre -> inline_data p = Some b ->
  first_inline (pre ++ p :: post)%list = data b.
Proof.
  intros Hpre Hp. induction Hpre as [|q pre Hq Hpre IH].
  - cbn [app first_inline]. now rewrite Hp.
  - cbn [app first_inline]. unfold textual in Hq. now rewrite Hq.
Qed.

(** X13: the image operation returns the data of the first part of the
    answer that has inline data, whatever comes after it; when that data
    is [None] the operation returns [None], even if a later part holds an
    image.  The usage is that of the answer and the one call is logged. *)
Theorem first_inline_part_decides
        (E : env) (prompt : string) (imgs : list image) (m : string) (w : world)
        (r : response) (pre post : list part) (p : part) (b : blob) :
  generate_content E (List.length (calls w))
                   {| model := m; prompt := prompt; attachments := imgs; image_mode := true |}
  = Ok r ->
  parts r = Ok (pre ++ p :: post)%list ->
  Forall textual pre ->
  inline_data p = Some b ->
  gemini_image_response E prompt (map Pil imgs) m w
  = (Ok (data b, usage_of r),
     log_call {| model := m; prompt := prompt; attachments := imgs; image_mode := true |} w).
Proof.
  intros Hcall Hparts Hpre Hp.
  pose proof (gemini_image_response_pil E prompt imgs m w) as H. cbv zeta in H.
  rewrite H, Hcall, Hparts, (first_inline_skips pre post p b Hpre Hp). reflexivity.
Qed.

Lemma first_inline_part_decides_witness :
  gemini_image_response (sample_env sample_plan_response hollow_image_response [])
                        "p" (map Pil ["ad"; "logo"; "product"]) image_model empty_world
  = (Ok (data {| data := None |}, usage_of hollow_image_response),
     log_call {| model := image_model; prompt := "p";
                 attachments := ["ad"; "logo"; "product"]; image_mode := true |} empty_world).
Proof.
  apply (first_inline_part_decides (sample_env sample_plan_response hollow_image_response [])
           "p" ["ad"; "logo"; "product"] image_model empty_world hollow_image_response
           [ {| inline_data := None |} ]
           [ {| inline_data := Some {| data := Some "PNG" |} |} ]
           {| inline_data := Some {| data := None |} |} {| data := None |}).
  - reflexivity.
  - reflexivity.
  - repeat constructor.
  - reflexivity.
Defined.

(** * File names *)

Lemma substring_all (s : string) : substring 0 (String.length s) s = s.
Proof. induction s as [|c s IH]; [reflexivity|]. cbn. now rewrite IH. Qed.

Lemma substring_split (s : string) :
  forall i, i <= String.length s ->
            substring 0 i s ++ substring i (String.length s - i) s = s.
Proof.
  induction s as [|c s IH]; intros i Hi.
  - destruct i; [reflexivity | simpl in Hi; lia].
  - destruct i as [|i].
    + cbn [substring String.append]. rewrite Nat.sub_0_r.
      change (substring 0 (String.length (String c s)) (String c s) = String c s).
      apply substring_all.
    + simpl in Hi. cbn [substring String.length Nat.sub String.append].
      rewrite IH by lia. reflexivity.
Qed.

Lemma substring_app_l (a b : string) : substring 0 (String.length a) (a ++ b) = a.
Proof.
  induction a as [|c a IH]; cbn [String.length String.append].
  - destruct b; reflexivity.
  - cbn [substring]. now rewrite IH.
Qed.

Lemma substring_app_r (a b : string) :
  substring (String.length a) (String.length b) (a ++ b) = b.
Proof.
  induction a as [|c a IH]; cbn [String.length String.append].
  - apply substring_all.
  - cbn [substring]. exact IH.
Qed.

Lemma splits_bounds (name : string) (i : nat) :
  Path.splits name = Some i -> 0 < i /\ i < String.length name - 1.
Proof.
  unfold Path.splits. destruct (Path.rfind_dot name) as [j|]; [|discriminate].
  destruct (Nat.ltb 0 j) eqn:E1; [|discriminate].
  destruct (Nat.ltb j (String.length name - 1)) eqn:E2; [|discriminate].
  cbn [andb]. intros H. injection H as <-.
  apply Nat.ltb_lt in E1, E2. auto.
Qed.

(** [path.stem + path.suffix == path.name] *)
Lemma stem_suffix (name : string) : Path.stem name ++ Path.suffix name = name.
Proof.
  unfold Path.stem, Path.suffix. destruct (Path.splits name) as [i|] eqn:E.
  - apply splits_bounds in E. apply substring_split. lia.
  - apply str_app_nil_r.
Qed.

Lemma lower_length (s : string) : String.length (lower s) = String.length s.
Proof. induction s as [|c s IH]; [reflexivity|]. cbn. now rewrite IH. Qed.

Lemma lower_char_dot (c : ascii) : Ascii.eqb (lower_char c) "." = Ascii.eqb c ".".
Proof. each_char c; reflexivity. Qed.

Lemma rfind_dot_lower (s : string) : Path.rfind_dot (lower s) = Path.rfind_dot s.
Proof.
  induction s as [|c s IH]; [reflexivity|].
  cbn [lower Path.rfind_dot]. now rewrite IH, lower_char_dot.
Qed.

Lemma rfind_dot_app (a b : string) :
  Path.rfind_dot (a ++ b) =
  match Path.rfind_dot b with
  | Some j => Some (String.length a + j)
  | None => Path.rfind_dot a
  end.
Proof.
  induction a as [|c a IH]; cbn [String.append String.length Path.rfind_dot].
  - destruct (Path.rfind_dot b); reflexivity.
  - rewrite IH. destruct (Path.rfind_dot b); reflexivity.
Qed.

Lemma extension_shape (ext : string) :
  In (lower ext) image_extensions ->
  Path.rfind_dot ext = Some 0 /\ 2 <= String.length ext.
Proof.
  intros H. rewrite <- rfind_dot_lower, <- lower_length.
  cbn [image_extensions In] in H.
  repeat (destruct H as [<-|H]; [split; [reflexivity | cbn; lia]|]).
  contradiction.
Qed.

Lemma splits_stem_ext (stem ext : string) :
  stem <> "" -> In (lower ext) image_extensions ->
  Path.splits (stem ++ ext) = Some (String.length stem).
Proof.
  intros Hs He. destruct (extension_shape ext He) as [Hdot Hlen].
  unfold Path.splits. rewrite rfind_dot_app, Hdot, Nat.add_0_r, str_length_app.
  assert (0 < String.length stem) by (destruct stem; [congruence | cbn; lia]).
  replace (Nat.ltb 0 (String.length stem)) with true by (symmetry; apply Nat.ltb_lt; lia).
  replace (Nat.ltb (String.length stem) (String.length stem + String.length ext - 1))
    with true by (symmetry; apply Nat.ltb_lt; lia).
  reflexivity.
Qed.

(** X14: the names [main] takes for reference images are those made of a
    non-empty stem and one of the six extensions in any letter case. *)
Theorem reference_images_by_extension (name : string) :
  is_reference_image name = true <->
  exists stem ext, name = stem ++ ext /\ stem <> "" /\ In (lower ext) image_extensions.
Proof.
  split.
  - intros H. exists (Path.stem name), (Path.suffix name).
    unfold is_reference_image in H. apply existsb_exists in H.
    destruct H as (x & Hin & Hx). apply String.eqb_eq in Hx. subst x.
    split; [now rewrite stem_suffix|]. split; [|exact Hin].
    unfold Path.stem. destruct (Path.splits name) as [i|] eqn:E.
    + apply splits_bounds in E. destruct name as [|c name]; [simpl in E; lia|].
      destruct i as [|i]; [lia|]. cbn. discriminate.
    + unfold Path.suffix in Hin. rewrite E in Hin. cbn in Hin.
      repeat (destruct Hin as [Hin|Hin]; [discriminate|]). contradiction.
  - intros (stem & ext & -> & Hs & He). unfold is_reference_image.
    apply existsb_exists. exists (lower ext). split; [exact He|].
    unfold Path.suffix. rewrite (splits_stem_ext stem ext Hs He).
    rewrite str_length_app, Nat.add_comm, Nat.add_sub, substring_app_r.
    apply String.eqb_refl.
Qed.

(** X15: the output of the run for the reference image [stem ++ ext] is
    [output_dir/stem_new_1_gen.png], whatever the extension: two reference
    images that differ in their extension only are written to one file. *)
Theorem output_file_of_reference (output_dir stem ext : string) :
  stem <> "" ->
  In (lower ext) image_extensions ->
  output_path output_dir (stem ++ ext) = output_dir ++ "/" ++ stem ++ "_new_1_gen.png".
Proof.
  intros Hs He. unfold output_path, Path.stem.
  now rewrite (splits_stem_ext stem ext Hs He), substring_app_l.
Qed.

Lemma output_file_of_reference_witness :
  output_path "output_new_1" ("shoe.v2" ++ ".JPG") = "output_new_1" ++ "/" ++ "shoe.v2" ++ "_new_1_gen.png".
Proof.
  apply (output_file_of_reference "output_new_1" "shoe.v2" ".JPG").
  - discriminate.
  - cbn. auto.
Defined.

(** * The button handlers *)

Lemma images_list_ok (E : env) (ad product : bytes) (logo_image : option bytes)
      (a p : image) (l : option image) :
  image_open E ad = Ok a ->
  image_open E product = Ok p ->
  Handlers.upload_to_pil E logo_image = Ok l ->
  Handlers.images_list E ad product logo_image = Ok (map Pil (uploads_sent a l p)).
Proof.
  intros Ha Hp Hl. unfold Handlers.images_list. rewrite Ha, Hp, Hl. cbn [bind].
  destruct l; reflexivity.
Qed.

Lemma lstrip_blank (w : string) : blank w = true -> lstrip w = "".
Proof.
  intros H. rewrite <- (str_app_nil_r w). now rewrite (lstrip_blank_app w "" H).
Qed.

Lemma strip_blank (w : string) : blank w = true -> strip w = "".
Proof. intros H. unfold strip. now rewrite (lstrip_blank w H). Qed.

(** The click on "Generate JSON Plan" when every step succeeds. *)
Lemma plan_click_ok
      (E : env) (job_json_planner : string) (ad product : bytes) (logo_image : option bytes)
      (campaign_info : string) (s : Streamlit.session) (w : world)
      (a p : image) (l : option image) (prompt : string) (r : response) (t : string)
      (job : value) :
  strip campaign_info <> "" ->
  image_open E ad = Ok a ->
  image_open E product = Ok p ->
  Handlers.upload_to_pil E logo_image = Ok l ->
  Fmt.format job_json_planner [campaign_info] = Ok prompt ->
  generate_content E (List.length (calls w))
                   {| model := text_model; prompt := prompt;
                      attachments := uploads_sent a l p; image_mode := false |} = Ok r ->
  text r = Some t ->
  parse_plan t = Ok job ->
  Handlers.generate_plan_clicked E job_json_planner (Some ad) (Some product) logo_image
                                 campaign_info s w
  = (Ok ({| Streamlit.job_json := job;
            Streamlit.generated_image := Streamlit.generated_image s;
            Streamlit.usage_stats := Some (usage_of r) |}, Handlers.PlanReady),
     log_call {| model := text_model; prompt := prompt;
                 attachments := uploads_sent a l p; image_mode := false |} w).
Proof.
  intros Hc Ha Hp Hl Hprompt Hcall Htext Hjob.
  unfold Handlers.generate_plan_clicked.
  destruct (String.eqb_spec (strip campaign_info) ""); [contradiction|].
  unfold Handlers.guarded.
  rewrite (images_list_ok E ad product logo_image a p l Ha Hp Hl), mbind_lift_ok.
  rewrite Hprompt, mbind_lift_ok. unfold mbind at 1.
  pose proof (gemini_response_pil E prompt (uploads_sent a l p) text_model w) as H.
  cbv zeta in H. rewrite H, Hcall, Htext, Hjob, mbind_lift_ok. reflexivity.
Qed.

(** The click on "Generate Ad Image" when every step succeeds. *)
Lemma image_click_ok
      (E : env) (unified_instructions : string) (ad product : bytes)
      (logo_image : option bytes) (campaign_info : string) (s : Streamlit.session) (w : world)
      (a p : image) (l : option image) (prompt : string) (r : response) (ps : list part) :
  image_open E ad = Ok a ->
  image_open E product = Ok p ->
  Handlers.upload_to_pil E logo_image = Ok l ->
  Streamlit.render_prompt E unified_instructions campaign_info s = Ok prompt ->
  generate_content E (List.length (calls w))
                   {| model := image_model; prompt := prompt;
                      attachments := uploads_sent a l p; image_mode := true |} = Ok r ->
  parts r = Ok ps ->
  Handlers.generate_image_clicked E unified_instructions (Some ad) (Some product) logo_image
                                  campaign_info s w
  = (Ok ({| Streamlit.job_json := Streamlit.job_json s;
            Streamlit.generated_image := first_inline ps;
            Streamlit.usage_stats := Some (usage_of r) |}, Handlers.ImageReady),
     log_call {| model := image_model; prompt := prompt;
                 attachments := uploads_sent a l p; image_mode := true |} w).
Proof.
  intros Ha Hp Hl Hprompt Hcall Hparts.
  unfold Handlers.generate_image_clicked, Handlers.guarded.
  rewrite (images_list_ok E ad product logo_image a p l Ha Hp Hl), mbind_lift_ok.
  rewrite Hprompt, mbind_lift_ok. unfold mbind at 1.
  pose proof (gemini_image_response_pil E prompt (uploads_sent a l p) image_model w) as H.
  cbv zeta in H. rewrite H, Hcall, Hparts. reflexivity.
Qed.

(** X16: neither button handler lets an exception through, and a click
    that does not report success leaves the session state as it was: the
    stored plan, the generated image and the usage are kept. *)
Theorem handlers_catch_every_exception
        (E : env) (job_json_planner unified_instructions : string)
        (ad_reference product_image logo_image : option bytes) (campaign_info : string)
        (s : Streamlit.session) (w : world) :
  (forall e, fst (Handlers.generate_plan_clicked E job_json_planner ad_reference
                    product_image logo_image campaign_info s w) <> Raise e) /\
  (forall e, fst (Handlers.generate_image_clicked E unified_instructions ad_reference
                    product_image logo_image campaign_info s w) <> Raise e) /\
  (forall s' n, fst (Handlers.generate_plan_clicked E job_json_planner ad_reference
                       product_image logo_image campaign_info s w) = Ok (s', n) ->
                n <> Handlers.PlanReady -> s' = s) /\
  (forall s' n, fst (Handlers.generate_image_clicked E unified_instructions ad_reference
                       product_image logo_image campaign_info s w) = Ok (s', n) ->
                n <> Handlers.ImageReady -> s' = s).
Proof.
  unfold Handlers.generate_plan_clicked, Handlers.generate_image_clicked.
  destruct ad_reference as [ad|], product_image as [product|];
    try (repeat split; cbn [ret fst]; intros; congruence).
  repeat split.
  - intros e. destruct (String.eqb (strip campaign_info) ""); [discriminate|].
    unfold Handlers.guarded. destruct (mbind _ _ w) as [[s'| |] w']; discriminate.
  - intros e. unfold Handlers.guarded. destruct (mbind _ _ w) as [[s'| |] w']; discriminate.
  - intros s' n. destruct (String.eqb (strip campaign_info) "").
    + cbn [ret fst]. congruence.
    + unfold Handlers.guarded. destruct (mbind _ _ w) as [[s0| |] w']; cbn [fst];
        intros H Hn; try discriminate; injection H as <- <-; congruence.
  - intros s' n. unfold Handlers.guarded.
    destruct (mbind _ _ w) as [[s0| |] w']; cbn [fst];
      intros H Hn; try discriminate; injection H as <- <-; congruence.
Qed.

(** X17: a click on an incomplete form does nothing but show a notice: with
    the reference or the product image missing, both handlers ask for the
    uploads, and they do so before looking at the campaign text; with both
    there and a campaign text of white space only, the plan handler asks for
    the text.  No image is decoded, no call is made, the session is as
    before. *)
Theorem incomplete_form_sends_nothing
        (E : env) (job_json_planner unified_instructions : string)
        (ad_reference product_image logo_image : option bytes) (campaign_info : string)
        (s : Streamlit.session) (w : world) :
  ad_reference = None \/ product_image = None \/ blank campaign_info = true ->
  exists n,
    Handlers.generate_plan_clicked E job_json_planner ad_reference product_image logo_image
                                   campaign_info s w = (Ok (s, n), w) /\
    (ad_reference = None \/ product_image = None -> n = Handlers.NeedUploads) /\
    (ad_reference <> None -> product_image <> None -> n = Handlers.NeedCampaign) /\
    (ad_reference = None \/ product_image = None ->
     Handlers.generate_image_clicked E unified_instructions ad_reference product_image
                                     logo_image campaign_info s w
     = (Ok (s, Handlers.NeedUploads), w)).
Proof.
  intros H. unfold Handlers.generate_plan_clicked, Handlers.generate_image_clicked.
  destruct ad_reference as [ad|], product_image as [product|].
  - destruct H as [H|[H|H]]; try discriminate.
    rewrite (strip_blank _ H). cbn [String.eqb]. exists Handlers.NeedCampaign.
    repeat split; auto; intros [?|?]; discriminate.
  - exists Handlers.NeedUploads. repeat split; auto. intros _ Hp. congruence.
  - exists Handlers.NeedUploads. repeat split; auto. intros Hp. congruence.
  - exists Handlers.NeedUploads. repeat split; auto. intros Hp. congruence.
Qed.

Lemma incomplete_form_sends_nothing_witness :
  exists n,
    Handlers.generate_plan_clicked good_env "{}" (Some "AD") (Some "SHOE") None
                                   ("  " ++ nl) Streamlit.initial empty_world
    = (Ok (Streamlit.initial, n), empty_world) /\
    (Some "AD" = None \/ Some "SHOE" = None -> n = Handlers.NeedUploads) /\
    (Some "AD" <> None -> Some "SHOE" <> None -> n = Handlers.NeedCampaign) /\
    (Some "AD" = None \/ Some "SHOE" = None ->
     Handlers.generate_image_clicked good_env "" (Some "AD") (Some "SHOE") None
                                     ("  " ++ nl) Streamlit.initial empty_world
     = (Ok (Streamlit.initial, Handlers.NeedUploads), empty_world)).
Proof.
  apply (incomplete_form_sends_nothing good_env "{}" "" (Some "AD") (Some "SHOE") None
           ("  " ++ nl) Streamlit.initial empty_world).
  right. right. reflexivity.
Defined.

(** X18: the plan handler stores whatever JSON value the answer parses to,
    with the usage of the call, and reports success; the generated image is
    kept.  When that value is neither [null] nor an object (a string, a
    number, an array), the edit step that follows on the page raises
    [AttributeError], whatever is typed; no [try] surrounds it. *)
Theorem plan_click_stores_any_json
        (E : env) (job_json_planner : string) (ad product : bytes)
        (logo_image : option bytes) (campaign_info : string) (s : Streamlit.session)
        (w : world) (a p : image) (l : option image) (prompt : string) (r : response)
        (t : string) (job : value) :
  strip campaign_info <> "" ->
  image_open E ad = Ok a ->
  image_open E product = Ok p ->
  Handlers.upload_to_pil E logo_image = Ok l ->
  Fmt.format job_json_planner [campaign_info] = Ok prompt ->
  generate_content E (List.length (calls w))
                   {| model := text_model; prompt := prompt;
                      attachments := uploads_sent a l p; image_mode := false |} = Ok r ->
  text r = Some t ->
  parse_plan t = Ok job ->
  exists s',
    Handlers.generate_plan_clicked E job_json_planner (Some ad) (Some product) logo_image
                                   campaign_info s w
    = (Ok (s', Handlers.PlanReady),
       log_call {| model := text_model; prompt := prompt;
                   attachments := uploads_sent a l p; image_mode := false |} w) /\
    Streamlit.job_json s' = job /\
    Streamlit.generated_image s' = Streamlit.generated_image s /\
    Streamlit.usage_stats s' = Some (usage_of r) /\
    (no_dict job = true ->
     forall typed, Streamlit.edit_plan E typed s' = Raise AttributeError).
Proof.
  intros Hc Ha Hp Hl Hprompt Hcall Htext Hjob. eexists. split.
  - now apply (plan_click_ok E job_json_planner ad product logo_image campaign_info s w
                 a p l prompt r t job).
  - cbn [Streamlit.job_json Streamlit.generated_image Streamlit.usage_stats].
    repeat split. intros Hno typed. unfold Streamlit.edit_plan.
    cbn [Streamlit.job_json]. destruct job; try discriminate; reflexivity.
Qed.

Lemma plan_click_stores_any_json_witness :
  exists s',
    Handlers.generate_plan_clicked
      (sample_env array_answer sample_image_response []) "plan: {}"
      (Some "AD") (Some "SHOE") None "brand" Streamlit.initial empty_world
    = (Ok (s', Handlers.PlanReady),
       log_call {| model := text_model; prompt := "plan: brand";
                   attachments := uploads_sent "AD" None "SHOE"; image_mode := false |}
                empty_world) /\
    Streamlit.job_json s' = JArr [JNum "1"; JNum "2"] /\
    Streamlit.generated_image s' = Streamlit.generated_image Streamlit.initial /\
    Streamlit.usage_stats s' = Some (usage_of array_answer) /\
    (no_dict (JArr [JNum "1"; JNum "2"]) = true ->
     forall typed,
       Streamlit.edit_plan (sample_env array_answer sample_image_response []) typed s'
       = Raise AttributeError).
Proof.
  apply (plan_click_stores_any_json (sample_env array_answer sample_image_response [])
           "plan: {}" "AD" "SHOE" None "brand" Streamlit.initial empty_world
           "AD" "SHOE" None "plan: brand" array_answer
           ("```json" ++ nl ++ "[1, 2]" ++ nl ++ "```") (JArr [JNum "1"; JNum "2"]));
    try reflexivity.
  vm_compute. discriminate.
Defined.

(** X19: the image handler fills the template from the campaign text and
    the stored product_swap and edits, makes one call, and stores what the
    loop over the parts found together with the usage of this call alone:
    the usage of the plan call is overwritten, not added to.  When no part
    has inline data the handler still reports success, the image stored
    before is replaced by [None], and the page shows no image. *)
Theorem image_click_stores_what_it_got
        (E : env) (unified_instructions : string) (ad product : bytes)
        (logo_image : option bytes) (campaign_info : string) (s : Streamlit.session)
        (w : world) (a p : image) (l : option image) (ts ps ed : value)
        (r : response) (found : list part) :
  brace_free unified_instructions = true ->
  Streamlit.job_json s = plan ts ps ed ->
  image_open E ad = Ok a ->
  image_open E product = Ok p ->
  Handlers.upload_to_pil E logo_image = Ok l ->
  generate_content E (List.length (calls w))
                   {| model := image_model;
                      prompt := unified_prompt unified_instructions campaign_info
                                               (to_str E ps) (to_str E ed);
                      attachments := uploads_sent a l p; image_mode := true |} = Ok r ->
  parts r = Ok found ->
  exists s',
    Handlers.generate_image_clicked E unified_instructions (Some ad) (Some product)
                                    logo_image campaign_info s w
    = (Ok (s', Handlers.ImageReady),
       log_call {| model := image_model;
                   prompt := unified_prompt unified_instructions campaign_info
                                            (to_str E ps) (to_str E ed);
                   attachments := uploads_sent a l p; image_mode := true |} w) /\
    Streamlit.job_json s' = Streamlit.job_json s /\
    Streamlit.generated_image s' = first_inline found /\
    Streamlit.usage_stats s' = Some (usage_of r) /\
    (first_inline found = None -> Handlers.shows_image s' = false).
Proof.
  intros Hui Hjob Ha Hp Hl Hcall Hparts.
  assert (Hprompt : Streamlit.render_prompt E unified_instructions campaign_info s
                    = Ok (unified_prompt unified_instructions campaign_info
                                         (to_str E ps) (to_str E ed))).
  { unfold Streamlit.render_prompt. rewrite Hjob.
    change (getitem (plan ts ps ed) "product_swap") with (Ok ps).
    change (getitem (plan ts ps ed) "edits") with (Ok ed).
    cbn [bind]. now apply format_job_unified. }
  eexists. split.
  - now apply (image_click_ok E unified_instructions ad product logo_image campaign_info s w
                 a p l _ r found).
  - cbn [Streamlit.job_json Streamlit.generated_image Streamlit.usage_stats].
    repeat split. intros Hnone. unfold Handlers.shows_image.
    cbn [Streamlit.generated_image]. now rewrite Hnone.
Qed.

Lemma image_click_stores_what_it_got_witness :
  exists s',
    Handlers.generate_image_clicked no_image_env "do:" (Some "AD") (Some "SHOE")
                                    (Some "LOGO") "CAMPAIGN" busy_session empty_world
    = (Ok (s', Handlers.ImageReady),
       log_call {| model := image_model;
                   prompt := unified_prompt "do:" "CAMPAIGN"
                                            (to_str no_image_env (JStr "P"))
                                            (to_str no_image_env (JStr "E"));
                   attachments := uploads_sent "AD" (Some "LOGO") "SHOE";
                   image_mode := true |} empty_world) /\
    Streamlit.job_json s' = Streamlit.job_json busy_session /\
    Streamlit.generated_image s' = first_inline [ {| inline_data := None |} ] /\
    Streamlit.usage_stats s' = Some (usage_of no_image_response) /\
    (first_inline [ {| inline_data := None |} ] = None -> Handlers.shows_image s' = false).
Proof.
  apply (image_click_stores_what_it_got no_image_env "do:" "AD" "SHOE" (Some "LOGO")
           "CAMPAIGN" busy_session empty_world "AD" "SHOE" (Some "LOGO")
           (JStr "T") (JStr "P") (JStr "E") no_image_response [ {| inline_data := None |} ]);
    reflexivity.
Defined.

(** * The edit step on its own output *)

Lemma text_area_shown (E : env) (typed : string -> option string) (label : string)
      (v : value) :
  shown_value (Streamlit.text_area E typed label v) = true.
Proof.
  unfold Streamlit.text_area. destruct (typed label); [reflexivity|].
  destruct v; reflexivity.
Qed.

Lemma text_area_untouched (E : env) (label : string) (v : value) :
  shown_value v = true -> Streamlit.text_area E untouched label v = v.
Proof. destruct v; try discriminate; reflexivity. Qed.

(** X20: a rerun of the page in which nothing is typed stores the plan the
    edit step stored before: the edit step, applied to its own result with
    untouched widgets, changes nothing. *)
Theorem rerun_without_typing_changes_nothing
        (E : env) (typed : string -> option string) (s s' : Streamlit.session) :
  Streamlit.edit_plan E typed s = Ok s' ->
  Streamlit.edit_plan E untouched s' = Ok s'.
Proof.
  unfold Streamlit.edit_plan at 1.
  destruct (Streamlit.job_json s) as [| | | | |d] eqn:Hjob; try discriminate.
  - intros H. injection H as <-. unfold Streamlit.edit_plan. now rewrite Hjob.
  - cbn [Json.get].
    set (v1 := match dict_get "text_swap" d with Some v => Ok v | None => Ok (JStr "") end).
    set (v2 := match dict_get "product_swap" d with Some v => Ok v | None => Ok (JStr "") end).
    set (v3 := match dict_get "edits" d with Some v => Ok v | None => Ok (JStr "") end).
    assert (H1 : exists x, v1 = Ok x) by (unfold v1; destruct (dict_get "text_swap" d); eexists; reflexivity).
    assert (H2 : exists x, v2 = Ok x) by (unfold v2; destruct (dict_get "product_swap" d); eexists; reflexivity).
    assert (H3 : exists x, v3 = Ok x) by (unfold v3; destruct (dict_get "edits" d); eexists; reflexivity).
    destruct H1 as [x1 ->], H2 as [x2 ->], H3 as [x3 ->]. cbn [bind].
    intros H. injection H as <-. unfold Streamlit.edit_plan.
    cbn [Streamlit.job_json Streamlit.generated_image Streamlit.usage_stats].
    change (Json.get (JObj [("text_swap", ?a); ("product_swap", ?b); ("edits", ?c)])
                     "text_swap" _) with (Ok a).
    cbn [Json.get dict_get String.eqb Ascii.eqb Bool.eqb bind].
    rewrite !text_area_untouched by apply text_area_shown. reflexivity.
Qed.

Lemma rerun_without_typing_changes_nothing_witness :
  Streamlit.edit_plan good_env untouched
    {| Streamlit.job_json := plan (JStr "bolder") (JStr "") (JStr "warmer");
       Streamlit.generated_image := None; Streamlit.usage_stats := None |}
  = Ok {| Streamlit.job_json := plan (JStr "bolder") (JStr "") (JStr "warmer");
          Streamlit.generated_image := None; Streamlit.usage_stats := None |}.
Proof.
  apply (rerun_without_typing_changes_nothing good_env
           (fun label => if String.eqb label "Text Swap Instructions" then Some "bolder"
                         else None)
           partial_plan_session).
  reflexivity.
Defined.

(** * The prompt templates *)

Lemma format_escaped_open (t : string) (args : list string) :
  Fmt.format ("{{" ++ t) args = (r <- Fmt.format t args ;; Ok ("{" ++ r)).
Proof. reflexivity. Qed.

Lemma format_escaped_close (t : string) (args : list string) :
  Fmt.format ("}}" ++ t) args = (r <- Fmt.format t args ;; Ok ("}" ++ r)).
Proof. reflexivity. Qed.

Lemma format_planner_template (head guidelines campaign_info : string) :
  brace_free head = true -> brace_free guidelines = true ->
  Fmt.format (planner_template head guidelines) [campaign_info]
  = Ok (planner_prompt head guidelines campaign_info).
Proof.
  intros Hh Hg. unfold planner_template, planner_prompt.
  rewrite (format_brace_free head _ _ Hh).
  rewrite (format_brace_free "```json" _ _ eq_refl).
  rewrite (format_brace_free nl _ _ eq_refl).
  rewrite format_escaped_open.
  rewrite (format_brace_free nl _ _ eq_refl).
  rewrite (format_brace_free planner_keys _ _ eq_refl).
  rewrite format_escaped_close.
  rewrite (format_brace_free nl _ _ eq_refl).
  rewrite (format_brace_free "```" _ _ eq_refl).
  rewrite (format_brace_free nl _ _ eq_refl).
  rewrite (format_brace_free guidelines _ _ Hg).
  rewrite (format_brace_free "[CAMPAIGN DATA]:" _ _ eq_refl).
  rewrite (format_brace_free nl _ _ eq_refl).
  rewrite format_slot.
  reflexivity.
Qed.

Lemma planner_head_brace_free : brace_free planner_head = true.
Proof. vm_compute. reflexivity. Qed.

Lemma planner_guidelines_brace_free : brace_free planner_guidelines = true.
Proof. vm_compute. reflexivity. Qed.

Lemma job_unified_instructions_brace_free : brace_free job_unified_instructions = true.
Proof. vm_compute. reflexivity. Qed.

(** X21: the two templates of the program can be filled with any text:
    [job_json_planner.format(campaign)] is the planner text with the braces
    of its sample object single and the campaign text at its end, and
    [job_unified.format(x, y, z)] is the instruction text followed by the
    three values under their headings; [format] raises on neither, braces
    in the values included. *)
Theorem templates_take_any_text (campaign_info x y z : string) :
  Fmt.format job_json_planner [campaign_info]
  = Ok (planner_prompt planner_head planner_guidelines campaign_info) /\
  Fmt.format (job_unified job_unified_instructions) [x; y; z]
  = Ok (unified_prompt job_unified_instructions x y z).
Proof.
  split.
  - apply format_planner_template;
      [apply planner_head_brace_free | apply planner_guidelines_brace_free].
  - apply format_job_unified, job_unified_instructions_brace_free.
Qed.

(** The planner call is the first thing [flow] does once its prompt is
    built. *)
Lemma flow_first_call
      (job_json_planner unified_instructions : string) (E : env)
      (ad : image) (brand_info : string) (logo product : image) (w : world) (p0 : string) :
  Fmt.format job_json_planner [brand_info] = Ok p0 ->
  exists rest,
    calls (snd (flow job_json_planner unified_instructions E ad brand_info logo product w))
    = (calls w ++ planner_call p0 ad logo product :: rest)%list.
Proof.
  intros Hprompt. rewrite flow_plan_stage, Hprompt.
  set (c0 := planner_call p0 ad logo product).
  assert (Hone : forall r : result (option bytes * usage),
             exists rest, calls (snd (r, log_call c0 w)) = (calls w ++ c0 :: rest)%list)
    by (intros r; now exists []).
  destruct (generate_content E _ c0) as [r0| |]; try apply Hone.
  unfold mbind at 1, lift at 1.
  destruct (match text r0 with Some t => parse_plan t | None => Raise TypeError end)
    as [job| |]; try apply Hone.
  unfold mbind at 1, lift at 1. destruct (getitem job "text_swap") as [ts| |]; try apply Hone.
  unfold mbind at 1, lift at 1. destruct (getitem job "product_swap") as [ps| |];
    try apply Hone.
  unfold mbind at 1, lift at 1. destruct (getitem job "edits") as [ed| |]; try apply Hone.
  unfold mbind at 1, lift at 1.
  destruct (Fmt.format (job_unified _) _) as [p1| |]; try apply Hone.
  rewrite flow_render_stage. exists [render_call p1 ad logo product].
  destruct (generate_content E _ _) as [r1| |]; [destruct (parts r1)| |];
    cbn [snd log_call calls]; now rewrite <- app_assoc.
Qed.

Lemma plan_error_none (job : value) :
  plan_error job = None ->
  exists ts ps ed,
    getitem job "text_swap" = Ok ts /\
    getitem job "product_swap" = Ok ps /\
    getitem job "edits" = Ok ed.
Proof.
  unfold plan_error. destruct job as [| | | | |d]; try discriminate. cbn [getitem].
  destruct (dict_get "text_swap" d) as [ts|]; [|discriminate].
  destruct (dict_get "product_swap" d) as [ps|]; [|discriminate].
  destruct (dict_get "edits" d) as [ed|]; [|discriminate].
  intros _. now exists ts, ps, ed.
Qed.

(** X22: on the program's own templates every run of [flow] sends the
    planner call, whatever the brand text; and when the answer parses to an
    object with the keys text_swap, product_swap and edits, whatever their
    values, it sends the image call with the unified template filled with
    these three values, as [format] renders them. *)
Theorem flow_on_its_templates
        (E : env) (ad : image) (brand_info : string) (logo product : image) (w : world) :
  (exists rest,
      calls (snd (flow job_json_planner job_unified_instructions E ad brand_info logo
                       product w))
      = (calls w ++ planner_call (planner_prompt planner_head planner_guidelines brand_info)
                                 ad logo product :: rest)%list) /\
  (forall r0 t job,
      generate_content E (List.length (calls w))
                       (planner_call (planner_prompt planner_head planner_guidelines
                                                     brand_info) ad logo product) = Ok r0 ->
      text r0 = Some t ->
      parse_plan t = Ok job ->
      plan_error job = None ->
      exists ts ps ed,
        getitem job "text_swap" = Ok ts /\
        getitem job "product_swap" = Ok ps /\
        getitem job "edits" = Ok ed /\
        calls (snd (flow job_json_planner job_unified_instructions E ad brand_info logo
                         product w))
        = (calls w
             ++ [planner_call (planner_prompt planner_head planner_guidelines brand_info)
                              ad logo product;
                 render_call (unified_prompt job_unified_instructions
                                (to_str E ts) (to_str E ps) (to_str E ed))
                             ad logo product])%list).
Proof.
  assert (Hprompt : Fmt.format job_json_planner [brand_info]
                    = Ok (planner_prompt planner_head planner_guidelines brand_info)).
  { apply format_planner_template;
      [apply planner_head_brace_free | apply planner_guidelines_brace_free]. }
  split; [now apply flow_first_call|].
  intros r0 t job Hcall Htext Hjob Hplan.
  destruct (plan_error_none job Hplan) as (ts & ps & ed & Hts & Hps & Hed).
  exists ts, ps, ed. repeat split; auto.
  rewrite flow_plan_stage, Hprompt, Hcall, Htext, Hjob.
  rewrite mbind_lift_ok, Hts, mbind_lift_ok, Hps, mbind_lift_ok, Hed, mbind_lift_ok.
  rewrite (format_job_unified _ _ _ _ job_unified_instructions_brace_free), mbind_lift_ok.
  rewrite flow_render_stage.
  destruct (generate_content E _ (render_call _ _ _ _)) as [r1| |]; [destruct (parts r1)| |];
    cbn [snd log_call calls]; now rewrite <- app_assoc.
Qed.

Lemma flow_on_its_templates_witness :
  exists ts ps ed,
    getitem (plan (JStr "X") (JStr "Y") (JStr "Z")) "text_swap" = Ok ts /\
    getitem (plan (JStr "X") (JStr "Y") (JStr "Z")) "product_swap" = Ok ps /\
    getitem (plan (JStr "X") (JStr "Y") (JStr "Z")) "edits" = Ok ed /\
    calls (snd (flow job_json_planner job_unified_instructions good_env "ref" "brand" "logo"
                     "shoe" empty_world))
    = (calls empty_world
         ++ [planner_call (planner_prompt planner_head planner_guidelines "brand")
                          "ref" "logo" "shoe";
             render_call (unified_prompt job_unified_instructions
                            (to_str good_env ts) (to_str good_env ps) (to_str good_env ed))
                         "ref" "logo" "shoe"])%list.
Proof.
  apply (proj2 (flow_on_its_templates good_env "ref" "brand" "logo" "shoe" empty_world)
               sample_plan_response
               ("```json" ++ nl ++ plan_text "X" "Y" "Z" ++ nl ++ "```")
               (plan (JStr "X") (JStr "Y") (JStr "Z"))).
  - reflexivity.
  - reflexivity.
  - vm_compute. reflexivity.
  - reflexivity.
Defined.

(** * A plan of plain text, bare or fenced *)

Lemma literal_char_parts (c : ascii) :
  literal_char c = true ->
  Ascii.eqb c dquote = false /\ Ascii.eqb c "\" = false /\ Nat.ltb (ord c) 32 = false
  /\ Ascii.eqb c "`" = false.
Proof.
  unfold literal_char. intros H.
  apply andb_prop in H as [H H4]. apply andb_prop in H as [H H3].
  apply andb_prop in H as [H1 H2].
  apply negb_true_iff in H1, H2, H3, H4. auto.
Qed.

Lemma raw_string_literal (x rest : string) :
  literal x = true -> raw_string (x ++ String dquote rest) = Some (x, rest).
Proof.
  induction x as [|c x IH]; intros H.
  - cbn [String.append]. rewrite raw_string_cons. reflexivity.
  - cbn [literal] in H. apply andb_prop in H as [Hc Hx].
    destruct (literal_char_parts c Hc) as (H1 & H2 & _ & _).
    change (String c x ++ String dquote rest) with (String c (x ++ String dquote rest)).
    rewrite raw_string_cons, H1, H2, (IH Hx). reflexivity.
Qed.

Lemma decode_literal (x : string) : literal x = true -> decode x = Ok x.
Proof.
  induction x as [|c x IH]; intros H; [reflexivity|].
  cbn [literal] in H. apply andb_prop in H as [Hc Hx].
  destruct (literal_char_parts c Hc) as (_ & H2 & H3 & _).
  cbn [decode]. rewrite H2, H3, (IH Hx). reflexivity.
Qed.

Lemma scan_token_literal (x rest : string) :
  literal x = true ->
  scan_token (q ++ x ++ q ++ rest) = Ok (TStr x, rest).
Proof.
  intros H. change (q ++ x ++ q ++ rest) with (String dquote (x ++ String dquote rest)).
  change (scan_token (String dquote (x ++ String dquote rest)))
    with ('(str, r) <- scan_string (x ++ String dquote rest) ;; Ok (TStr str, r)).
  unfold scan_string. rewrite (raw_string_literal x rest H), (decode_literal x H).
  reflexivity.
Qed.

Lemma lex_step (s : string) (t : token) (rest : string) (ts : list token) :
  head_ws s = false ->
  scan_token s = Ok (t, rest) ->
  lex (S (String.length rest)) rest = Ok ts ->
  lex (S (String.length s)) s = Ok (t :: ts).
Proof.
  intros Hws Ht Hrest. destruct s as [|c s]; [discriminate|].
  cbn [head_ws] in Hws. rewrite lex_cons, Hws, Ht. cbn [bind].
  pose proof (scan_token_shorter _ _ _ Ht) as Hlen.
  rewrite (lex_enough _ (S (String.length rest))) by lia.
  now rewrite Hrest.
Qed.

Lemma lex_plan_text (x y z : string) :
  literal x = true -> literal y = true -> literal z = true ->
  lex (S (String.length (plan_text x y z))) (plan_text x y z)
  = Ok [TLBrace; TStr "text_swap"; TColon; TStr x; TComma;
        TStr "product_swap"; TColon; TStr y; TComma;
        TStr "edits"; TColon; TStr z; TRBrace].
Proof.
  intros Hx Hy Hz. unfold plan_text.
  repeat (eapply lex_step;
          [ reflexivity
          | first [ apply scan_token_literal; first [assumption | reflexivity]
                  | reflexivity ]
          | ]).
  reflexivity.
Qed.

Lemma loads_plan_text (x y z : string) :
  literal x = true -> literal y = true -> literal z = true ->
  Json.loads (plan_text x y z) = Ok (plan (JStr x) (JStr y) (JStr z)).
Proof.
  intros Hx Hy Hz. unfold Json.loads. rewrite (lex_plan_text x y z Hx Hy Hz). reflexivity.
Qed.

Lemma tickless_app (a b : string) :
  tickless (a ++ b) = tickless a && tickless b.
Proof.
  induction a as [|c a IH]; [reflexivity|].
  cbn [String.append tickless]. rewrite IH. now rewrite andb_assoc.
Qed.

Lemma literal_tickless (x : string) : literal x = true -> tickless x = true.
Proof.
  induction x as [|c x IH]; [reflexivity|]. cbn [literal tickless]. intros H.
  apply andb_prop in H as [Hc Hx].
  destruct (literal_char_parts c Hc) as (_ & _ & _ & H4). now rewrite H4, (IH Hx).
Qed.

Lemma tickless_no_fence (s : string) : tickless s = true -> Spec.until_fence s = None.
Proof.
  induction s as [|c s IH]; [reflexivity|]. cbn [tickless]. intros H.
  apply andb_prop in H as [Hc Hs]. apply negb_true_iff in Hc.
  cbn [Spec.until_fence strip_prefix]. rewrite Ascii.eqb_sym, Hc, (IH Hs). reflexivity.
Qed.

Lemma plan_text_tickless (x y z : string) :
  literal x = true -> literal y = true -> literal z = true ->
  tickless (plan_text x y z) = true.
Proof.
  intros Hx Hy Hz. unfold plan_text.
  rewrite !tickless_app, (literal_tickless x Hx), (literal_tickless y Hy),
    (literal_tickless z Hz). reflexivity.
Qed.

(** X24: a plan whose three values are plain text (no quote, backslash,
    control character or backtick) is recovered exactly by the extractor
    followed by the parser, whether the planner sends it bare or inside a
    block tagged json, with any white space inside the fences and anything
    after the closing one; the three key accesses then yield the values. *)
Theorem plain_plan_is_recovered (x y z w1 w2 post : string) :
  literal x = true -> literal y = true -> literal z = true ->
  blank w1 = true -> blank w2 = true ->
  parse_plan (plan_text x y z) = Ok (plan (JStr x) (JStr y) (JStr z)) /\
  parse_plan ("```json" ++ w1 ++ plan_text x y z ++ w2 ++ "```" ++ post)
  = Ok (plan (JStr x) (JStr y) (JStr z)) /\
  getitem (plan (JStr x) (JStr y) (JStr z)) "text_swap" = Ok (JStr x) /\
  getitem (plan (JStr x) (JStr y) (JStr z)) "product_swap" = Ok (JStr y) /\
  getitem (plan (JStr x) (JStr y) (JStr z)) "edits" = Ok (JStr z).
Proof.
  intros Hx Hy Hz Hw1 Hw2.
  pose proof (loads_plan_text x y z Hx Hy Hz) as Hloads.
  pose proof (tickless_no_fence _ (plan_text_tickless x y z Hx Hy Hz)) as Hfence.
  unfold parse_plan. repeat split.
  - now rewrite (extract_x_bare _ "json" eq_refl Hfence).
  - change ("```json" ++ w1 ++ plan_text x y z ++ w2 ++ "```" ++ post)
      with ("```" ++ "json" ++ w1 ++ plan_text x y z ++ w2 ++ "```" ++ post).
    rewrite (extract_x_wrapped _ "json" w1 w2 post eq_refl Hfence
               (loads_no_tick _ _ Hloads) Hw1 Hw2).
    cbn [bind]. now apply loads_strip.
Qed.

Lemma plain_plan_is_recovered_witness :
  parse_plan (plan_text "Headline: Walk on" "Swap both shoes" "Warm tones")
  = Ok (plan (JStr "Headline: Walk on") (JStr "Swap both shoes") (JStr "Warm tones")) /\
  parse_plan ("```json" ++ nl ++ plan_text "Headline: Walk on" "Swap both shoes" "Warm tones"
                ++ nl ++ "```" ++ " Done.")
  = Ok (plan (JStr "Headline: Walk on") (JStr "Swap both shoes") (JStr "Warm tones")) /\
  getitem (plan (JStr "Headline: Walk on") (JStr "Swap both shoes") (JStr "Warm tones"))
          "text_swap" = Ok (JStr "Headline: Walk on") /\
  getitem (plan (JStr "Headline: Walk on") (JStr "Swap both shoes") (JStr "Warm tones"))
          "product_swap" = Ok (JStr "Swap both shoes") /\
  getitem (plan (JStr "Headline: Walk on") (JStr "Swap both shoes") (JStr "Warm tones"))
          "edits" = Ok (JStr "Warm tones").
Proof.
  apply (plain_plan_is_recovered "Headline: Walk on" "Swap both shoes" "Warm tones"
           nl nl " Done."); reflexivity.
Defined.

(** * What [main] prints *)

Lemma run_prints_progress
      (job_json_planner unified_instructions : string) (E : env)
      (name brand_info : string) (logo product : image) (output_dir : string) (w : world) :
  exists ls,
    stdout (snd (process_single_image job_json_planner unified_instructions E name brand_info
                   logo product output_dir w)) = (stdout w ++ ls)%list /\
    forallb progress_line ls = true.
Proof.
  rewrite process_single_image_cases.
  destruct (load E ("references/" ++ name)) as [img|].
  - pose proof (flow_effects job_json_planner unified_instructions E img brand_info
                  logo product (say (Processing name) w)) as Hfx.
    destruct Hfx as (cs & (_ & _ & Hs) & _).
    destruct (flow _ _ _ _ _ _ _ _) as [[[[b|] u]|e|] w1]; cbn [snd] in *;
      cbn [say store stdout] in *; rewrite Hs.
    + exists [Processing name; Saved (output_path output_dir name)].
      now rewrite <- app_assoc.
    + now exists [Processing name].
    + now exists [Processing name].
    + now exists [Processing name].
  - exists [Processing name; CorruptImage ("references/" ++ name)].
    cbn [snd say stdout]. now rewrite <- app_assoc.
Qed.

Lemma batch_prints_progress
      (job_json_planner unified_instructions : string) (E : env)
      (brand_info : string) (logo product : image) (output_dir : string)
      (names : list string) :
  forall w,
  exists ls,
    stdout (snd (mapM (fun name =>
                         process_single_image job_json_planner unified_instructions E name
                           brand_info logo product output_dir) names w))
    = (stdout w ++ ls)%list /\
    forallb progress_line ls = true.
Proof.
  induction names as [|name names IH]; intros w.
  - exists []. cbn. now rewrite app_nil_r.
  - cbn [mapM]. unfold mbind at 1.
    destruct (run_prints_progress job_json_planner unified_instructions E name brand_info
                logo product output_dir w) as (ls1 & Hs1 & Hp1).
    destruct (process_single_image _ _ _ name _ _ _ _ w) as [[u| |] w1]; cbn [snd] in *;
      try (now exists ls1).
    unfold mbind at 1. destruct (IH w1) as (ls2 & Hs2 & Hp2).
    destruct (mapM _ names w1) as [[us| |] w2]; cbn [snd ret] in *;
      exists (ls1 ++ ls2)%list; rewrite Hs2, Hs1, <- app_assoc, forallb_app, Hp1, Hp2; auto.
Qed.

Lemma progress_not_all_done (ls : list line) :
  forallb progress_line ls = true -> ~ In AllDone ls.
Proof.
  intros H Hin. rewrite forallb_forall in H. now apply H in Hin.
Qed.

Lemma progress_not_statistics (ls : list line) (n : nat) (ti to : Z) :
  forallb progress_line ls = true -> ~ In (Statistics n ti to) ls.
Proof.
  intros H Hin. rewrite forallb_forall in H. now apply H in Hin.
Qed.

(** X25: [main] prints the statistics and the closing line only when it
    returns: whatever it prints when an asset or a run fails is progress of
    the runs, and a run that fails leaves the batch without statistics. *)
Theorem main_reports_only_on_success
        (job_json_planner unified_instructions : string) (E : env) (brand_info : string)
        (w : world) :
  exists ls,
    stdout (snd (main job_json_planner unified_instructions E brand_info w))
    = (stdout w ++ ls)%list /\
    (In AllDone ls <->
     fst (main job_json_planner unified_instructions E brand_info w) = Ok tt) /\
    (forall n ti to,
        In (Statistics n ti to) ls ->
        fst (main job_json_planner unified_instructions E brand_info w) = Ok tt).
Proof.
  rewrite main_cases.
  destruct (load E "data/logo.png") as [logo|].
  2:{ exists [CorruptImage "data/logo.png"]. cbn [fst snd say stdout].
      repeat split; try (intros [H|[]]; discriminate); try discriminate.
      intros n ti to [H|[]]; discriminate. }
  destruct (load E "data/image.png") as [product|].
  2:{ exists [CorruptImage "data/image.png"]. cbn [fst snd say stdout].
      repeat split; try (intros [H|[]]; discriminate); try discriminate.
      intros n ti to [H|[]]; discriminate. }
  destruct (batch_prints_progress job_json_planner unified_instructions E brand_info
              logo product "output_new_1" (processed E) w) as (ls & Hs & Hp).
  destruct (mapM _ (processed E) w) as [[[|u us]| |] w1]; cbn [fst snd] in *.
  - exists (ls ++ [AllDone])%list. cbn [say stdout]. rewrite Hs, <- app_assoc.
    repeat split; auto. intros _. apply in_or_app. right. now left.
  - exists (ls ++ [Statistics (List.length (u :: us)) (total input_tokens (u :: us))
                              (total output_tokens (u :: us)); AllDone])%list.
    cbn [say stdout]. rewrite Hs, <- !app_assoc.
    repeat split; auto. intros _. apply in_or_app. right. right. now left.
  - exists ls. split; [exact Hs|]. split; [split|].
    + intros Hin. now apply progress_not_all_done in Hin.
    + discriminate.
    + intros n ti to Hin. now apply progress_not_statistics in Hin.
  - exists ls. split; [exact Hs|]. split; [split|].
    + intros Hin. now apply progress_not_all_done in Hin.
    + discriminate.
    + intros n ti to Hin. now apply progress_not_statistics in Hin.
Qed.

(** * An answer without content *)

Lemma lex_blank_cases (w : string) :
  blank w = true ->
  forall f, String.length w < f -> lex f w = Ok [] \/ lex f w = Raise JSONDecodeError.
Proof.
  induction w as [|c w IH]; intros Hb f Hf.
  - destruct f; [simpl in Hf; lia|]. now left.
  - cbn [blank] in Hb. apply andb_prop in Hb as [Hc Hw].
    destruct f as [|f]; [simpl in Hf; lia|]. simpl in Hf.
    rewrite lex_cons. destruct (is_ws c).
    + apply IH; [exact Hw | lia].
    + right. now rewrite (scan_token_inert c w (isspace_inert c Hc)).
Qed.

Lemma loads_blank (w : string) : blank w = true -> Json.loads w = Raise JSONDecodeError.
Proof.
  intros Hb. unfold Json.loads.
  destruct (lex_blank_cases w Hb (S (String.length w))) as [H|H]; [lia| |]; now rewrite H.
Qed.

(** X26: an answer without content is no plan: on a planner answer that
    is empty or white space only, and on one whose block tagged json holds
    white space only, the extractor followed by the parser raises
    [JSONDecodeError]. *)
Theorem blank_answer_is_no_plan (w w1 w2 post : string) :
  blank w = true -> blank w1 = true -> blank w2 = true ->
  parse_plan w = Raise JSONDecodeError /\
  parse_plan ("```json" ++ w1 ++ w2 ++ "```" ++ post) = Raise JSONDecodeError.
Proof.
  intros Hw H1 H2. unfold parse_plan. split.
  - rewrite (extract_x_bare w "json" eq_refl (until_fence_blank w Hw)). cbn [bind].
    now apply loads_blank.
  - change ("```json" ++ w1 ++ w2 ++ "```" ++ post)
      with ("```" ++ "json" ++ w1 ++ "" ++ w2 ++ "```" ++ post).
    rewrite (extract_x_wrapped "" "json" w1 w2 post eq_refl eq_refl eq_refl H1 H2).
    reflexivity.
Qed.

Lemma blank_answer_is_no_plan_witness :
  parse_plan "" = Raise JSONDecodeError /\
  parse_plan ("```json" ++ nl ++ " " ++ "```" ++ "") = Raise JSONDecodeError.
Proof.
  apply (blank_answer_is_no_plan "" nl " " ""); reflexivity.
Defined.

(** * Failures under the buttons *)

(** X27: an upload that does not decode is reported by both handlers
    with the decoder's exception, whichever of the reference, the product
    and the logo it is; nothing is sent and the session is as before. *)
Theorem corrupt_upload_is_reported
        (E : env) (job_json_planner unified_instructions : string) (ad product : bytes)
        (logo_image : option bytes) (campaign_info : string) (s : Streamlit.session)
        (w : world) (e : exn) :
  strip campaign_info <> "" ->
  image_open E ad = Raise e
  \/ (exists a, image_open E ad = Ok a /\ image_open E product = Raise e)
  \/ (exists a p logo, image_open E ad = Ok a /\ image_open E product = Ok p /\
                       logo_image = Some logo /\ image_open E logo = Raise e) ->
  Handlers.generate_plan_clicked E job_json_planner (Some ad) (Some product) logo_image
                                 campaign_info s w = (Ok (s, Handlers.PlanFailed e), w) /\
  Handlers.generate_image_clicked E unified_instructions (Some ad) (Some product) logo_image
                                  campaign_info s w = (Ok (s, Handlers.ImageFailed e), w).
Proof.
  intros Hc H.
  assert (Himgs : Handlers.images_list E ad product logo_image = Raise e).
  { unfold Handlers.images_list.
    destruct H as [H|[(a & Ha & Hp)|(a & p & logo & Ha & Hp & -> & Hl)]].
    - now rewrite H.
    - now rewrite Ha, Hp.
    - rewrite Ha, Hp. cbn [bind Handlers.upload_to_pil]. now rewrite Hl. }
  unfold Handlers.generate_plan_clicked, Handlers.generate_image_clicked.
  destruct (String.eqb_spec (strip campaign_info) ""); [contradiction|].
  unfold Handlers.guarded. rewrite Himgs. split; reflexivity.
Qed.

Lemma corrupt_upload_is_reported_witness :
  Handlers.generate_plan_clicked picky_env "{}" (Some "AD") (Some "") None "brand"
                                 Streamlit.initial empty_world
  = (Ok (Streamlit.initial, Handlers.PlanFailed ValueError), empty_world) /\
  Handlers.generate_image_clicked picky_env "" (Some "AD") (Some "") None "brand"
                                  Streamlit.initial empty_world
  = (Ok (Streamlit.initial, Handlers.ImageFailed ValueError), empty_world).
Proof.
  apply (corrupt_upload_is_reported picky_env "{}" "" "AD" "" None "brand"
           Streamlit.initial empty_world ValueError).
  - vm_compute. discriminate.
  - right. left. exists "AD". split; reflexivity.
Defined.
